(** * Slot scheduling and booking admission: a shallow embedding

    The development follows the request handler [onRequest] of the booking
    back end: the calendar expander of [POST /staff/slots/generate] and the
    admission controller of [POST /bookings], together with the staff
    operations that change slot rows ([POST /staff/slots],
    [PUT /staff/slots/:id], [DELETE /staff/bookings/:id]).

    Conventions of the embedding.
    - JavaScript strings are [string]s: sequences of code units below 256.
    - The fields of a request have the types of the interface (a string is
      a string, a number an integer); an absent or [null] field is [None].
      The body of [PUT /staff/slots/:id], whose handler tells [undefined]
      from [null], has fields of type [Field].
    - JavaScript numbers on these paths are integers ([Z]); a value that may
      be [NaN] is an [option Z] with [None] for [NaN]. The doubles of the
      source are these integers as long as they stay below [2 ^ 53] in
      magnitude: the statements that a window walk ends are made for the
      requests of [exactRequest], and [Double] has the walk on doubles.
    - A column that the schema declares without [NOT NULL] and that a
      handler can set to [NULL] is an [option]: [max_capacity].
    - [while] loops are run with fuel by [loop]; [None] means that the fuel
      ran out before the loop condition became false.
    - A handler [M Response] is a function on the database that also
      returns the statements it sent, in order. A statement acts on the
      rows as its SQL text says, with [=] on ids as equality of strings and
      integer columns unbounded. Requests are handled one at a time: a
      handler runs to its end before the next one starts. [interleave] is
      the exception: there two handlers take turns statement by statement.
    - The routes are modelled from the point where the source dispatches on
      method and path inside its [try] block: the rate limiter has let the
      request pass, the server secret is configured and, for the staff
      routes, the bearer token is valid. *)

From Stdlib Require Import Floats.PrimFloat Numbers.Cyclic.Int63.Uint63.
From Stdlib Require Import ZArith Lia Bool List Ascii String DecimalString.
From stdpp Require Import base option list gmap strings.

Local Open Scope string_scope.
Local Open Scope Z_scope.

(** ** JavaScript strings *)

Module JS.

(** White space and line terminators of ECMAScript among code units below
    256: TAB, LF, VT, FF, CR, SP and NBSP. They are what [trim] strips and
    what [\s] matches. *)
Definition isWhiteSpace (c : ascii) : bool :=
  let n := N_of_ascii c in
  ((9 <=? n) && (n <=? 13) || (n =? 32) || (n =? 160))%N.

Definition isDigit (c : ascii) : bool :=
  let n := N_of_ascii c in ((48 <=? n) && (n <=? 57))%N.

Definition digitVal (c : ascii) : Z := Z.of_N (N_of_ascii c) - 48.

Fixpoint trimStart (s : string) : string :=
  match s with
  | String c r => if isWhiteSpace c then trimStart r else s
  | EmptyString => EmptyString
  end.

Fixpoint trimEnd (s : string) : string :=
  match s with
  | String c r =>
      match trimEnd r with
      | EmptyString => if isWhiteSpace c then EmptyString else String c EmptyString
      | r' => String c r'
      end
  | EmptyString => EmptyString
  end.

(** [str.trim()] *)
Definition trim (s : string) : string := trimEnd (trimStart s).

(** [str.slice(0, n)] for [n >= 0] *)
Fixpoint slice0 (n : nat) (s : string) : string :=
  match n, s with
  | S k, String c r => String c (slice0 k r)
  | _, _ => EmptyString
  end.

(** [str.length] *)
Definition len (s : string) : Z := Z.of_nat (String.length s).

(** Truthiness of a string: only the empty string is falsy. *)
Definition truthy (s : string) : bool :=
  match s with EmptyString => false | _ => true end.

(** Truthiness of an optional string field ([undefined] and [null] are
    falsy). *)
Definition truthyOpt (o : option string) : bool :=
  match o with Some s => truthy s | None => false end.

(** [a || b] on an optional string with a string default. *)
Definition orElse (o : option string) (d : string) : string :=
  match o with Some s => if truthy s then s else d | None => d end.

Fixpoint allChars (p : ascii -> bool) (s : string) : bool :=
  match s with
  | String c r => p c && allChars p r
  | EmptyString => true
  end.

(** [str.split(sep)] for a one-character separator. *)
Fixpoint split (sep : ascii) (s : string) : list string :=
  match s with
  | EmptyString => [EmptyString]
  | String c r =>
      if Ascii.eqb c sep then EmptyString :: split sep r
      else match split sep r with
           | h :: t => String c h :: t
           | [] => [String c EmptyString]
           end
  end.

(** Value of a run of decimal digits, most significant first. *)
Fixpoint digitsVal (acc : Z) (s : string) : Z :=
  match s with
  | String c r => digitsVal (10 * acc + digitVal c) r
  | EmptyString => acc
  end.

(** [parseInt(s)] on a non-empty run of decimal digits (the only strings
    the date parser hands to it). *)
Definition parseIntDigits (s : string) : Z := digitsVal 0 s.

(** [Number(s)] for a string. [None] is [NaN]. Blank strings give 0 and a
    run of decimal digits, with an optional sign and surrounding blanks,
    gives its value, as in ECMAScript. The embedding has integers only:
    strings that ECMAScript reads as a fraction, with an exponent, in
    another radix or as an infinity fall outside it and are mapped to
    [None] here. Clock strings [HH:MM] never produce them. *)
Definition Number (s : string) : option Z :=
  match trim s with
  | EmptyString => Some 0
  | String "+" r =>
      if truthy r && allChars isDigit r then Some (digitsVal 0 r) else None
  | String "-" r =>
      if truthy r && allChars isDigit r then Some (- digitsVal 0 r) else None
  | t => if allChars isDigit t then Some (digitsVal 0 t) else None
  end.

(** [String(n)] for an integer. *)
Definition ofZ (n : Z) : string := NilZero.string_of_int (Z.to_int n).

Fixpoint zeros (n : nat) : string :=
  match n with O => EmptyString | S k => String "0" (zeros k) end.

(** [String(n).padStart(2, '0')] *)
Definition pad2 (n : Z) : string :=
  let s := ofZ n in zeros (2 - String.length s)%nat +:+ s.

(** Truthiness of a number: 0 and [NaN] are falsy. *)
Definition truthyNum (o : option Z) : bool :=
  match o with Some n => negb (n =? 0) | None => false end.

End JS.

(** ** The generic [while] loop *)

Section Loop.
Context {St : Type}.
Variable cond : St -> bool.
Variable body : St -> option St.

(** [while (cond s) s = body s], run for at most [fuel] tests of the
    condition. The body itself may run out of fuel (a nested loop). *)
Fixpoint loop (fuel : nat) (s : St) : option St :=
  match fuel with
  | O => None
  | S k =>
      if cond s then
        match body s with
        | Some s' => loop k s'
        | None => None
        end
      else Some s
  end.

End Loop.

(** [for (const x of xs) acc = f x acc], where the body may run out of
    fuel. *)
Fixpoint forOf {A B : Type} (f : A -> B -> option B) (xs : list A) (acc : B)
  : option B :=
  match xs with
  | [] => Some acc
  | x :: rest =>
      match f x acc with
      | Some acc' => forOf f rest acc'
      | None => None
      end
  end.

(** ** Dates: [parseDateStr], [getDayOfWeek], [addDays], [compareDates] *)

Record Date := mkDate { year : Z; month : Z; day : Z }.

Definition str2 (a b : ascii) : string := String a (String b EmptyString).

(** The regular expression [/^(\d{4})-(\d{2})-(\d{2})/]: a prefix match,
    the three groups read by [parseInt]. *)
Definition parseDateStr (dateStr : string) : option Date :=
  match dateStr with
  | String y1 (String y2 (String y3 (String y4 (String "-"
      (String m1 (String m2 (String "-" (String d1 (String d2 _))))))))) =>
      if forallb JS.isDigit [y1; y2; y3; y4; m1; m2; d1; d2] then
        Some {| year := JS.parseIntDigits (String y1 (String y2 (str2 y3 y4)));
                month := JS.parseIntDigits (str2 m1 m2);
                day := JS.parseIntDigits (str2 d1 d2) |}
      else None
  | _ => None
  end.

(** Zeller's formula as the source writes it: [%] is the remainder that
    takes the sign of the dividend ([Z.rem]) and [Math.floor(a / b)] with
    [b > 0] is [a / b]. The result counts from 0 = Sunday. *)
Definition getDayOfWeek (year month day : Z) : Z :=
  let '(month, year) :=
    if month <? 3 then (month + 12, year - 1) else (month, year) in
  let q := day in
  let m := month in
  let k := Z.rem year 100 in
  let j := year / 100 in
  let h := Z.rem (q + (13 * (m + 1)) / 5 + k + k / 4 + j / 4 - 2 * j) 7 in
  Z.rem (h + 6) 7.

Definition isLeapYear (year : Z) : bool :=
  (Z.rem year 4 =? 0) && negb (Z.rem year 100 =? 0) || (Z.rem year 400 =? 0).

Definition daysInMonth0 : list Z :=
  [0; 31; 28; 31; 30; 31; 30; 31; 31; 30; 31; 30; 31].

(** [daysInMonth[month]]: [None] is [undefined] (index out of the array). *)
Definition at_ (daysInMonth : list Z) (month : Z) : option Z :=
  if month <? 0 then None else daysInMonth !! Z.to_nat month.

(** State of the loop of [addDays]: the array and the three components. *)
Record AddDaysState := mkAdd {
  a_daysInMonth : list Z; a_year : Z; a_month : Z; a_day : Z }.

(** [day > daysInMonth[month]]; a comparison with [undefined] is false. *)
Definition addDays_cond (s : AddDaysState) : bool :=
  match at_ (a_daysInMonth s) (a_month s) with
  | Some n => n <? a_day s
  | None => false
  end.

Definition addDays_body (s : AddDaysState) : option AddDaysState :=
  let dim := default 0 (at_ (a_daysInMonth s) (a_month s)) in
  let day := a_day s - dim in
  let month := a_month s + 1 in
  Some (if 12 <? month then
          let year := a_year s + 1 in
          mkAdd (<[2%nat := if isLeapYear year then 29 else 28]> (a_daysInMonth s))
                year 1 day
        else mkAdd (a_daysInMonth s) (a_year s) month day).

Definition addDays (fuel : nat) (year month day daysToAdd : Z) : option Date :=
  let daysInMonth :=
    if isLeapYear year then <[2%nat := 29]> daysInMonth0 else daysInMonth0 in
  match loop addDays_cond addDays_body fuel
          (mkAdd daysInMonth year month (day + daysToAdd)) with
  | Some s => Some (mkDate (a_year s) (a_month s) (a_day s))
  | None => None
  end.

Definition compareDates (a b : Date) : Z :=
  if negb (year a =? year b) then year a - year b
  else if negb (month a =? month b) then month a - month b
  else day a - day b.

(** The template string that renders a walked date. *)
Definition formatDate (d : Date) : string :=
  JS.ofZ (year d) +:+ "-" +:+ JS.pad2 (month d) +:+ "-" +:+ JS.pad2 (day d).

(** ** The slot generation request and the calendar expander *)

Record TimeRange := mkRange { startTime : string; endTime : string }.

Record LunchBreak := mkLunch { start : string; end_ : string }.

(** The body of [POST /staff/slots/generate] with the types of the
    interface; an absent or [null] field is [None]. [reqStartTime] and
    [reqEndTime] are the fields [startTime] and [endTime] of the old request
    format. *)
Record GenerateReq := mkGenerateReq {
  subjectId : string;
  dates : option (list string);
  startDate : option string;
  endDate : option string;
  timeRanges : option (list TimeRange);
  reqStartTime : option string;
  reqEndTime : option string;
  duration : Z;
  capacity : Z;
  days : option (list Z);
  breakTime : option Z;
  location : option string;
  lunchBreak : option LunchBreak }.

(** A row pushed on [slots]; its id is drawn when the rows are inserted. *)
Record GenRow := mkGenRow {
  g_subject_id : string;
  g_start_time : string;
  g_duration : Z;
  g_max_capacity : Z;
  g_current_bookings : Z;
  g_location : string }.

Definition validateString (str : string) (minLen maxLen : Z) : bool :=
  (minLen <=? JS.len (JS.trim str)) && (JS.len str <=? maxLen).

Definition sanitizeString (str : string) : string :=
  JS.slice0 255 (JS.trim str).

Arguments validateString : simpl never.
Arguments sanitizeString : simpl never.

(** [timeRanges && timeRanges.length > 0 ? timeRanges : [{...}]] *)
Definition ranges (req : GenerateReq) : list TimeRange :=
  match timeRanges req with
  | Some (r :: rs) => r :: rs
  | _ => [mkRange (JS.orElse (reqStartTime req) "09:00")
                  (JS.orElse (reqEndTime req) "17:00")]
  end.

(** Minutes since midnight of ["HH:MM"]; [None] is [NaN] (also when the
    string has no colon and [m] is [undefined]). *)
Definition parseTimeToMinutes (timeStr : string) : option Z :=
  match JS.Number <$> JS.split ":" timeStr with
  | Some h :: Some m :: _ => Some (h * 60 + m)
  | _ => None
  end.

Definition minutesToTimeStr (mins : Z) : string :=
  let h := mins / 60 in
  let m := Z.rem mins 60 in
  JS.pad2 h +:+ ":" +:+ JS.pad2 m +:+ ":00".

(** [lunchStartMin] and [lunchEndMin]: 0 unless both strings are given. *)
Definition lunchMins (req : GenerateReq) : option Z * option Z :=
  match lunchBreak req with
  | Some lb =>
      if JS.truthy (start lb) && JS.truthy (end_ lb)
      then (parseTimeToMinutes (start lb), parseTimeToMinutes (end_ lb))
      else (Some 0, Some 0)
  | None => (Some 0, Some 0)
  end.

(** [!days || days.length === 0 || days.includes(dow)] *)
Definition dayWanted (days : option (list Z)) (dow : Z) : bool :=
  match days with
  | None | Some [] => true
  | Some ds => existsb (Z.eqb dow) ds
  end.

(** The recurring walk: [while (compareDates(current, end) <= 0)]. *)
Definition dateWalk_cond (end' : Date) (st : Date * list string) : bool :=
  compareDates st.1 end' <=? 0.

Definition dateWalk_body (fuel : nat) (days : option (list Z))
    (st : Date * list string) : option (Date * list string) :=
  let current := st.1 in
  let dow := getDayOfWeek (year current) (month current) (day current) in
  let targetDateStrs :=
    if dayWanted days dow then (st.2 ++ [formatDate current])%list else st.2 in
  match addDays fuel (year current) (month current) (day current) 1 with
  | Some next => Some (next, targetDateStrs)
  | None => None
  end.

Inductive Body :=
| Error (error : string)
| Success
| SuccessId (id : string)
| SuccessBooking (bookingId : string)
| SuccessCount (count : Z).

Record Response := json { body : Body; status : Z }.

(** What a stage of a handler hands on: a value, or the response of an
    early [return]. *)
Inductive Stage (A : Type) :=
| Continue (a : A)
| Return (r : Response).
Arguments Continue {A} a.
Arguments Return {A} r.

(** The dates pushed by the recurring walk from [start] to [end']. *)
Definition walkDates (fuel : nat) (days : option (list Z)) (start end' : Date)
  : option (list string) :=
  snd <$> loop (dateWalk_cond end') (dateWalk_body fuel days) fuel (start, []).

(** [targetDateStrs]; [None] when the fuel runs out in the recurring walk. *)
Definition resolveDates (fuel : nat) (req : GenerateReq)
  : option (Stage (list string)) :=
  match dates req with
  | Some (d :: ds) =>
      Some (Continue
        (filter (fun d => JS.truthy d && bool_decide (is_Some (parseDateStr d)))
                (d :: ds)))
  | _ =>
      match startDate req with
      | Some sd =>
          if JS.truthy sd then
            let start := parseDateStr sd in
            let end' := match endDate req with
                        | Some ed => if JS.truthy ed then parseDateStr ed else start
                        | None => start
                        end in
            match start, end' with
            | Some start, Some end' =>
                Continue <$> walkDates fuel (days req) start end'
            | _, _ => Some (Return (json (Error "Invalid date format") 400))
            end
          else Some (Continue [])
      | None => Some (Continue [])
      end
  end.

(** *** The walk over one time window *)

Section Walk.
Context {A : Type}.
(** [emit currMin] is the row pushed for a slot that starts at [currMin]. *)
Variable emit : Z -> A.
Variables duration slotInterval : Z.
(** [lunchBreak] is the truthiness of the request's [lunchBreak] object. *)
Variable lunchBreak : bool.
Variables lunchStartMin lunchEndMin : option Z.
Variable endMin : Z.

(** [lunchBreak && lunchStartMin && lunchEndMin && currMin < lunchEndMin &&
    slotEndMin > lunchStartMin]; when it holds the walk jumps to the
    value that is returned. *)
Definition lunchSkip (currMin slotEndMin : Z) : option Z :=
  match lunchStartMin, lunchEndMin with
  | Some ls, Some le =>
      if lunchBreak && JS.truthyNum lunchStartMin && JS.truthyNum lunchEndMin
         && (currMin <? le) && (ls <? slotEndMin)
      then Some le else None
  | _, _ => None
  end.

(** [while (currMin + duration <= endMin)] on the state
    [(currMin, slots)]. *)
Definition walk_cond (st : Z * list A) : bool :=
  st.1 + duration <=? endMin.

Definition walk_body (st : Z * list A) : option (Z * list A) :=
  let currMin := st.1 in
  let slotEndMin := currMin + duration in
  match lunchSkip currMin slotEndMin with
  | Some le => Some (le, st.2)
  | None => Some (currMin + slotInterval, (st.2 ++ [emit currMin])%list)
  end.

(** The loop of one window from [startMin]; the rows are appended to
    [slots]. *)
Definition walk (fuel : nat) (startMin : Z) (slots : list A)
  : option (list A) :=
  snd <$> loop walk_cond walk_body fuel (startMin, slots).

End Walk.

(** One [range] of one date. A [NaN] bound makes the loop condition false
    at its first test. *)
Definition walkRange {A : Type} (emit : Z -> A) (duration slotInterval : Z)
    (lunchBreak : bool) (lunchStartMin lunchEndMin : option Z)
    (fuel : nat) (range : TimeRange) (slots : list A) : option (list A) :=
  let startMin := parseTimeToMinutes (startTime range) in
  let endMin := parseTimeToMinutes (endTime range) in
  match startMin, endMin with
  | Some startMin, Some endMin =>
      walk emit duration slotInterval lunchBreak lunchStartMin lunchEndMin
           endMin fuel startMin slots
  | _, _ => Some slots
  end.

(** The row of [slots.push([uuid(), subjectId, slotTimestamp, duration,
    capacity, 0, sanitizeString(location || '')])], without the id. *)
Definition slotRow (req : GenerateReq) (dateStr : string) (currMin : Z)
  : GenRow :=
  {| g_subject_id := subjectId req;
     g_start_time := dateStr +:+ " " +:+ minutesToTimeStr currMin;
     g_duration := duration req;
     g_max_capacity := capacity req;
     g_current_bookings := 0;
     g_location := sanitizeString (JS.orElse (location req) "") |}.

Definition slotInterval (req : GenerateReq) : Z :=
  duration req + default 0 (breakTime req).

(** The two nested [for ... of] loops around the walk. *)
Definition expandDates (fuel : nat) (req : GenerateReq)
    (targetDateStrs : list string) : option (list GenRow) :=
  forOf (fun dateStr =>
           forOf (walkRange (slotRow req dateStr) (duration req)
                    (slotInterval req) (bool_decide (is_Some (lunchBreak req)))
                    (lunchMins req).1 (lunchMins req).2 fuel)
                 (ranges req))
        targetDateStrs [].

(** The handler up to the insertion of the rows: an early error response
    or the non-empty list of rows. *)
Definition expand (fuel : nat) (req : GenerateReq)
  : option (Stage (list GenRow)) :=
  if negb (validateString (subjectId req) 1 36)
  then Some (Return (json (Error "Invalid subject ID") 400))
  else
    match resolveDates fuel req with
    | None => None
    | Some (Return r) => Some (Return r)
    | Some (Continue []) =>
        Some (Return (json (Error "No valid dates provided") 400))
    | Some (Continue targetDateStrs) =>
        match expandDates fuel req targetDateStrs with
        | None => None
        | Some [] => Some (Return (json (Error "No slots generated") 400))
        | Some slots => Some (Continue slots)
        end
    end.

(** ** The database and the handler monad *)

(** A row of [slots]; the key of the map is the column [id]. *)
Record Slot := mkSlot {
  subject_id : string;
  start_time : string;
  slot_duration : Z;
  (** [None] is SQL [NULL]: the column is declared without [NOT NULL]. *)
  max_capacity : option Z;
  current_bookings : Z;
  slot_location : string }.

(** A row of [bookings], a table with primary key [id] and no other
    uniqueness constraint. *)
Record Booking := mkBooking {
  booking_id : string;
  slot_id : string;
  booking_subject_id : string;
  student_name : string;
  student_id : string;
  student_email : string;
  custom_answers : string;
  booking_status : string }.

Record DB := mkDB {
  slots : gmap string Slot;
  bookings : list Booking }.

(** The statements a handler sends to the database, in the order of the
    source. *)
Inductive Stmt :=
| SelectBookingOfStudent (slotId studentId : string)
| SelectSlot (slotId : string)
| UpdateIncrement (slotId : string) (expected : Z)
| SelectCurrentBookings (slotId : string)
| InsertBooking (bookingId : string)
| UpdateDecrement (slotId : string)
| SelectSlotDetails (slotId : string)
| InsertSlots (ids : list string)
| SelectBookingSlot (bookingId : string)
| DeleteBooking (bookingId : string)
| UpdateSlot (slotId : string).

Inductive Outcome (A : Type) :=
| Ok (a : A)
| Throw (e : string).
Arguments Ok {A} a.
Arguments Throw {A} e.

(** A handler step: it reads and writes the database, may throw, and
    reports the statements it sent. *)
Definition M (A : Type) : Type := DB -> Outcome A * DB * list Stmt.

#[export] Instance M_ret : MRet M := fun A a db => (Ok a, db, []).

#[export] Instance M_bind : MBind M := fun A B k m db =>
  match m db with
  | (Ok a, db', l) =>
      match k a db' with
      | (r, db'', l') => (r, db'', (l ++ l')%list)
      end
  | (Throw e, db', l) => (Throw e, db', l)
  end.

Definition throw {A : Type} (e : string) : M A := fun db => (Throw e, db, []).

(** [try { m } catch (e) { h e }] *)
Definition tryCatch {A : Type} (m : M A) (h : string -> M A) : M A := fun db =>
  match m db with
  | (Throw e, db', l) =>
      match h e db' with
      | (r, db'', l') => (r, db'', (l ++ l')%list)
      end
  | r => r
  end.

(** The [catch] around the whole of [onRequest]. *)
Definition onRequest (m : M Response) : M Response :=
  tryCatch m (fun _ => mret (json (Error "Server error") 500)).

(** What the platform decides for one request: the values of the
    successive calls of [uuid()], whether the [INSERT] of the booking meets
    a storage fault, whether the mail service is configured, and the
    timestamp [new Date(s).toISOString().slice(0, 19).replace('T', ' ')]
    ([None] when [toISOString] throws on an invalid date). Of the storage
    faults only the one the handler provides for is modelled; every other
    statement reaches the database. *)
Record Env := mkEnv {
  uuid : nat -> string;
  insertFault : bool;
  emailConfigured : bool;
  toDbTime : string -> option string }.

(** *** Statements *)

Definition stmt {A : Type} (s : Stmt) (f : DB -> Outcome A * DB) : M A :=
  fun db => let '(r, db') := f db in (r, db', [s]).

Definition setSlots (db : DB) (m : gmap string Slot) : DB :=
  mkDB m (bookings db).

Definition setBookings (db : DB) (bs : list Booking) : DB :=
  mkDB (slots db) bs.

Definition setCurrent (s : Slot) (n : Z) : Slot :=
  mkSlot (subject_id s) (start_time s) (slot_duration s) (max_capacity s) n
         (slot_location s).

(** [SELECT id FROM bookings WHERE slot_id = ? AND student_id = ?] *)
Definition selectBookingOfStudent (slotId studentId : string) : M (list string) :=
  stmt (SelectBookingOfStudent slotId studentId) (fun db =>
    (Ok (booking_id <$>
           filter (fun b => slot_id b = slotId /\ student_id b = studentId)
                  (bookings db)), db)).

(** [SELECT id, max_capacity, current_bookings FROM slots WHERE id = ?],
    first row. *)
Definition selectSlot (slotId : string) : M (option Slot) :=
  stmt (SelectSlot slotId) (fun db => (Ok (slots db !! slotId), db)).

(** [UPDATE slots SET current_bookings = current_bookings + 1 WHERE id = ?
    AND current_bookings = ? AND current_bookings < max_capacity]; the
    comparison with a [NULL] capacity is not true. *)
Definition updateIncrement (slotId : string) (expected : Z) : M unit :=
  stmt (UpdateIncrement slotId expected) (fun db =>
    (Ok (), match slots db !! slotId with
            | Some s =>
                if (current_bookings s =? expected)
                   && match max_capacity s with
                      | Some m => current_bookings s <? m
                      | None => false
                      end
                then setSlots db
                       (<[slotId := setCurrent s (current_bookings s + 1)]>
                          (slots db))
                else db
            | None => db
            end)).

(** [SELECT current_bookings FROM slots WHERE id = ?], first row. *)
Definition selectCurrentBookings (slotId : string) : M (option Z) :=
  stmt (SelectCurrentBookings slotId) (fun db =>
    (Ok (current_bookings <$> slots db !! slotId), db)).

(** [INSERT INTO bookings ...]: refused on a storage fault or when the
    primary key is taken. *)
Definition insertBooking (env : Env) (b : Booking) : M unit :=
  stmt (InsertBooking (booking_id b)) (fun db =>
    if insertFault env then (Throw "storage fault", db)
    else if bool_decide (booking_id b ∈ booking_id <$> bookings db)
    then (Throw "Duplicate entry for key PRIMARY", db)
    else (Ok (), setBookings db (bookings db ++ [b])%list)).

(** [UPDATE slots SET current_bookings = GREATEST(current_bookings - 1, 0)
    WHERE id = ?] *)
Definition updateDecrement (slotId : string) : M unit :=
  stmt (UpdateDecrement slotId) (fun db =>
    (Ok (), match slots db !! slotId with
            | Some s =>
                setSlots db
                  (<[slotId := setCurrent s (Z.max (current_bookings s - 1) 0)]>
                     (slots db))
            | None => db
            end)).

(** The read of the slot and subject names for the confirmation mail. *)
Definition selectSlotDetails (slotId : string) : M unit :=
  stmt (SelectSlotDetails slotId) (fun db => (Ok (), db)).

(** ** [POST /bookings]: the admission controller *)

Record BookingReq := mkBookingReq {
  slotId : string;
  bookingSubjectId : string;
  studentName : string;
  studentId : string;
  studentEmail : string;
  (** [JSON.stringify(data.customAnswers || {})] *)
  customAnswers : string }.

(** [[^\s@]] *)
Definition plainChar (c : ascii) : bool :=
  negb (JS.isWhiteSpace c) && negb (Ascii.eqb c "@").

(** [[^\s@]+] against a whole string *)
Definition plainRun (s : string) : bool :=
  JS.truthy s && JS.allChars plainChar s.

(** [[^\s@]+\.[^\s@]+$] against [pre ++ s], trying each dot of [s] as the
    literal one. *)
Fixpoint domainMatch (pre s : string) : bool :=
  match s with
  | EmptyString => false
  | String c r =>
      (Ascii.eqb c "." && plainRun pre && plainRun r)
      || domainMatch (pre +:+ String c EmptyString) r
  end.

(** [^[^\s@]+@[^\s@]+\.[^\s@]+$] against [pre ++ s]; the literal [@] can
    only be the first one. *)
Fixpoint emailMatch (pre s : string) : bool :=
  match s with
  | EmptyString => false
  | String c r =>
      if Ascii.eqb c "@" then plainRun pre && domainMatch EmptyString r
      else emailMatch (pre +:+ String c EmptyString) r
  end.

Definition validateEmail (email : string) : bool :=
  emailMatch EmptyString email && (JS.len email <=? 255).

(** The checks on the fields, in the order of the source. *)
Definition validateBooking (data : BookingReq) : option Response :=
  if negb (validateString (slotId data) 1 36)
     || negb (validateString (bookingSubjectId data) 1 36)
  then Some (json (Error "Invalid slot or subject ID") 400)
  else if negb (validateString (studentName data) 2 255)
  then Some (json (Error "Student name must be 2-255 characters") 400)
  else if negb (validateString (studentId data) 1 100)
  then Some (json (Error "Invalid student ID") 400)
  else if negb (validateEmail (studentEmail data))
  then Some (json (Error "Invalid email address") 400)
  else None.

Definition bookingRow (bookingId : string) (data : BookingReq) : Booking :=
  {| booking_id := bookingId;
     slot_id := slotId data;
     booking_subject_id := bookingSubjectId data;
     student_name := sanitizeString (studentName data);
     student_id := sanitizeString (studentId data);
     student_email := sanitizeString (studentEmail data);
     custom_answers := customAnswers data;
     booking_status := "confirmed" |}.

Definition postBookings (env : Env) (data : BookingReq) : M Response :=
  match validateBooking data with
  | Some r => mret r
  | None =>
    let studentId := sanitizeString (studentId data) in
    existingRows ← selectBookingOfStudent (slotId data) studentId;
    if (0 <? length existingRows)%nat
    then mret (json (Error "You have already booked this slot") 400)
    else
    slot ← selectSlot (slotId data);
    match slot with
    | None => mret (json (Error "Slot no longer exists") 400)
    | Some slot =>
      (* [slot.current_bookings >= slot.max_capacity]: a [null] capacity
         is compared as 0 *)
      if default 0 (max_capacity slot) <=? current_bookings slot
      then mret (json (Error "Sorry, this slot is fully booked!") 409)
      else
      updateIncrement (slotId data) (current_bookings slot);;
      updatedSlot ← selectCurrentBookings (slotId data);
      if match updatedSlot with
         | None => true
         | Some n => n <=? current_bookings slot
         end
      then mret (json (Error "Sorry, this slot just got fully booked!") 409)
      else
      let bookingId := uuid env 0 in
      tryCatch (insertBooking env (bookingRow bookingId data))
               (fun insertError =>
                  updateDecrement (slotId data);; throw insertError);;
      (if emailConfigured env then selectSlotDetails (slotId data)
       else mret ());;
      mret (json (SuccessBooking bookingId) 200)
    end
  end.

(** ** Staff operations on slots and bookings *)

(** [SELECT slot_id FROM bookings WHERE id = ?], first row. *)
Definition selectBookingSlot (bookingId : string) : M (option string) :=
  stmt (SelectBookingSlot bookingId) (fun db =>
    (Ok (slot_id <$> head (filter (fun b => booking_id b = bookingId)
                                  (bookings db))), db)).

(** [DELETE FROM bookings WHERE id = ?] *)
Definition deleteBookingRow (bookingId : string) : M unit :=
  stmt (DeleteBooking bookingId) (fun db =>
    (Ok (), setBookings db
              (filter (fun b => booking_id b ≠ bookingId) (bookings db)))).

(** [DELETE /staff/bookings/:id] *)
Definition deleteBooking (bookingId : string) : M Response :=
  if negb (validateString bookingId 1 36)
  then mret (json (Error "Invalid booking ID") 400)
  else
  booking ← selectBookingSlot bookingId;
  match booking with
  | None => mret (json (Error "Booking not found") 404)
  | Some booking_slot_id =>
      deleteBookingRow bookingId;;
      updateDecrement booking_slot_id;;
      mret (json Success 200)
  end.

(** [INSERT INTO slots ... VALUES (...), (...)]: one statement, refused as
    a whole when a primary key of the batch is taken or repeated. *)
Definition insertSlots (rows : list (string * Slot)) : M unit :=
  stmt (InsertSlots rows.*1) (fun db =>
    if bool_decide (NoDup rows.*1 /\ Forall (fun i => slots db !! i = None) rows.*1)
    then (Ok (), setSlots db (foldl (fun m r => <[r.1 := r.2]> m) (slots db) rows))
    else (Throw "Duplicate entry for key PRIMARY", db)).

Record SlotReq := mkSlotReq {
  slotSubjectId : string;
  slotStartTime : option string;
  slotDuration : option Z;
  maxCapacity : option Z;
  slotLocation : option string }.

(** [n || d] on an optional number: [undefined], [null] and 0 give [d]. *)
Definition orElseNum (o : option Z) (d : Z) : Z :=
  match o with Some n => if n =? 0 then d else n | None => d end.

(** [POST /staff/slots] *)
Definition postSlot (env : Env) (data : SlotReq) : M Response :=
  if negb (validateString (slotSubjectId data) 1 36)
  then mret (json (Error "Invalid subject ID") 400)
  else if negb (JS.truthyOpt (slotStartTime data))
  then mret (json (Error "Start time required") 400)
  else
  let slotId := uuid env 0 in
  match toDbTime env (default "" (slotStartTime data)) with
  | None => throw "RangeError: Invalid time value"
  | Some t =>
      insertSlots [(slotId,
        mkSlot (slotSubjectId data) t (orElseNum (slotDuration data) 20)
               (Some (orElseNum (maxCapacity data) 1)) 0
               (sanitizeString (JS.orElse (slotLocation data) "")))];;
      mret (json (SuccessId slotId) 200)
  end.

(** A field of a JSON body as the handler tests it: absent ([undefined]),
    [null], or a value of its type. *)
Inductive Field (A : Type) :=
| Absent
| Null
| Given (a : A).
Arguments Absent {A}.
Arguments Null {A}.
Arguments Given {A} a.

(** [field !== undefined] *)
Definition isGiven {A : Type} (f : Field A) : bool :=
  match f with Absent => false | _ => true end.

Definition isNull {A : Type} (f : Field A) : bool :=
  match f with Null => true | _ => false end.

(** The body of [PUT /staff/slots/:id]. Of [startTime] the handler tests
    the truthiness only: [None] is [undefined] or [null]. *)
Record SlotUpdate := mkSlotUpdate {
  newMaxCapacity : Field Z;
  newStartTime : option string;
  newDuration : Field Z;
  newLocation : Field string;
  newSubjectId : Field string }.

(** The [SET] clauses that [PUT /staff/slots/:id] collects in [updates],
    applied to a row; [t] is the converted [startTime], if one was given.
    A [null] is bound as [NULL]: the column [max_capacity] takes it, while
    [duration] and [subject_id] are declared [NOT NULL] in [setup.ts] and
    the statement that would store it there is refused ([None]). A [null]
    [location] does not reach the statement. *)
Definition applyUpdate (data : SlotUpdate) (t : option string) (s : Slot)
  : option Slot :=
  if isNull (newDuration data) || isNull (newSubjectId data) then None
  else
    Some {| subject_id := match newSubjectId data with
                          | Given x => x
                          | _ => subject_id s
                          end;
            start_time := default (start_time s) t;
            slot_duration := match newDuration data with
                             | Given n => n
                             | _ => slot_duration s
                             end;
            max_capacity := match newMaxCapacity data with
                            | Absent => max_capacity s
                            | Null => None
                            | Given n => Some n
                            end;
            current_bookings := current_bookings s;
            slot_location := match newLocation data with
                             | Given x => sanitizeString x
                             | _ => slot_location s
                             end |}.

(** [updates.length > 0] *)
Definition hasUpdates (data : SlotUpdate) : bool :=
  isGiven (newMaxCapacity data)
  || JS.truthyOpt (newStartTime data)
  || isGiven (newDuration data)
  || isGiven (newLocation data)
  || isGiven (newSubjectId data).

(** [UPDATE slots SET ... WHERE id = ?]; [f] gives the row as updated, or
    [None] when the database refuses the values for it. *)
Definition updateSlot (slotId : string) (f : Slot -> option Slot) : M unit :=
  stmt (UpdateSlot slotId) (fun db =>
    match slots db !! slotId with
    | Some s =>
        match f s with
        | Some s' => (Ok (), setSlots db (<[slotId := s']> (slots db)))
        | None => (Throw "Column cannot be null", db)
        end
    | None => (Ok (), db)
    end).

(** [PUT /staff/slots/:id]. The parameters are computed in the order of
    the source before the statement is sent: the conversion of [startTime]
    may throw, and then [sanitizeString(location)] throws on [null]. *)
Definition putSlot (env : Env) (slotId : string) (data : SlotUpdate) : M Response :=
  if negb (validateString slotId 1 36)
  then mret (json (Error "Invalid slot ID") 400)
  else
  match (if JS.truthyOpt (newStartTime data)
         then Some <$> toDbTime env (default "" (newStartTime data))
         else Some None) with
  | None => throw "RangeError: Invalid time value"
  | Some t =>
      if isNull (newLocation data)
      then throw "TypeError: Cannot read properties of null (reading 'trim')"
      else
      (if hasUpdates data then updateSlot slotId (applyUpdate data t)
       else mret ());;
      mret (json Success 200)
  end.

(** *** Insertion of the generated rows *)

Definition BATCH_SIZE : nat := 50.

(** [slots.slice(i, i + BATCH_SIZE)] for [i = 0, BATCH_SIZE, ...] below
    [slots.length]. *)
Definition batches {A : Type} (slots : list A) : list (list A) :=
  (fun k => take BATCH_SIZE (drop (k * BATCH_SIZE) slots))
    <$> seq 0 ((length slots + BATCH_SIZE - 1) / BATCH_SIZE)%nat.

(** The row with the id that the [n]-th call of [uuid()] gave it. *)
Definition withId (env : Env) (n : nat) (g : GenRow) : string * Slot :=
  (uuid env n,
   mkSlot (g_subject_id g) (g_start_time g) (g_duration g)
          (Some (g_max_capacity g)) (g_current_bookings g) (g_location g)).

Fixpoint insertBatches (bs : list (list (string * Slot))) : M unit :=
  match bs with
  | [] => mret ()
  | batch :: rest => insertSlots batch;; insertBatches rest
  end.

Definition insertGenerated (env : Env) (slots : list GenRow) : M Response :=
  insertBatches (batches (imap (withId env) slots));;
  mret (json (SuccessCount (Z.of_nat (length slots))) 200).

(** [POST /staff/slots/generate]; [None] when a loop of the expander does
    not end within the fuel. *)
Definition postGenerate (fuel : nat) (env : Env) (req : GenerateReq)
  : option (M Response) :=
  match expand fuel req with
  | None => None
  | Some (Return r) => Some (mret r)
  | Some (Continue slots) => Some (insertGenerated env slots)
  end.

(** ** The modelled interface as a transition system *)

Inductive Request :=
| PostBookings (data : BookingReq)
| DeleteBookingById (bookingId : string)
| PostSlot (data : SlotReq)
| PutSlot (slotId : string) (data : SlotUpdate)
| PostGenerate (req : GenerateReq).

Definition handle (fuel : nat) (env : Env) (rq : Request) : option (M Response) :=
  match rq with
  | PostBookings data => Some (postBookings env data)
  | DeleteBookingById bookingId => Some (deleteBooking bookingId)
  | PostSlot data => Some (postSlot env data)
  | PutSlot slotId data => Some (putSlot env slotId data)
  | PostGenerate req => postGenerate fuel env req
  end.

Definition emptyDB : DB := mkDB ∅ [].

(** The states of the database after any sequence of requests, each
    handled to its end before the next one starts. *)
Inductive reachable : DB -> Prop :=
| reachable_empty : reachable emptyDB
| reachable_step db fuel env rq m r db' l :
    reachable db ->
    handle fuel env rq = Some m ->
    onRequest m db = (r, db', l) ->
    reachable db'.

(** ** Properties named by the specification *)

(** [0 <= currentBookings <= maxCapacity] *)
Definition slotInv (s : Slot) : Prop :=
  exists m, max_capacity s = Some m /\ 0 <= current_bookings s <= m.

Definition dbInv (db : DB) : Prop :=
  map_Forall (fun _ s => slotInv s) (slots db).

(** The counter never goes below zero. *)
Definition dbNonNeg (db : DB) : Prop :=
  map_Forall (fun _ s => 0 <= current_bookings s) (slots db).

(** At most one booking per (slot id, requester external id). *)
Definition bookingKey (b : Booking) : string * string :=
  (slot_id b, student_id b).

Definition uniquePairs (db : DB) : Prop :=
  NoDup (bookingKey <$> bookings db).

(** Overlap of the slot that starts at [slotStart] with the lunch interval,
    in the words of the specification. *)
Definition overlapsLunch (duration lunchStart lunchEnd slotStart : Z) : Prop :=
  slotStart < lunchEnd /\ slotStart + duration > lunchStart.

(** The Gregorian calendar in the words of the specification: a year is a
    leap year iff divisible by 4 and not by 100, unless also divisible by
    400. *)
Definition divisibleBy (n y : Z) : bool := y mod n =? 0.

Definition gregorianLeap (y : Z) : bool :=
  divisibleBy 4 y && negb (divisibleBy 100 y) || divisibleBy 400 y.

Definition gregorianDays (y m : Z) : Z :=
  if m =? 2 then (if gregorianLeap y then 29 else 28)
  else if (m =? 4) || (m =? 6) || (m =? 9) || (m =? 11) then 30 else 31.

Definition validDate (d : Date) : Prop :=
  1 <= year d /\ 1 <= month d <= 12 /\ 1 <= day d <= gregorianDays (year d) (month d).

(** The day after a valid date. *)
Definition nextDay (d : Date) : Date :=
  if day d <? gregorianDays (year d) (month d)
  then mkDate (year d) (month d) (day d + 1)
  else if month d <? 12 then mkDate (year d) (month d + 1) 1
  else mkDate (year d + 1) 1 1.

(** The part of Zeller's sum that depends on the year alone. *)
Definition yearTerm (y : Z) : Z :=
  Z.rem y 100 + Z.rem y 100 / 4 + y / 100 / 4 - 2 * (y / 100).

(** What the loop of [addDays] from [(y, m, d + n)] keeps true: the array
    is the table of month lengths with 28 or 29 for February, and the date
    has not moved backwards. *)
Definition addDaysInv (y m d n : Z) (s : AddDaysState) : Prop :=
  (exists feb, (feb = 28 \/ feb = 29) /\ a_daysInMonth s = <[2%nat := feb]> daysInMonth0)
  /\ ((a_year s = y /\ a_month s = m /\ a_day s = d + n)
      \/ (a_year s = y /\ m < a_month s) \/ y < a_year s).

(** A measure that every turn of that loop decreases. *)
Definition addDaysMeasure (s : AddDaysState) : nat :=
  (Z.to_nat (a_day s) + if (a_month s =? 0)%Z then 1 else 0)%nat.

(** A property of every slot row. *)
Definition slotsAll (P : Slot -> Prop) (db : DB) : Prop :=
  map_Forall (fun _ => P) (slots db).

(** ** Fuel that suffices *)

(** Tests of the condition of one window walk when the step is positive. *)
Definition walkFuel (duration startMin endMin : Z) : nat :=
  S (Z.to_nat (endMin - duration - startMin + 1)).

Definition rangeFuel (duration : Z) (range : TimeRange) : nat :=
  match parseTimeToMinutes (startTime range), parseTimeToMinutes (endTime range) with
  | Some startMin, Some endMin => walkFuel duration startMin endMin
  | _, _ => 0
  end.

Definition expandFuel (req : GenerateReq) : nat :=
  foldr Nat.max 0%nat (rangeFuel (duration req) <$> ranges req).

(** The start minutes of the slots of one day: the walk of every window
    with the start minute itself as the row. *)
Definition dayMinutes (fuel : nat) (req : GenerateReq) : option (list Z) :=
  forOf (walkRange id (duration req) (slotInterval req)
           (bool_decide (is_Some (lunchBreak req)))
           (lunchMins req).1 (lunchMins req).2 fuel)
        (ranges req) [].

(** The bookings of a requester for a slot. *)
Definition bookedBy (db : DB) (slotId studentId : string) : list Booking :=
  filter (fun b => slot_id b = slotId /\ student_id b = studentId) (bookings db).

(** The database after the [UPDATE] that sets the counter of a slot. *)
Definition withCurrent (db : DB) (slotId : string) (s : Slot) (n : Z) : DB :=
  setSlots db (<[slotId := setCurrent s n]> (slots db)).

(** The statements of an admission that reaches the [INSERT]. *)
Definition admissionTrace (data : BookingReq) (slot : Slot) (bookingId : string)
  : list Stmt :=
  [SelectBookingOfStudent (slotId data) (sanitizeString (studentId data));
   SelectSlot (slotId data);
   UpdateIncrement (slotId data) (current_bookings slot);
   SelectCurrentBookings (slotId data);
   InsertBooking bookingId].

(** The [INSERT] is refused on a storage fault or a taken primary key. *)
Definition insertRefused (env : Env) (db : DB) : Prop :=
  insertFault env = true \/ uuid env 0 ∈ booking_id <$> bookings db.

(** ** Sample requests *)

(** The recurring scenario of the leap day. *)
Definition leapWeekReq : GenerateReq :=
  {| subjectId := "subject-1"; dates := None;
     startDate := Some "2024-02-26"; endDate := Some "2024-03-02";
     timeRanges := Some [mkRange "09:00" "10:00"];
     reqStartTime := None; reqEndTime := None;
     duration := 20; capacity := 1; days := Some [4]; breakTime := Some 0;
     location := None; lunchBreak := None |}.


(** A lunch window that starts at midnight. *)
Definition midnightLunchReq : GenerateReq :=
  {| subjectId := "subject-1"; dates := Some ["2024-03-01"];
     startDate := None; endDate := None;
     timeRanges := Some [mkRange "00:00" "02:00"];
     reqStartTime := None; reqEndTime := None;
     duration := 30; capacity := 1; days := None; breakTime := Some 0;
     location := None; lunchBreak := Some (mkLunch "00:00" "01:00") |}.

(** No [timeRanges] and none of the old fields: two explicit dates. *)
Definition noWindowsReq : GenerateReq :=
  {| subjectId := "subject-1"; dates := Some ["2024-03-01"; "2024-03-04"];
     startDate := None; endDate := None;
     timeRanges := None; reqStartTime := None; reqEndTime := None;
     duration := 60; capacity := 2; days := None; breakTime := None;
     location := None; lunchBreak := None |}.

(** A well-formed request whose only window is shorter than a slot. *)
Definition shortWindowReq : GenerateReq :=
  {| subjectId := "subject-1"; dates := Some ["2024-03-01"];
     startDate := None; endDate := None;
     timeRanges := Some [mkRange "09:00" "09:10"];
     reqStartTime := None; reqEndTime := None;
     duration := 20; capacity := 1; days := None; breakTime := Some 0;
     location := None; lunchBreak := None |}.

(** A platform that numbers its ids and meets no fault. *)
Definition sampleEnv : Env :=
  {| uuid := fun n => "id-" +:+ JS.ofZ (Z.of_nat n);
     insertFault := false; emailConfigured := false;
     toDbTime := fun s => Some s |}.

(** The request with another [days] filter. *)
Definition setDays (req : GenerateReq) (ds : option (list Z)) : GenerateReq :=
  {| subjectId := subjectId req; dates := dates req;
     startDate := startDate req; endDate := endDate req;
     timeRanges := timeRanges req; reqStartTime := reqStartTime req;
     reqEndTime := reqEndTime req; duration := duration req;
     capacity := capacity req; days := ds; breakTime := breakTime req;
     location := location req; lunchBreak := lunchBreak req |}.

(** A response of the 4xx class. *)
Definition isClientError (r : Response) : Prop := 400 <= status r < 500.

(** Recurring mode with a start date and no end date. *)
Definition oneDayReq : GenerateReq :=
  {| subjectId := "subject-1"; dates := None;
     startDate := Some "2024-02-29"; endDate := None;
     timeRanges := Some [mkRange "09:00" "10:00"];
     reqStartTime := None; reqEndTime := None;
     duration := 30; capacity := 1; days := Some [4]; breakTime := None;
     location := None; lunchBreak := None |}.

(** Explicit dates, one of them not a date, with a filter that names
    Sunday alone; 2024-03-01 is a Friday and 2024-03-04 a Monday. *)
Definition explicitReq : GenerateReq :=
  {| subjectId := "subject-1";
     dates := Some ["2024-03-01"; "next week"; "2024-03-04"];
     startDate := None; endDate := None;
     timeRanges := Some [mkRange "09:00" "10:00"];
     reqStartTime := None; reqEndTime := None;
     duration := 30; capacity := 1; days := Some [0]; breakTime := None;
     location := None; lunchBreak := None |}.

(** The outcome of [POST /staff/slots/generate] on a database. *)
Definition answerGenerate (fuel : nat) (env : Env) (req : GenerateReq) (db : DB)
  : option (Outcome Response * DB * list Stmt) :=
  (fun m => onRequest m db) <$> postGenerate fuel env req.

(** A database with one slot of one seat, and two requesters. *)
Definition oneSeatDB : DB :=
  mkDB {[ "slot-1" := mkSlot "subject-1" "2024-03-01 09:00:00" 20 (Some 1) 0 "" ]} [].

Definition annReq : BookingReq :=
  mkBookingReq "slot-1" "subject-1" "Ann Lee" "s-1001" "ann@example.org" "{}".

Definition bobReq : BookingReq :=
  mkBookingReq "slot-1" "subject-1" "Bob Ray" "s-1002" "bob@example.org" "{}".

(** A platform whose [INSERT] of the booking meets a storage fault. *)
Definition faultyEnv : Env :=
  {| uuid := uuid sampleEnv; insertFault := true; emailConfigured := false;
     toDbTime := toDbTime sampleEnv |}.

(** [oneSeatDB] after the booking of the first requester. *)
Definition annBookedDB : DB :=
  mkDB {[ "slot-1" := mkSlot "subject-1" "2024-03-01 09:00:00" 20 (Some 1) 1 "" ]}
       [bookingRow "id-0" annReq].

(** A slot with two seats, both taken, and the edit that leaves it one. *)
Definition twoTakenDB : DB :=
  mkDB {[ "slot-2" := mkSlot "subject-1" "2024-03-01 10:00:00" 20 (Some 2) 2 "" ]} [].

Definition shrinkUpdate : SlotUpdate :=
  {| newMaxCapacity := Given 1; newStartTime := None; newDuration := Absent;
     newLocation := Absent; newSubjectId := Absent |}.

(** The edit that sends [null] as the capacity. *)
Definition nullCapacityUpdate : SlotUpdate :=
  {| newMaxCapacity := Null; newStartTime := None; newDuration := Absent;
     newLocation := Absent; newSubjectId := Absent |}.

(** The creation of a slot with a negative capacity. *)
Definition negativeSlotReq : SlotReq :=
  {| slotSubjectId := "subject-1"; slotStartTime := Some "2024-03-01T10:00:00Z";
     slotDuration := Some 20; maxCapacity := Some (-1); slotLocation := None |}.

(** ** The rate limiter *)

(** A value of the map [rateLimits]. *)
Record RateRecord := mkRate { count : Z; resetAt : Z }.

(** [isRateLimited(key, maxRequests, windowMs)] at the time [now] that
    [Date.now()] returns; the map is returned with the answer. *)
Definition isRateLimited (now : Z) (key : string) (maxRequests windowMs : Z)
    (rateLimits : gmap string RateRecord) : bool * gmap string RateRecord :=
  match rateLimits !! key with
  | Some record =>
      if resetAt record <? now
      then (false, <[key := mkRate 1 (now + windowMs)]> rateLimits)
      else (maxRequests <? count record + 1,
            <[key := mkRate (count record + 1) (resetAt record)]> rateLimits)
  | None => (false, <[key := mkRate 1 (now + windowMs)]> rateLimits)
  end.

(** One call of the limiter: its time, key and the two bounds. *)
Record Call := mkCall {
  callNow : Z; callKey : string; callMax : Z; callWindow : Z }.

(** The answers to a sequence of calls and the map after them. *)
Fixpoint limitAll (calls : list Call) (rateLimits : gmap string RateRecord)
  : list bool * gmap string RateRecord :=
  match calls with
  | [] => ([], rateLimits)
  | c :: rest =>
      let '(b, rl) := isRateLimited (callNow c) (callKey c) (callMax c)
                        (callWindow c) rateLimits in
      let '(bs, rl') := limitAll rest rl in
      (b :: bs, rl')
  end.

(** The answers given to the calls of one key. *)
Definition answersFor (key : string) (calls : list Call) (answers : list bool)
  : list bool :=
  snd <$> filter (fun p => callKey p.1 = key) (zip calls answers).

(** The answer and the new record of a key as a function of its old
    record. *)
Definition rateStep (now maxRequests windowMs : Z) (o : option RateRecord)
  : bool * RateRecord :=
  match o with
  | Some record =>
      if resetAt record <? now then (false, mkRate 1 (now + windowMs))
      else (maxRequests <? count record + 1,
            mkRate (count record + 1) (resetAt record))
  | None => (false, mkRate 1 (now + windowMs))
  end.

(** ** The CORS origin *)

(** [getCorsOrigin(request, env)]: [originHeader] is the header [Origin]
    of the request ([None] when it is absent) and [ALLOWED_ORIGIN] the
    variable of the environment. *)
Definition getCorsOrigin (originHeader ALLOWED_ORIGIN : option string) : string :=
  let origin := JS.orElse originHeader "" in
  let allowed := JS.orElse ALLOWED_ORIGIN "*" in
  if String.eqb allowed "*" then "*"
  else if bool_decide (origin ∈ JS.split "," allowed) then origin
  else default "" (head (JS.split "," allowed)).

(** ** Shape of the slots of a window *)




(** ** The days of the recurring walk *)

(** The [n] days of the calendar from [d] on, and the day after them. *)
Fixpoint daysFrom (n : nat) (d : Date) : list Date :=
  match n with
  | O => []
  | S k => d :: daysFrom k (nextDay d)
  end.

Fixpoint dayAfter (n : nat) (d : Date) : Date :=
  match n with
  | O => d
  | S k => dayAfter k (nextDay d)
  end.

(** The test of the recurring walk on a date. *)
Definition wantedDate (days : option (list Z)) (d : Date) : bool :=
  dayWanted days (getDayOfWeek (year d) (month d) (day d)).

(** A number that grows from a valid date to the next. *)
Definition dateOrd (d : Date) : Z := 372 * year d + 31 * month d + day d.

(** Tests of the condition of the recurring walk that suffice. *)
Definition datesFuel (start end' : Date) : nat :=
  (Z.to_nat (372 * (year end' - year start + 1)) + 2)%nat.

(** A recurring request whose start date has the month 13. *)
Definition month13Req : GenerateReq :=
  {| subjectId := "math"; dates := None;
     startDate := Some "2024-13-01"; endDate := Some "2025-01-01";
     timeRanges := None; reqStartTime := None; reqEndTime := None;
     duration := 30; capacity := 1; days := None; breakTime := None;
     location := None; lunchBreak := None |}.

(** ** Renderings that are read back *)

(** A string of exactly four, or two, decimal digits. *)
Definition fourDigits (s : string) : bool :=
  match s with
  | String a (String b (String c (String d EmptyString))) =>
      forallb JS.isDigit [a; b; c; d]
  | _ => false
  end.

Definition twoDigits (s : string) : bool :=
  match s with
  | String a (String b EmptyString) => forallb JS.isDigit [a; b]
  | _ => false
  end.

(** At most three characters. *)
Definition atMostThree (s : string) : bool :=
  match s with
  | String _ (String _ (String _ (String _ _))) => false
  | _ => true
  end.

(** ** The rows that the batches leave in the table *)

(** The table after the rows of a multi-row [INSERT] that is accepted. *)
Definition addRows (m : gmap string Slot) (rows : list (string * Slot))
  : gmap string Slot :=
  foldl (fun m r => <[r.1 := r.2]> m) m rows.

(** The rows of a generate request with their ids, in batches. *)
Definition generatedBatches (env : Env) (rows : list GenRow)
  : list (list (string * Slot)) :=
  batches (imap (withId env) rows).

(** The three rows of [leapWeekReq]. *)
Definition leapDayRows : list GenRow :=
  slotRow leapWeekReq "2024-02-29" <$> [540; 560; 580].

(** The ids drawn for [n] rows. *)
Definition drawnIds (env : Env) (n : nat) : list string := uuid env <$> seq 0 n.

(** The database after an admission that is granted. *)
Definition bookedDB (env : Env) (data : BookingReq) (slot : Slot) (db : DB) : DB :=
  setBookings (withCurrent db (slotId data) slot (current_bookings slot + 1))
              (bookings db ++ [bookingRow (uuid env 0) data]).

(** ** Further staff operations on slots and bookings *)

(** [DELETE FROM bookings WHERE slot_id = ?] and then
    [DELETE FROM slots WHERE id = ?] *)
Definition deleteSlotRows (slotId : string) (db : DB) : DB :=
  mkDB (delete slotId (slots db))
       (filter (fun b => slot_id b ≠ slotId) (bookings db)).

(** [DELETE /staff/slots/:id] *)
Definition deleteSlot (slotId : string) (db : DB) : Response * DB :=
  if negb (validateString slotId 1 36)
  then (json (Error "Invalid slot ID") 400, db)
  else (json Success 200, deleteSlotRows slotId db).

(** [POST /staff/slots/bulk-delete]; [None] is a [slotIds] that is not an
    array. The count of the answer is the length of the array. *)
Definition bulkDelete (slotIds : option (list string)) (db : DB) : Response * DB :=
  match slotIds with
  | None => (json (Error "Invalid slot IDs") 400, db)
  | Some ids =>
      (json (SuccessCount (Z.of_nat (length ids))) 200,
       foldl (fun db id => if negb (validateString id 1 36) then db
                           else deleteSlotRows id db) db ids)
  end.

Definition setStatus (b : Booking) (st : string) : Booking :=
  mkBooking (booking_id b) (slot_id b) (booking_subject_id b) (student_name b)
            (student_id b) (student_email b) (custom_answers b) st.

(** [PUT /staff/bookings/:id]; [None] is a [status] that is not a
    string. *)
Definition putBooking (bookingId : string) (st : option string) (db : DB)
  : Response * DB :=
  if negb (validateString bookingId 1 36)
  then (json (Error "Invalid booking ID") 400, db)
  else
    match st with
    | Some st =>
        if negb (validateString st 1 50)
        then (json (Error "Invalid status") 400, db)
        else (json Success 200,
              setBookings db
                ((fun b => if decide (booking_id b = bookingId)
                           then setStatus b (sanitizeString st) else b)
                   <$> bookings db))
    | None => (json (Error "Invalid status") 400, db)
    end.

(** [POST /staff/clear-bookings] *)
Definition clearBookings (db : DB) : Response * DB :=
  (json Success 200, mkDB ((fun s => setCurrent s 0) <$> slots db) []).

Inductive StaffOp :=
| DeleteSlot (slotId : string)
| BulkDelete (slotIds : option (list string))
| PutBooking (bookingId : string) (st : option string)
| ClearBookings.

Definition staffOp (op : StaffOp) (db : DB) : Response * DB :=
  match op with
  | DeleteSlot slotId => deleteSlot slotId db
  | BulkDelete slotIds => bulkDelete slotIds db
  | PutBooking bookingId st => putBooking bookingId st db
  | ClearBookings => clearBookings db
  end.

(** The states of the database after any sequence of requests of the
    modelled interface and of these staff operations, one at a time. *)
Inductive reachableStaff : DB -> Prop :=
| staff_empty : reachableStaff emptyDB
| staff_request db fuel env rq m r db' l :
    reachableStaff db ->
    handle fuel env rq = Some m ->
    onRequest m db = (r, db', l) ->
    reachableStaff db'
| staff_op db op :
    reachableStaff db -> reachableStaff (staffOp op db).2.

(** ** Consistency of the counters with the bookings *)

(** The bookings of a slot. *)
Definition bookingsOf (db : DB) (slotId : string) : list Booking :=
  filter (fun b => slot_id b = slotId) (bookings db).

(** The ids of the bookings are pairwise different, every booking is for
    a slot of the table, and the counter of every slot is the number of
    its bookings. *)
Definition consistent (db : DB) : Prop :=
  NoDup (booking_id <$> bookings db)
  /\ Forall (fun b => is_Some (slots db !! slot_id b)) (bookings db)
  /\ map_Forall (fun i s => current_bookings s
                            = Z.of_nat (length (bookingsOf db i))) (slots db).

(** From [db] to [db'] the bookings are the same, no slot is lost, every
    slot that was there keeps its counter and every new one has none. *)
Definition keepsCounters (db db' : DB) : Prop :=
  bookings db' = bookings db
  /\ (forall i, is_Some (slots db !! i) -> is_Some (slots db' !! i))
  /\ (forall i s', slots db' !! i = Some s' ->
        match slots db !! i with
        | Some s => current_bookings s' = current_bookings s
        | None => current_bookings s' = 0
        end).

(** ** Timestamps on the way to the client *)

(** [str.includes(c)] and [str.endsWith(c)] for a one-character [c]. *)
Fixpoint includes (c : ascii) (s : string) : bool :=
  match s with
  | EmptyString => false
  | String a r => Ascii.eqb a c || includes c r
  end.

Fixpoint endsWith (c : ascii) (s : string) : bool :=
  match s with
  | EmptyString => false
  | String a EmptyString => Ascii.eqb a c
  | String _ r => endsWith c r
  end.

(** [str.replace(a, b)] for one-character strings: the first occurrence
    only. *)
Fixpoint replaceFirst (a b : ascii) (s : string) : string :=
  match s with
  | EmptyString => EmptyString
  | String c r => if Ascii.eqb c a then String b r else String c (replaceFirst a b r)
  end.

(** [toUTCISOString] of [GET /slots/:subjectId] and of [GET /staff/slots]
    on a column value that the driver hands over as a string; [None] is
    [null]. (A value that is a [Date] object is outside the model.) *)
Definition toUTCISOString (dbTime : option string) : option string :=
  match dbTime with
  | None => None
  | Some timeStr =>
      if negb (JS.truthy timeStr) then None
      else if includes "T" timeStr && endsWith "Z" timeStr then Some timeStr
      else if includes "T" timeStr then Some (timeStr +:+ "Z")
      else Some (replaceFirst " " "T" timeStr +:+ "Z")
  end.

(** The copy of [GET /staff/data], whose tests are in another order. *)
Definition toUTCISOString_data (dbTime : option string) : option string :=
  match dbTime with
  | None => None
  | Some timeStr =>
      if negb (JS.truthy timeStr) then None
      else if includes "T" timeStr && negb (endsWith "Z" timeStr)
      then Some (timeStr +:+ "Z")
      else if negb (includes "T" timeStr)
      then Some (replaceFirst " " "T" timeStr +:+ "Z")
      else Some timeStr
  end.

(** The key under which the booking page groups a slot:
    [s.startTime.split('T')[0]]. *)
Definition dateKey (startTime : string) : option string :=
  head (JS.split "T" startTime).

(** The characters of a date or clock string. *)
Definition dateChar (c : ascii) : bool :=
  JS.isDigit c || Ascii.eqb c "-" || Ascii.eqb c ":".

(** ** The dispatch of a request *)

(** [s] without the prefix [p], when it starts with it. *)
Fixpoint stripPrefix (p s : string) : option string :=
  match p, s with
  | EmptyString, _ => Some s
  | String a p', String b s' => if Ascii.eqb a b then stripPrefix p' s' else None
  | String _ _, EmptyString => None
  end.

(** [path.startsWith(p)] *)
Definition startsWith (p path : string) : bool :=
  bool_decide (is_Some (stripPrefix p path)).

(** [path.match(/^p[^/]+$/)] for a literal prefix [p]. *)
Definition matchId (p path : string) : bool :=
  match stripPrefix p path with
  | Some id => JS.truthy id && negb (includes "/" id)
  | None => false
  end.

(** [path.split('/')[n]]; [None] is [undefined]. *)
Definition segment (n : nat) (path : string) : option string :=
  JS.split "/" path !! n.

(** The branch of [onRequest] that answers a request. *)
Inductive Route :=
| Preflight
| LoginLimited
| BookingLimited
| ConfigError
| GetSubjects
| GetSlots (subjectId : option string)
| PostBookingsRoute
| PostLogin
| Unauthorized
| GetStaffData
| PostStaffSubjects
| PostStaffSlots
| PostStaffGenerate
| DeleteStaffBooking (bookingId : option string)
| PutStaffSubject (subjectId : option string)
| DeleteStaffSubject (subjectId : option string)
| GetStaffSlots
| DeleteStaffSlot (slotId : option string)
| PutStaffSlot (slotId : option string)
| PostBulkDelete
| GetStaffUsers
| PostStaffUsers
| PutStaffUser (userId : option string)
| PutStaffBooking (bookingId : option string)
| PostClearBookings
| PostClearPastSlots
| GetStaffLogs
| DeleteStaffUser (userId : option string)
| GetStaffStats
| NotFound.

(** The chain of tests inside the [try] of [onRequest], in the order of
    the source. [secretOk] is [jwtSecret && jwtSecret.length >= 32] and
    [user] tells whether [authCheck()] gave a user, that is whether the
    request carries a token that [verifyJWT] accepts. *)
Definition route (method path : string) (secretOk user : bool) : Route :=
  if negb secretOk then ConfigError
  else if String.eqb method "GET" && String.eqb path "/subjects" then GetSubjects
  else if String.eqb method "GET" && startsWith "/slots/" path
  then GetSlots (segment 2 path)
  else if String.eqb method "POST" && String.eqb path "/bookings" then PostBookingsRoute
  else if String.eqb method "POST" && String.eqb path "/login" then PostLogin
  else if negb user && startsWith "/staff" path then Unauthorized
  else if String.eqb method "GET" && String.eqb path "/staff/data" then GetStaffData
  else if String.eqb method "POST" && String.eqb path "/staff/subjects" then PostStaffSubjects
  else if String.eqb method "POST" && String.eqb path "/staff/slots" then PostStaffSlots
  else if String.eqb method "POST" && String.eqb path "/staff/slots/generate" then PostStaffGenerate
  else if String.eqb method "DELETE" && startsWith "/staff/bookings/" path
  then DeleteStaffBooking (segment 3 path)
  else if String.eqb method "PUT" && matchId "/staff/subjects/" path
  then PutStaffSubject (segment 3 path)
  else if String.eqb method "DELETE" && matchId "/staff/subjects/" path
  then DeleteStaffSubject (segment 3 path)
  else if String.eqb method "GET" && String.eqb path "/staff/slots" then GetStaffSlots
  else if String.eqb method "DELETE" && matchId "/staff/slots/" path
  then DeleteStaffSlot (segment 3 path)
  else if String.eqb method "PUT" && matchId "/staff/slots/" path
  then PutStaffSlot (segment 3 path)
  else if String.eqb method "POST" && String.eqb path "/staff/slots/bulk-delete" then PostBulkDelete
  else if String.eqb method "GET" && String.eqb path "/staff/users" then GetStaffUsers
  else if String.eqb method "POST" && String.eqb path "/staff/users" then PostStaffUsers
  else if String.eqb method "PUT" && matchId "/staff/users/" path
  then PutStaffUser (segment 3 path)
  else if String.eqb method "PUT" && matchId "/staff/bookings/" path
  then PutStaffBooking (segment 3 path)
  else if String.eqb method "POST" && String.eqb path "/staff/clear-bookings" then PostClearBookings
  else if String.eqb method "POST" && String.eqb path "/staff/clear-past-slots" then PostClearPastSlots
  else if String.eqb method "GET" && String.eqb path "/staff/logs" then GetStaffLogs
  else if String.eqb method "DELETE" && matchId "/staff/users/" path
  then DeleteStaffUser (segment 3 path)
  else if String.eqb method "GET" && String.eqb path "/staff/stats" then GetStaffStats
  else NotFound.

(** [onRequest] up to the choice of the branch: the preflight answer, the
    two rate limits, which count the request in [rateLimits], and the
    chain of [route]. *)
Definition dispatch (now : Z) (clientIP method path : string)
    (secretOk user : bool) (rateLimits : gmap string RateRecord)
  : Route * gmap string RateRecord :=
  if String.eqb method "OPTIONS" then (Preflight, rateLimits)
  else
    let '(limited, rateLimits) :=
      if String.eqb path "/login"
      then isRateLimited now ("login:" +:+ clientIP) 5 60000 rateLimits
      else (false, rateLimits) in
    if limited then (LoginLimited, rateLimits)
    else
      let '(limited, rateLimits) :=
        if String.eqb path "/bookings" && String.eqb method "POST"
        then isRateLimited now ("booking:" +:+ clientIP) 10 60000 rateLimits
        else (false, rateLimits) in
      if limited then (BookingLimited, rateLimits)
      else (route method path secretOk user, rateLimits).

(** The branches that read or write staff data. *)
Definition staffRoute (r : Route) : bool :=
  match r with
  | Preflight | LoginLimited | BookingLimited | ConfigError | GetSubjects
  | GetSlots _ | PostBookingsRoute | PostLogin | Unauthorized | NotFound => false
  | _ => true
  end.

(** The id that a branch chosen by a pattern with [[^/]+] hands to its
    handler, with the literal prefix of the pattern. *)
Definition patternId (r : Route) : option (string * option string) :=
  match r with
  | PutStaffSubject i | DeleteStaffSubject i => Some ("/staff/subjects/", i)
  | DeleteStaffSlot i | PutStaffSlot i => Some ("/staff/slots/", i)
  | PutStaffUser i | DeleteStaffUser i => Some ("/staff/users/", i)
  | PutStaffBooking i => Some ("/staff/bookings/", i)
  | _ => None
  end.

(** ** Deletion of a subject *)

(** [DELETE /staff/subjects/:id] on the two modelled tables:
    [DELETE FROM bookings WHERE subject_id = ?] and
    [DELETE FROM slots WHERE subject_id = ?]. (The table [subjects] is not
    part of the modelled state.) *)
Definition deleteSubject (subjectId : string) (db : DB) : Response * DB :=
  if negb (validateString subjectId 1 36)
  then (json (Error "Invalid subject ID") 400, db)
  else (json Success 200,
        mkDB (filter (fun kv : string * Slot => subject_id kv.2 ≠ subjectId)
                     (slots db))
             (filter (fun b => booking_subject_id b ≠ subjectId) (bookings db))).

(** Every booking names the subject of its slot. Nothing in
    [POST /bookings] compares the two. *)
Definition subjectsAgree (db : DB) : Prop :=
  Forall (fun b => forall s, slots db !! slot_id b = Some s ->
                     booking_subject_id b = subject_id s) (bookings db).

(** A booking of [oneSeatDB] made under another subject than that of the
    slot. *)
Definition strayReq : BookingReq :=
  mkBookingReq "slot-1" "subject-2" "Ann Lee" "s-1001" "ann@example.org" "{}".

Definition strayDB : DB :=
  mkDB {[ "slot-1" := mkSlot "subject-1" "2024-03-01 09:00:00" 20 (Some 1) 1 "" ]}
       [bookingRow "id-0" strayReq].


(** ** Requests on which the integers are the numbers of the source *)

(** The numbers of the source are IEEE 754 doubles, and [Number] reads every
    numeric literal of ECMAScript. On a clock string made of two runs of
    decimal digits [JS.Number] is [Number], and on integers of magnitude at
    most [2 ^ 51] the sums, differences and comparisons of the window walk
    are exact in doubles: every value that the walk computes from such
    bounds stays below [2 ^ 53] in magnitude. [exactRequest] selects the
    requests of this kind; the statements that a walk ends are made for
    them. *)
Definition plainDigits (s : string) : bool :=
  JS.truthy s && JS.allChars JS.isDigit s.

Definition exactNum (n : Z) : bool := Z.abs n <=? 2 ^ 51.

Definition exactClock (timeStr : string) : bool :=
  match JS.split ":" timeStr with
  | [h; m] =>
      plainDigits h && plainDigits m
      && exactNum (JS.digitsVal 0 h * 60 + JS.digitsVal 0 m)
  | _ => false
  end.

Definition exactRequest (req : GenerateReq) : bool :=
  forallb (fun range => exactClock (startTime range) && exactClock (endTime range))
          (ranges req)
  && match lunchBreak req with
     | Some lb =>
         if JS.truthy (start lb) && JS.truthy (end_ lb)
         then exactClock (start lb) && exactClock (end_ lb)
         else true
     | None => true
     end
  && exactNum (duration req) && exactNum (slotInterval req).

(** ** The window walk in doubles *)

(** The same loop on the doubles of the source, for the clock strings made
    of two runs of decimal digits below [2 ^ 63]. [ofInt n] is the double
    nearest to the integer [n]; sums and products round to nearest, ties to
    even, as [+] and [*] do. *)
Module Double.

Definition ofInt (n : Z) : PrimFloat.float :=
  PrimFloat.of_uint63 (Uint63.of_Z n).

(** [Number(s)] on a run of decimal digits. *)
Definition Number (s : string) : option PrimFloat.float :=
  if plainDigits s && (JS.digitsVal 0 s <? 2 ^ 63)
  then Some (ofInt (JS.digitsVal 0 s)) else None.

(** [const [h, m] = timeStr.split(':').map(Number); return h * 60 + m] *)
Definition parseTimeToMinutes (timeStr : string) : option PrimFloat.float :=
  match Number <$> JS.split ":" timeStr with
  | Some h :: Some m :: _ =>
      Some (PrimFloat.add (PrimFloat.mul h (ofInt 60)) m)
  | _ => None
  end.

(** Truthiness of a number: 0, -0 and [NaN] are falsy. *)
Definition truthyNum (x : PrimFloat.float) : bool :=
  negb (PrimFloat.eqb x PrimFloat.zero) && negb (PrimFloat.is_nan x).

Section Walk.
Context {A : Type}.
Variable emit : PrimFloat.float -> A.
Variables duration slotInterval : PrimFloat.float.
Variable lunchBreak : bool.
Variables lunchStartMin lunchEndMin : PrimFloat.float.
Variable endMin : PrimFloat.float.

Definition lunchSkip (currMin slotEndMin : PrimFloat.float) : bool :=
  lunchBreak && truthyNum lunchStartMin && truthyNum lunchEndMin
  && PrimFloat.ltb currMin lunchEndMin && PrimFloat.ltb lunchStartMin slotEndMin.

Definition walk_cond (st : PrimFloat.float * list A) : bool :=
  PrimFloat.leb (PrimFloat.add st.1 duration) endMin.

Definition walk_body (st : PrimFloat.float * list A)
  : option (PrimFloat.float * list A) :=
  let currMin := st.1 in
  let slotEndMin := PrimFloat.add currMin duration in
  if lunchSkip currMin slotEndMin then Some (lunchEndMin, st.2)
  else Some (PrimFloat.add currMin slotInterval, (st.2 ++ [emit currMin])%list).

Definition walk (fuel : nat) (startMin : PrimFloat.float) (slots : list A)
  : option (list A) :=
  snd <$> loop walk_cond walk_body fuel (startMin, slots).

End Walk.

(** The start minutes of one window of a request without a lunch break:
    [lunchStartMin] and [lunchEndMin] are 0. [None] on a clock string
    outside the two runs of digits. *)
Definition windowMinutes (fuel : nat) (req : GenerateReq) (range : TimeRange)
  : option (option (list PrimFloat.float)) :=
  match parseTimeToMinutes (startTime range), parseTimeToMinutes (endTime range) with
  | Some startMin, Some endMin =>
      Some (walk (fun currMin => currMin) (ofInt (duration req))
              (ofInt (slotInterval req)) (bool_decide (is_Some (lunchBreak req)))
              PrimFloat.zero PrimFloat.zero endMin fuel startMin [])
  | _, _ => None
  end.

End Double.


(** ** Handlers that run at the same time *)

(** A handler sends its statements one by one and waits for each answer.
    The source opens no transaction, and the table [bookings] has no unique
    index on (slot id, requester id): between two statements of a handler
    the statements of another request can reach the database. [Prog] is a
    handler cut at its statements: [Await m k h] sends the statement [m]
    and goes on with [k] on its rows, or with [h] on the error it
    throws. *)
Inductive Prog : Type :=
| Answer (r : Response)
| Raise (e : string)
| Await (X : Type) (m : M X) (k : X -> Prog) (h : string -> Prog).

Arguments Await {X} m k h.

(** A handler that runs from its first statement to its answer without
    another one in between. *)
Fixpoint runProg (p : Prog) : M Response :=
  match p with
  | Answer r => mret r
  | Raise e => throw e
  | Await m k h => fun db =>
      match m db with
      | (Ok x, db', l) =>
          let '(r, db'', l') := runProg (k x) db' in (r, db'', (l ++ l')%list)
      | (Throw e, db', l) =>
          let '(r, db'', l') := runProg (h e) db' in (r, db'', (l ++ l')%list)
      end
  end.

(** The next statement of a handler; a handler that has answered stays as
    it is. *)
Definition stepProg (p : Prog) (db : DB) : Prog * DB :=
  match p with
  | Await m k h =>
      match m db with
      | (Ok x, db', _) => (k x, db')
      | (Throw e, db', _) => (h e, db')
      end
  | _ => (p, db)
  end.

(** [n] statements of one handler. *)
Definition stepsProg (n : nat) (p : Prog) (db : DB) : Prog * DB :=
  Nat.iter n (fun st => stepProg st.1 st.2) (p, db).

(** The outcome of a handler that has no statement left. *)
Definition finalOf (p : Prog) : option (Outcome Response) :=
  match p with
  | Answer r => Some (Ok r)
  | Raise e => Some (Throw e)
  | Await _ _ _ => None
  end.

(** Two handlers on one database. The schedule tells, statement by
    statement, which of the two is served: [true] the first, [false] the
    second. *)
Fixpoint interleave (schedule : list bool) (p q : Prog) (db : DB)
  : Prog * Prog * DB :=
  match schedule with
  | [] => (p, q, db)
  | true :: rest => let '(p', db') := stepProg p db in interleave rest p' q db'
  | false :: rest => let '(q', db') := stepProg q db in interleave rest p q' db'
  end.

(** [POST /bookings] statement by statement. *)
Definition postBookingsProg (env : Env) (data : BookingReq) : Prog :=
  match validateBooking data with
  | Some r => Answer r
  | None =>
    let studentId := sanitizeString (studentId data) in
    Await (selectBookingOfStudent (slotId data) studentId) (fun existingRows =>
    if (0 <? length existingRows)%nat
    then Answer (json (Error "You have already booked this slot") 400)
    else
    Await (selectSlot (slotId data)) (fun slot =>
    match slot with
    | None => Answer (json (Error "Slot no longer exists") 400)
    | Some slot =>
      if default 0 (max_capacity slot) <=? current_bookings slot
      then Answer (json (Error "Sorry, this slot is fully booked!") 409)
      else
      Await (updateIncrement (slotId data) (current_bookings slot)) (fun _ =>
      Await (selectCurrentBookings (slotId data)) (fun updatedSlot =>
      if match updatedSlot with
         | None => true
         | Some n => n <=? current_bookings slot
         end
      then Answer (json (Error "Sorry, this slot just got fully booked!") 409)
      else
      let bookingId := uuid env 0 in
      Await (insertBooking env (bookingRow bookingId data))
        (fun _ =>
           if emailConfigured env
           then Await (selectSlotDetails (slotId data))
                  (fun _ => Answer (json (SuccessBooking bookingId) 200)) Raise
           else Answer (json (SuccessBooking bookingId) 200))
        (fun insertError =>
           Await (updateDecrement (slotId data))
             (fun _ => Raise insertError) Raise))
      Raise) Raise
    end) Raise) Raise
  end.

(** The platform of a second request: its [uuid()] gives another id. *)
Definition secondEnv : Env :=
  {| uuid := fun n => "id-" +:+ JS.ofZ (Z.of_nat n + 1);
     insertFault := false; emailConfigured := false;
     toDbTime := fun s => Some s |}.

(** A slot with two seats, none taken, and the same slot after two
    admissions of the same requester. *)
Definition twoSeatDB : DB :=
  mkDB {[ "slot-1" := mkSlot "subject-1" "2024-03-01 09:00:00" 20 (Some 2) 0 "" ]} [].

Definition twiceBookedDB : DB :=
  mkDB {[ "slot-1" := mkSlot "subject-1" "2024-03-01 09:00:00" 20 (Some 2) 2 "" ]}
       [bookingRow "id-0" annReq; bookingRow "id-1" annReq].

(** Both requests pass the duplicate check before either stores its row. *)
Definition bothCheckFirst : list bool :=
  [true; false; true; true; true; true; false; false; false; false].

(** The first request is answered before the second starts. *)
Definition oneAfterTheOther : list bool :=
  [true; true; true; true; true; false; false; false; false; false].

(** * Properties *)

(** ** Loops *)

Section LoopFacts.
Context {St : Type}.
Variable cond : St -> bool.

(** More fuel, and a body that has more fuel, do not change a result. *)
Lemma loop_mono (body body' : St -> option St) :
  (forall s s', body s = Some s' -> body' s = Some s') ->
  forall n n' s r, (n <= n')%nat ->
    loop cond body n s = Some r -> loop cond body' n' s = Some r.
Proof.
  intros Hb n. induction n as [|n IH]; intros n' s r Hle H; [discriminate|].
  destruct n' as [|n']; [lia|]. simpl in *.
  destruct (cond s); [|exact H].
  destruct (body s) as [s'|] eqn:E; [|discriminate].
  rewrite (Hb _ _ E). apply IH; [lia|exact H].
Qed.

(** A measure that decreases at every turn bounds the number of turns. *)
Lemma loop_terminates (body : St -> option St) (P : St -> Prop) (mu : St -> nat) :
  (forall s, P s -> cond s = true ->
     exists s', body s = Some s' /\ P s' /\ (mu s' < mu s)%nat) ->
  forall n s, P s -> (mu s < n)%nat ->
    exists r, loop cond body n s = Some r /\ P r /\ cond r = false.
Proof.
  intros Hstep n. induction n as [|n IH]; intros s HP Hlt; [lia|].
  simpl. destruct (cond s) eqn:Ec.
  - destruct (Hstep s HP Ec) as (s' & -> & HP' & Hmu).
    apply IH; [exact HP'|lia].
  - exists s. auto.
Qed.


(** A loop whose condition stays true never ends. *)
Lemma loop_diverges (body : St -> option St) (P : St -> Prop) :
  (forall s, P s -> cond s = true /\ forall s', body s = Some s' -> P s') ->
  forall n s, P s -> loop cond body n s = None.
Proof.
  intros Hstep n. induction n as [|n IH]; intros s HP; [reflexivity|].
  simpl. destruct (Hstep s HP) as [-> Hb].
  destruct (body s) as [s'|] eqn:E; [|reflexivity]. apply IH. auto.
Qed.

End LoopFacts.

Lemma forOf_mono {A B : Type} (f f' : A -> B -> option B) :
  (forall x acc r, f x acc = Some r -> f' x acc = Some r) ->
  forall xs acc r, forOf f xs acc = Some r -> forOf f' xs acc = Some r.
Proof.
  intros Hf xs. induction xs as [|x xs IH]; intros acc r H; [exact H|].
  simpl in *. destruct (f x acc) as [acc'|] eqn:E; [|discriminate].
  rewrite (Hf _ _ _ E). auto.
Qed.

(** ** The walk over a time window *)

Section WalkFacts.
Context {A : Type}.
Variable emit : Z -> A.
Variables duration slotInterval : Z.
Variable lunchBreak : bool.
Variables lunchStartMin lunchEndMin : option Z.
Variable endMin : Z.

Local Abbreviation cond := (walk_cond (A:=A) duration endMin).
Local Abbreviation body :=
  (walk_body emit duration slotInterval lunchBreak lunchStartMin lunchEndMin).
Local Abbreviation walk' :=
  (walk emit duration slotInterval lunchBreak lunchStartMin lunchEndMin endMin).

Lemma lunchSkip_Some currMin slotEndMin le :
  lunchSkip lunchBreak lunchStartMin lunchEndMin currMin slotEndMin = Some le ->
  lunchEndMin = Some le /\ currMin < le /\ lunchBreak = true /\ le <> 0 /\
  exists ls, lunchStartMin = Some ls /\ ls <> 0 /\ ls < slotEndMin.
Proof.
  unfold lunchSkip. destruct lunchStartMin as [ls|], lunchEndMin as [le'|]; try discriminate.
  destruct lunchBreak; simpl; [|discriminate].
  destruct (ls =? 0) eqn:E1, (le' =? 0) eqn:E2; simpl; try discriminate.
  destruct (currMin <? le') eqn:E3, (ls <? slotEndMin) eqn:E4; simpl; try discriminate.
  intros [= <-]. repeat split; try lia. exists ls. repeat split; lia.
Qed.

(** With a positive step every turn of the loop moves [currMin] forward. *)
Lemma walk_body_advances st :
  0 < slotInterval -> exists st', body st = Some st' /\ st.1 < st'.1.
Proof.
  intros Hpos. unfold walk_body.
  destruct (lunchSkip _ _ _ _ _) as [le|] eqn:E.
  - apply lunchSkip_Some in E as (_ & Hlt & _). eexists; split; [reflexivity|]. simpl. lia.
  - eexists; split; [reflexivity|]. simpl. lia.
Qed.

Lemma walk_terminates fuel startMin slots :
  0 < slotInterval ->
  (walkFuel duration startMin endMin <= fuel)%nat ->
  is_Some (walk' fuel startMin slots).
Proof.
  intros Hpos Hfuel. unfold walk.
  destruct (loop_terminates cond body (fun _ => True)
              (fun st => Z.to_nat (endMin - duration - st.1 + 1))) with
    (n := fuel) (s := (startMin, slots)) as (r & -> & _); [| trivial | |].
  - intros st _ Hc. destruct (walk_body_advances st Hpos) as (st' & E & Hlt).
    exists st'. repeat split; [exact E|].
    unfold walk_cond in Hc. lia.
  - unfold walkFuel in Hfuel. simpl. lia.
  - simpl. eauto.
Qed.

Lemma walk_mono fuel fuel' startMin slots r :
  (fuel <= fuel')%nat ->
  walk' fuel startMin slots = Some r -> walk' fuel' startMin slots = Some r.
Proof.
  unfold walk. intros Hle H.
  destruct (loop cond body fuel (startMin, slots)) as [st|] eqn:E; [|discriminate].
  erewrite loop_mono; [exact H| |exact Hle|exact E]. auto.
Qed.


(** The rows of a walk are the images of its start minutes. *)
Lemma loop_emit n c slots ms :
  loop cond body n (c, (slots ++ (emit <$> ms))%list)
  = (fun st : Z * list Z => (st.1, (slots ++ (emit <$> st.2))%list))
      <$> loop (walk_cond duration endMin)
               (walk_body id duration slotInterval lunchBreak lunchStartMin lunchEndMin)
               n (c, ms).
Proof.
  revert c ms. induction n as [|n IH]; intros c ms; [reflexivity|].
  simpl. unfold walk_cond at 1 3. simpl.
  destruct (c + duration <=? endMin); [|reflexivity].
  unfold walk_body at 1 3. simpl.
  destruct (lunchSkip _ _ _ _ _) as [le|]; [apply IH|].
  rewrite <- IH. by rewrite fmap_app, app_assoc.
Qed.

Lemma walk_emit fuel startMin slots :
  walk' fuel startMin slots
  = (fun ms => (slots ++ (emit <$> ms))%list)
      <$> walk id duration slotInterval lunchBreak lunchStartMin lunchEndMin
               endMin fuel startMin [].
Proof.
  unfold walk. pose proof (loop_emit fuel startMin slots []) as H.
  simpl in H. rewrite app_nil_r in H. rewrite H.
  by destruct (loop _ _ fuel (startMin, [])).
Qed.

End WalkFacts.


(** When the candidate overlaps such a window, the next candidate starts at
    the end of the window and no row is added. *)
Lemma walk_resumes_at_lunch_end {A : Type} (emit : Z -> A)
    duration slotInterval ls le c (slots : list A) :
  ls <> 0 -> le <> 0 -> overlapsLunch duration ls le c ->
  walk_body emit duration slotInterval true (Some ls) (Some le) (c, slots)
    = Some (le, slots).
Proof.
  intros Hls Hle [H1 H2]. unfold walk_body, lunchSkip. simpl.
  destruct (ls =? 0) eqn:E1; [lia|]. destruct (le =? 0) eqn:E2; [lia|]. simpl.
  destruct (c <? le) eqn:E3; [|lia]. destruct (ls <? c + duration) eqn:E4; [|lia].
  reflexivity.
Qed.

(** ** The expander over ranges and dates *)

Lemma forOf_is_Some {A B : Type} (f : A -> B -> option B) xs :
  (forall x acc, x ∈ xs -> is_Some (f x acc)) ->
  forall acc, is_Some (forOf f xs acc).
Proof.
  induction xs as [|x xs IH]; intros Hf acc; simpl; [eauto|].
  destruct (Hf x acc) as [acc' ->]; [left|].
  apply IH. intros y b Hy. apply Hf. by right.
Qed.

Section RangeFacts.
Context {A : Type}.
Variable emit : Z -> A.
Variables duration slotInterval : Z.
Variable lunchBreak : bool.
Variables lunchStartMin lunchEndMin : option Z.

Local Abbreviation walkRange' :=
  (walkRange emit duration slotInterval lunchBreak lunchStartMin lunchEndMin).
Local Abbreviation minutesRange :=
  (walkRange id duration slotInterval lunchBreak lunchStartMin lunchEndMin).

Lemma walkRange_terminates fuel range slots :
  0 < slotInterval -> (rangeFuel duration range <= fuel)%nat ->
  is_Some (walkRange' fuel range slots).
Proof.
  unfold walkRange, rangeFuel. intros Hpos Hfuel.
  destruct (parseTimeToMinutes (startTime range)), (parseTimeToMinutes (endTime range));
    eauto using walk_terminates.
Qed.

Lemma walkRange_mono fuel fuel' range slots r :
  (fuel <= fuel')%nat ->
  walkRange' fuel range slots = Some r -> walkRange' fuel' range slots = Some r.
Proof.
  unfold walkRange. intros Hle.
  destruct (parseTimeToMinutes (startTime range)), (parseTimeToMinutes (endTime range));
    eauto using walk_mono.
Qed.

Lemma walkRange_emit fuel range slots :
  walkRange' fuel range slots
  = (fun ms => (slots ++ (emit <$> ms))%list) <$> minutesRange fuel range [].
Proof.
  unfold walkRange.
  destruct (parseTimeToMinutes (startTime range)), (parseTimeToMinutes (endTime range));
    simpl; rewrite ?app_nil_r; try reflexivity.
  rewrite walk_emit. symmetry. rewrite walk_emit.
  destruct (walk id _ _ _ _ _ _ _ _ []); simpl; [|reflexivity].
  by rewrite list_fmap_id.
Qed.

End RangeFacts.

Lemma forRanges_emit {A : Type} (emit : Z -> A) duration slotInterval lunchBreak
    lunchStartMin lunchEndMin fuel rs (slots : list A) acc :
  forOf (walkRange emit duration slotInterval lunchBreak lunchStartMin lunchEndMin fuel)
        rs (slots ++ (emit <$> acc))%list
  = (fun ms => (slots ++ (emit <$> ms))%list)
      <$> forOf (walkRange id duration slotInterval lunchBreak lunchStartMin lunchEndMin fuel)
                rs acc.
Proof.
  revert acc. induction rs as [|r rs IH]; intros acc; [reflexivity|].
  simpl. rewrite walkRange_emit. rewrite (walkRange_emit id _ _ _ _ _ fuel r acc).
  destruct (walkRange id _ _ _ _ _ fuel r []) as [ms|]; simpl; [|reflexivity].
  rewrite list_fmap_id, <- IH. by rewrite fmap_app, app_assoc.
Qed.

(** The rows are, date after date, the rows of the start minutes of one
    day. *)
Lemma expandDates_dayMinutes fuel req targetDateStrs :
  expandDates fuel req targetDateStrs
  = match targetDateStrs with
    | [] => Some []
    | _ => (fun mins => targetDateStrs ≫= (fun d => slotRow req d <$> mins))
             <$> dayMinutes fuel req
    end.
Proof.
  unfold expandDates, dayMinutes.
  set (f := fun dateStr => forOf (walkRange (slotRow req dateStr) _ _ _ _ _ fuel) (ranges req)).
  set (day := forOf _ (ranges req) []).
  assert (Hf : forall d acc,
    f d acc = (fun mins => (acc ++ (slotRow req d <$> mins))%list) <$> day).
  { intros d acc. unfold f, day.
    pose proof (forRanges_emit (slotRow req d) (duration req) (slotInterval req)
      (bool_decide (is_Some (lunchBreak req))) (lunchMins req).1 (lunchMins req).2
      fuel (ranges req) acc []) as H.
    simpl in H. rewrite app_nil_r in H. exact H. }
  assert (Hall : forall ds acc, forOf f ds acc
    = match ds with
      | [] => Some acc
      | _ => (fun mins => (acc ++ (ds ≫= (fun d => slotRow req d <$> mins)))%list) <$> day
      end).
  { intros ds. induction ds as [|d ds IH]; intros acc; [reflexivity|].
    simpl. rewrite Hf. destruct day as [mins|]; simpl; [|reflexivity].
    rewrite IH. destruct ds; simpl; [by rewrite app_nil_r|].
    by rewrite <- !app_assoc. }
  rewrite Hall. destruct targetDateStrs; [reflexivity|].
  by destruct day.
Qed.

Lemma rangeFuel_le req range :
  range ∈ ranges req -> (rangeFuel (duration req) range <= expandFuel req)%nat.
Proof.
  unfold expandFuel. induction (ranges req) as [|r rs IH]; intros H.
  - by apply elem_of_nil in H.
  - cbn [fmap list_fmap foldr].
    apply elem_of_cons in H as [->|H]; [lia|]. specialize (IH H). lia.
Qed.

Lemma dayMinutes_terminates fuel req :
  0 < slotInterval req -> (expandFuel req <= fuel)%nat ->
  is_Some (dayMinutes fuel req).
Proof.
  intros Hpos Hfuel. unfold dayMinutes. apply forOf_is_Some.
  intros r acc Hr. apply walkRange_terminates; [exact Hpos|].
  pose proof (rangeFuel_le req r Hr). lia.
Qed.

Lemma dayMinutes_mono fuel fuel' req r :
  (fuel <= fuel')%nat ->
  dayMinutes fuel req = Some r -> dayMinutes fuel' req = Some r.
Proof.
  intros Hle. unfold dayMinutes. apply forOf_mono.
  intros x acc r'. by apply walkRange_mono.
Qed.

Lemma expandDates_mono fuel fuel' req ds r :
  (fuel <= fuel')%nat ->
  expandDates fuel req ds = Some r -> expandDates fuel' req ds = Some r.
Proof.
  intros Hle. rewrite !expandDates_dayMinutes. destruct ds; [auto|].
  destruct (dayMinutes fuel req) as [mins|] eqn:E; [|discriminate].
  by rewrite (dayMinutes_mono _ _ _ _ Hle E).
Qed.


(** ** Termination of the window walk *)



(** On a window of the working day the walk in doubles makes the slots of
    the walk in integers. *)
Lemma double_walk_agrees_on_a_working_day :
  Double.windowMinutes 8 leapWeekReq (mkRange "09:00" "10:00")
  = Some (Some (Double.ofInt <$> [540; 560; 580]))
  /\ dayMinutes 8 leapWeekReq = Some [540; 560; 580].
Proof. split; reflexivity. Qed.


(** ** More fuel does not change what the expander returns *)

Lemma addDays_mono fuel fuel' y m d n r :
  (fuel <= fuel')%nat ->
  addDays fuel y m d n = Some r -> addDays fuel' y m d n = Some r.
Proof.
  unfold addDays. intros Hle.
  destruct (loop _ _ fuel _) as [s|] eqn:E; [|discriminate].
  by erewrite loop_mono; [| |exact Hle|exact E].
Qed.

Lemma walkDates_mono fuel fuel' days start end' r :
  (fuel <= fuel')%nat ->
  walkDates fuel days start end' = Some r ->
  walkDates fuel' days start end' = Some r.
Proof.
  unfold walkDates. intros Hle.
  destruct (loop _ _ fuel _) as [st|] eqn:E; [|discriminate].
  erewrite loop_mono; [done| |exact Hle|exact E].
  intros [c l] s'. unfold dateWalk_body. simpl.
  destruct (addDays fuel _ _ _ 1) as [next|] eqn:Ea; [|discriminate].
  by rewrite (addDays_mono _ _ _ _ _ _ _ Hle Ea).
Qed.

Lemma resolveDates_mono fuel fuel' req r :
  (fuel <= fuel')%nat ->
  resolveDates fuel req = Some r -> resolveDates fuel' req = Some r.
Proof.
  unfold resolveDates. intros Hle.
  assert (Hw : forall start end',
    Continue <$> walkDates fuel (days req) start end' = Some r ->
    Continue <$> walkDates fuel' (days req) start end' = Some r).
  { intros start end'.
    destruct (walkDates fuel _ start end') as [l|] eqn:E; [|discriminate].
    by rewrite (walkDates_mono _ _ _ _ _ _ Hle E). }
  destruct (dates req) as [[|d ds]|]; try done;
    (destruct (startDate req) as [sd|]; [|done]);
    (destruct (JS.truthy sd); [|done]);
    (destruct (parseDateStr sd) as [start|];
       [|by destruct (endDate req) as [ed|]; [destruct (JS.truthy ed)|]]);
    (destruct (endDate req) as [ed|]; [destruct (JS.truthy ed); [destruct (parseDateStr ed)|]|]);
    auto.
Qed.

Lemma expand_mono fuel fuel' req r :
  (fuel <= fuel')%nat ->
  expand fuel req = Some r -> expand fuel' req = Some r.
Proof.
  unfold expand. intros Hle.
  destruct (negb _); [done|].
  destruct (resolveDates fuel req) as [st|] eqn:E; [|discriminate].
  rewrite (resolveDates_mono _ _ _ _ Hle E).
  destruct st as [[|d ds]|]; try done.
  destruct (expandDates fuel req (d :: ds)) as [rows|] eqn:Ee; [|discriminate].
  by rewrite (expandDates_mono _ _ _ _ _ Hle Ee).
Qed.

(** ** Lunch exclusion *)


(** C5. A lunch window that starts at 00:00 is not excluded: its start
    minute is 0, which the guard of the walk reads as "no lunch break". For
    [midnightLunchReq] (lunch 00:00-01:00, window 00:00-02:00, slots of 30
    minutes) the expander returns the four slots from 00:00 to 01:30, and
    the first two overlap the lunch interval. *)
Theorem lunch_from_midnight_not_excluded fuel :
  (5 <= fuel)%nat ->
  lunchMins midnightLunchReq = (Some 0, Some 60)
  /\ dayMinutes fuel midnightLunchReq = Some [0; 30; 60; 90]
  /\ overlapsLunch 30 0 60 0 /\ overlapsLunch 30 0 60 30
  /\ expand fuel midnightLunchReq
     = Some (Continue (slotRow midnightLunchReq "2024-03-01" <$> [0; 30; 60; 90]))
  /\ g_start_time <$> (slotRow midnightLunchReq "2024-03-01" <$> [0; 30; 60; 90])
     = ["2024-03-01 00:00:00"; "2024-03-01 00:30:00";
        "2024-03-01 01:00:00"; "2024-03-01 01:30:00"].
Proof.
  intros Hfuel. repeat split; try (unfold overlapsLunch; lia).
  - by apply (dayMinutes_mono 5).
  - by apply (expand_mono 5).
Qed.

Lemma lunch_from_midnight_not_excluded_witness :
  dayMinutes 5 midnightLunchReq = Some [0; 30; 60; 90].
Proof.
  apply (lunch_from_midnight_not_excluded 5). lia.
Defined.

(** ** Weekdays and the day after *)

(** The source's test of a leap year is the Gregorian rule. *)
Lemma isLeapYear_gregorian y : isLeapYear y = gregorianLeap y.
Proof.
  unfold isLeapYear, gregorianLeap, divisibleBy.
  assert (H : forall n, 0 < n -> (Z.rem y n =? 0) = (y mod n =? 0)).
  { intros n Hn. destruct (Z.rem y n =? 0) eqn:E1, (y mod n =? 0) eqn:E2; try reflexivity;
      exfalso; Z.to_euclidean_division_equations; nia. }
  by rewrite !H by lia.
Qed.

(** The weekday is Zeller's sum, shifted by 6, modulo 7: the two
    remainders of the source never meet a negative sum. January and
    February count as months 13 and 14 of the year before. *)
Lemma getDayOfWeek_janfeb y m d :
  m < 3 ->
  getDayOfWeek y m d = (d + (13 * (m + 12 + 1)) / 5 + yearTerm (y - 1) + 6) mod 7.
Proof.
  intros Hm. unfold getDayOfWeek, yearTerm. destruct (Z.ltb_spec m 3); [|lia].
  cbv beta iota zeta. Z.to_euclidean_division_equations; lia.
Qed.

Lemma getDayOfWeek_march y m d :
  3 <= m ->
  getDayOfWeek y m d = (d + (13 * (m + 1)) / 5 + yearTerm y + 6) mod 7.
Proof.
  intros Hm. unfold getDayOfWeek, yearTerm. destruct (Z.ltb_spec m 3); [lia|].
  cbv beta iota zeta. Z.to_euclidean_division_equations; lia.
Qed.

Lemma getDayOfWeek_range y m d : 0 <= getDayOfWeek y m d < 7.
Proof.
  destruct (Z.ltb_spec m 3);
    [rewrite getDayOfWeek_janfeb by lia|rewrite getDayOfWeek_march by lia];
    apply Z.mod_pos_bound; lia.
Qed.

(** From one year to the next the year term grows by 1, and by 2 into a
    leap year, modulo 7. *)
Lemma yearTerm_step y :
  1 <= y ->
  exists q, yearTerm y
    = yearTerm (y - 1) + 7 * q + (if gregorianLeap y then 2 else 1).
Proof.
  intros Hy. unfold yearTerm, gregorianLeap, divisibleBy.
  assert (Hr : forall Y, 0 <= Y -> Z.rem Y 100 = Y mod 100)
    by (intros; apply Z.rem_mod_nonneg; lia).
  rewrite !Hr by lia.
  set (k := y mod 100). set (j := y / 100).
  assert (Hk : 0 <= k < 100) by (apply Z.mod_pos_bound; lia).
  assert (Hyj : y = 100 * j + k) by (apply Z.div_mod; lia).
  assert (H4 : y mod 4 = k mod 4).
  { rewrite Hyj. replace (100 * j + k) with (k + (25 * j) * 4) by lia.
    apply Z.mod_add. lia. }
  assert (H400 : (y mod 400 =? 0) = (k =? 0) && (j mod 4 =? 0)).
  { destruct (Z.eqb_spec (y mod 400) 0), (Z.eqb_spec k 0), (Z.eqb_spec (j mod 4) 0);
      simpl; try reflexivity; exfalso; Z.to_euclidean_division_equations; lia. }
  rewrite H4, H400.
  destruct (Z.eqb_spec k 0) as [E|E].
  - assert (H99 : (y - 1) mod 100 = 99) by (Z.to_euclidean_division_equations; lia).
    assert (Hj : (y - 1) / 100 = j - 1) by (Z.to_euclidean_division_equations; lia).
    rewrite H99, Hj, E. change (0 mod 4) with 0. change (0 =? 0) with true.
    cbn [andb orb negb].
    exists (-18). destruct (Z.eqb_spec (j mod 4) 0);
      Z.to_euclidean_division_equations; lia.
  - assert (Hk1 : (y - 1) mod 100 = k - 1) by (Z.to_euclidean_division_equations; lia).
    assert (Hj : (y - 1) / 100 = j) by (Z.to_euclidean_division_equations; lia).
    rewrite Hk1, Hj. rewrite andb_false_l, orb_false_r, andb_true_r.
    exists 0. destruct (Z.eqb_spec (k mod 4) 0);
      Z.to_euclidean_division_equations; lia.
Qed.

Lemma month_cases m :
  1 <= m <= 12 ->
  m = 1 \/ m = 2 \/ m = 3 \/ m = 4 \/ m = 5 \/ m = 6 \/ m = 7 \/ m = 8 \/
  m = 9 \/ m = 10 \/ m = 11 \/ m = 12.
Proof. lia. Qed.

Ltac each_month m H :=
  destruct (month_cases m H) as [?|[?|[?|[?|[?|[?|[?|[?|[?|[?|[?|?]]]]]]]]]]]; subst m.

(** [addDays(y, m, d, 1)] of a valid date is the next day of the Gregorian
    calendar; two tests of the loop condition are enough. *)
Lemma addDays_nextDay fuel dt :
  validDate dt -> (2 <= fuel)%nat ->
  addDays fuel (year dt) (month dt) (day dt) 1 = Some (nextDay dt).
Proof.
  destruct dt as [y m d]. unfold validDate, nextDay. simpl.
  intros (Hy & Hm & Hd) Hfuel.
  destruct fuel as [|[|fuel]]; [lia|lia|].
  unfold addDays. rewrite isLeapYear_gregorian.
  unfold gregorianDays in *.
  each_month m Hm; simpl in Hd |- *;
    destruct (gregorianLeap y) eqn:El; simpl;
    unfold addDays_cond, addDays_body, at_; simpl;
    repeat match goal with
    | |- context [?a <? ?b] => destruct (Z.ltb_spec a b); simpl; try lia
    end; try (repeat f_equal; lia).
Qed.

(** The weekday of the next day is the next weekday. *)
Lemma getDayOfWeek_nextDay dt :
  validDate dt ->
  getDayOfWeek (year (nextDay dt)) (month (nextDay dt)) (day (nextDay dt))
  = (getDayOfWeek (year dt) (month dt) (day dt) + 1) mod 7.
Proof.
  destruct dt as [y m d]. unfold validDate, nextDay. simpl.
  intros (Hy & Hm & Hd). unfold gregorianDays in *.
  destruct (yearTerm_step y Hy) as [q Hq].
  destruct (yearTerm_step (y + 1)) as [q' Hq']; [lia|].
  replace (y + 1 - 1) with y in Hq' by lia.
  each_month m Hm; cbn [Z.eqb Pos.eqb orb] in Hd |- *.
  all: destruct (gregorianLeap y) eqn:El;
    repeat match goal with
    | |- context [?a <? ?b] => destruct (Z.ltb_spec a b)
    end; cbn [year month day];
    repeat match goal with
    | |- context [getDayOfWeek ?a ?b ?c] =>
        first [rewrite (getDayOfWeek_janfeb a b c) by lia
              |rewrite (getDayOfWeek_march a b c) by lia]
    end;
    replace (y + 1 - 1) with y by lia;
    generalize dependent (yearTerm (y - 1)); generalize dependent (yearTerm y);
    generalize dependent (yearTerm (y + 1)); intros;
    Z.to_euclidean_division_equations; lia.
Qed.

(** C6. Weekdays and date roll-over follow the Gregorian calendar: for a
    valid date the weekday lies in 0..6, [addDays] by one day gives the next
    day of the calendar (29 days in February exactly in the years divisible
    by 4 and not by 100, or by 400), and the weekday of the next day is the
    next weekday; 2024-03-03, a Sunday, has weekday 0 and 2024-02-29 has
    weekday 4. The request [leapWeekReq] resolves to the single date
    2024-02-29 and yields exactly three slots, at 09:00, 09:20 and 09:40;
    on an empty database the endpoint answers with the count 3. *)
Theorem recurring_walk_follows_gregorian_calendar :
  (forall dt, validDate dt ->
     0 <= getDayOfWeek (year dt) (month dt) (day dt) < 7
     /\ (forall fuel, (2 <= fuel)%nat ->
          addDays fuel (year dt) (month dt) (day dt) 1 = Some (nextDay dt))
     /\ getDayOfWeek (year (nextDay dt)) (month (nextDay dt)) (day (nextDay dt))
        = (getDayOfWeek (year dt) (month dt) (day dt) + 1) mod 7)
  /\ (forall y, isLeapYear y = gregorianLeap y)
  /\ getDayOfWeek 2024 3 3 = 0
  /\ getDayOfWeek 2024 2 29 = 4
  /\ (forall fuel, (7 <= fuel)%nat ->
       resolveDates fuel leapWeekReq = Some (Continue ["2024-02-29"])
       /\ expand fuel leapWeekReq
          = Some (Continue (slotRow leapWeekReq "2024-02-29" <$> [540; 560; 580])))
  /\ g_start_time <$> (slotRow leapWeekReq "2024-02-29" <$> [540; 560; 580])
     = ["2024-02-29 09:00:00"; "2024-02-29 09:20:00"; "2024-02-29 09:40:00"]
  /\ (fun o => o.1.1) <$> answerGenerate 7 sampleEnv leapWeekReq emptyDB
     = Some (Ok (json (SuccessCount 3) 200)).
Proof.
  split; [|split; [|split; [|split; [|split; [|split]]]]].
  - intros dt Hdt. split; [apply getDayOfWeek_range|]. split.
    + intros fuel Hfuel. by apply addDays_nextDay.
    + by apply getDayOfWeek_nextDay.
  - apply isLeapYear_gregorian.
  - reflexivity.
  - reflexivity.
  - intros fuel Hfuel. split.
    + by apply (resolveDates_mono 7).
    + by apply (expand_mono 7).
  - reflexivity.
  - by vm_compute.
Qed.

Lemma recurring_walk_follows_gregorian_calendar_witness :
  addDays 2 2024 2 28 1 = Some (mkDate 2024 2 29)
  /\ getDayOfWeek 2024 2 29 = (getDayOfWeek 2024 2 28 + 1) mod 7
  /\ resolveDates 7 leapWeekReq = Some (Continue ["2024-02-29"]).
Proof.
  assert (Hv : validDate (mkDate 2024 2 28)) by (vm_compute; intuition discriminate).
  split; [|split].
  - apply (proj1 recurring_walk_follows_gregorian_calendar _ Hv). lia.
  - apply (proj1 recurring_walk_follows_gregorian_calendar _ Hv).
  - apply recurring_walk_follows_gregorian_calendar. lia.
Defined.

(** ** [addDays] ends on every input and moves the date forward *)

Lemma at_daysInMonth feb month dim :
  at_ (<[2%nat := feb]> daysInMonth0) month = Some dim ->
  (month = 0 /\ dim = 0) \/ (month = 2 /\ dim = feb)
  \/ (1 <= month <= 12 /\ 30 <= dim).
Proof.
  unfold at_. destruct (Z.ltb_spec month 0); [discriminate|].
  intros Hl. assert (Hlt : (Z.to_nat month < 13)%nat).
  { apply lookup_lt_Some in Hl. exact Hl. }
  assert (Hm : month = Z.of_nat (Z.to_nat month)) by lia.
  revert Hl Hm. generalize (Z.to_nat month). intros n Hl Hm.
  do 13 (destruct n as [|n]; [simpl in Hl; injection Hl as <-; lia|]).
  simpl in Hlt. lia.
Qed.

Section AddDaysFacts.
Variables y m d n : Z.

Local Abbreviation inv := (addDaysInv y m d n).
Local Abbreviation mu := addDaysMeasure.

Lemma addDays_step s :
  inv s -> addDays_cond s = true ->
  exists s', addDays_body s = Some s' /\ inv s' /\ (mu s' < mu s)%nat.
Proof.
  intros [(feb & Hfeb & Harr) Hord] Hc. unfold addDays_cond in Hc.
  destruct (at_ (a_daysInMonth s) (a_month s)) as [dim|] eqn:Hat; [|discriminate].
  apply Z.ltb_lt in Hc. unfold addDays_body. rewrite Hat. simpl.
  eexists; split; [reflexivity|].
  rewrite Harr in Hat. apply at_daysInMonth in Hat.
  destruct (Z.ltb_spec 12 (a_month s + 1)); unfold addDaysInv, addDaysMeasure; simpl.
  - split; [split|].
    + exists (if isLeapYear (a_year s + 1) then 29 else 28). split.
      * destruct (isLeapYear _); auto.
      * rewrite Harr. reflexivity.
    + lia.
    + destruct (Z.eqb_spec (a_month s) 0); lia.
  - split; [split|].
    + eauto.
    + lia.
    + destruct (Z.eqb_spec (a_month s) 0), (Z.eqb_spec (a_month s + 1) 0); lia.
Qed.

Lemma addDays_total fuel :
  (Z.to_nat (d + n) + 2 <= fuel)%nat ->
  exists r, addDays fuel y m d n = Some r
    /\ (r = mkDate y m (d + n) \/ (year r = y /\ m < month r) \/ y < year r).
Proof.
  intros Hfuel. unfold addDays.
  set (s0 := mkAdd _ y m (d + n)).
  destruct (loop_terminates addDays_cond addDays_body inv mu addDays_step fuel s0)
    as (r & -> & [_ Hord] & _).
  - split; [|simpl; auto]. subst s0. simpl.
    destruct (isLeapYear y); [exists 29|exists 28]; auto.
  - subst s0. unfold addDaysMeasure. simpl. destruct (m =? 0); lia.
  - eexists; split; [reflexivity|]. simpl.
    destruct Hord as [(<- & <- & <-)|H]; auto.
Qed.

End AddDaysFacts.

Lemma addDays_later fuel dt :
  (Z.to_nat (day dt) + 3 <= fuel)%nat ->
  exists next, addDays fuel (year dt) (month dt) (day dt) 1 = Some next
    /\ 0 < compareDates next dt.
Proof.
  intros Hfuel.
  destruct (addDays_total (year dt) (month dt) (day dt) 1 fuel) as (r & Hr & Hord); [lia|].
  exists r. split; [exact Hr|]. unfold compareDates.
  destruct Hord as [->|[[Hy Hm]|Hy]]; simpl.
  - rewrite !Z.eqb_refl. simpl. lia.
  - rewrite Hy, Z.eqb_refl. simpl. destruct (Z.eqb_spec (month r) (month dt)); simpl; lia.
  - destruct (Z.eqb_spec (year r) (year dt)); simpl; lia.
Qed.

(** ** Resolution of the dates *)

Lemma compareDates_refl dt : compareDates dt dt = 0.
Proof. unfold compareDates. rewrite !Z.eqb_refl. simpl. lia. Qed.

(** A walk whose end is its start visits the start alone. *)
Lemma walkDates_single fuel days start :
  (Z.to_nat (day start) + 3 <= fuel)%nat ->
  walkDates fuel days start start
  = Some (if dayWanted days (getDayOfWeek (year start) (month start) (day start))
          then [formatDate start] else []).
Proof.
  intros Hfuel. destruct (addDays_later fuel start Hfuel) as (next & Hnext & Hlt).
  unfold walkDates. destruct fuel as [|[|fuel]]; [lia|lia|].
  cbn [loop]. unfold dateWalk_cond at 1. cbn [fst]. rewrite compareDates_refl.
  change (0 <=? 0) with true. cbn iota.
  unfold dateWalk_body at 1. cbn [fst snd]. rewrite Hnext.
  unfold dateWalk_cond at 1. cbn [fst].
  destruct (Z.leb_spec (compareDates next start) 0); [lia|].
  simpl. by destruct (dayWanted _ _).
Qed.

Lemma parseDateStr_truthy s dt : parseDateStr s = Some dt -> JS.truthy s = true.
Proof. by destruct s. Qed.

(** The filter of the explicit mode keeps the strings that [parseDateStr]
    accepts. *)
Lemma filter_valid_dates (ds : list string) :
  filter (fun d => JS.truthy d && bool_decide (is_Some (parseDateStr d))) ds
  = filter (fun d => is_Some (parseDateStr d)) ds.
Proof.
  induction ds as [|d ds IH]; [reflexivity|].
  rewrite !filter_cons, IH.
  destruct (parseDateStr d) as [dt|] eqn:E.
  - rewrite (parseDateStr_truthy _ _ E).
    rewrite decide_True; [|by rewrite bool_decide_eq_true_2].
    by rewrite decide_True.
  - rewrite decide_False; [by rewrite decide_False; [|by intros [? ?]]|].
    rewrite bool_decide_eq_false_2; [|by intros [? ?]].
    rewrite andb_false_r. auto.
Qed.

(** C8. In recurring mode with a start date and an end date that is absent,
    [null] or empty, the walk resolves to the start date alone, kept or
    dropped by the day filter, and every generated row is a slot of that
    day. *)
Theorem recurring_without_end_date_is_one_day fuel req sd start :
  dates req = None \/ dates req = Some [] ->
  startDate req = Some sd ->
  JS.truthyOpt (endDate req) = false ->
  parseDateStr sd = Some start ->
  (Z.to_nat (day start) + 3 <= fuel)%nat ->
  resolveDates fuel req
  = Some (Continue
            (if dayWanted (days req)
                  (getDayOfWeek (year start) (month start) (day start))
             then [formatDate start] else []))
  /\ forall rows, expand fuel req = Some (Continue rows) ->
       exists mins, dayMinutes fuel req = Some mins
         /\ rows = slotRow req (formatDate start) <$> mins.
Proof.
  intros Hdates Hsd Hend Hparse Hfuel.
  assert (Hres : resolveDates fuel req
    = Some (Continue
              (if dayWanted (days req)
                    (getDayOfWeek (year start) (month start) (day start))
               then [formatDate start] else []))).
  { unfold resolveDates.
    assert (Hd : match dates req with
                 | Some (d :: ds) => False | _ => True end)
      by (destruct Hdates as [-> | ->]; exact I).
    destruct (dates req) as [[|d ds]|]; try contradiction;
      rewrite Hsd, (parseDateStr_truthy _ _ Hparse), Hparse;
      (destruct (endDate req) as [ed|]; [simpl in Hend; rewrite Hend|]);
      by rewrite walkDates_single. }
  split; [exact Hres|].
  intros rows. unfold expand. rewrite Hres.
  destruct (negb _); [discriminate|].
  destruct (dayWanted _ _); [|discriminate].
  rewrite expandDates_dayMinutes.
  destruct (dayMinutes fuel req) as [mins|]; [|discriminate].
  simpl. rewrite app_nil_r.
  destruct (slotRow req (formatDate start) <$> mins) eqn:E; [discriminate|].
  intros [= <-]. eauto.
Qed.

Lemma recurring_without_end_date_is_one_day_witness :
  resolveDates 32 oneDayReq = Some (Continue ["2024-02-29"]).
Proof.
  refine (proj1 (recurring_without_end_date_is_one_day 32 oneDayReq "2024-02-29"
                   (mkDate 2024 2 29) _ _ _ _ _));
    [by left|reflexivity|reflexivity|reflexivity|vm_compute; lia].
Defined.

Lemma expand_setDays_explicit fuel req d ds days' :
  dates req = Some (d :: ds) ->
  expand fuel (setDays req days') = expand fuel req.
Proof.
  intros Hd. unfold expand, resolveDates. simpl. rewrite Hd. reflexivity.
Qed.

(** C9. With a non-empty [dates] array the resolved dates are the strings
    of the array that [parseDateStr] accepts, in their order; the others
    are dropped without an error. The [days] filter is not consulted:
    replacing it by any other leaves the outcome unchanged. Every accepted
    date receives the slots of all the start minutes of a day, whatever its
    weekday; with a valid subject id, a positive step and clock strings and
    numbers in the range where the doubles of the source are exact
    ([exactRequest]), the expander returns them. *)
Theorem explicit_dates_bypass_day_filter fuel req d ds :
  dates req = Some (d :: ds) ->
  let valid := filter (fun x => is_Some (parseDateStr x)) (d :: ds) in
  resolveDates fuel req = Some (Continue valid)
  /\ (forall days', expand fuel (setDays req days') = expand fuel req)
  /\ (forall rows, expand fuel req = Some (Continue rows) ->
        exists mins, dayMinutes fuel req = Some mins
          /\ rows = valid ≫= (fun x => slotRow req x <$> mins))
  /\ (exactRequest req = true ->
      validateString (subjectId req) 1 36 = true ->
      0 < slotInterval req -> (expandFuel req <= fuel)%nat ->
      exists mins, dayMinutes fuel req = Some mins
        /\ (valid ≠ [] -> mins ≠ [] ->
            expand fuel req
            = Some (Continue (valid ≫= (fun x => slotRow req x <$> mins))))).
Proof.
  intros Hd valid.
  assert (Hres : resolveDates fuel req = Some (Continue valid)).
  { unfold resolveDates. rewrite Hd. by rewrite filter_valid_dates. }
  split; [exact Hres|]. split; [|split].
  - intros days'. by eapply expand_setDays_explicit.
  - intros rows. unfold expand. rewrite Hres.
    destruct (negb _); [discriminate|].
    destruct valid as [|v vs] eqn:Ev; [discriminate|].
    rewrite expandDates_dayMinutes.
    destruct (dayMinutes fuel req) as [mins|]; [|discriminate].
    cbn [fmap option_fmap option_map].
    destruct (_ ≫= _) eqn:E; [discriminate|].
    intros [= <-]. eauto.
  - intros _ Hsub Hpos Hfuel.
    destruct (dayMinutes_terminates fuel req Hpos Hfuel) as [mins Hmins].
    exists mins. split; [exact Hmins|]. intros Hv Hm.
    unfold expand. rewrite Hres, Hsub. cbn [negb].
    destruct valid as [|v vs] eqn:Ev; [done|].
    rewrite expandDates_dayMinutes, Hmins.
    cbn [fmap option_fmap option_map].
    destruct mins as [|c cs]; [done|]. reflexivity.
Qed.

Lemma explicit_dates_bypass_day_filter_witness :
  resolveDates 32 explicitReq = Some (Continue ["2024-03-01"; "2024-03-04"])
  /\ expand 32 explicitReq
     = Some (Continue (["2024-03-01"; "2024-03-04"]
                         ≫= (fun x => slotRow explicitReq x <$> [540; 570]))).
Proof.
  pose proof (explicit_dates_bypass_day_filter 32 explicitReq
                "2024-03-01" ["next week"; "2024-03-04"] eq_refl) as (H1 & _ & _ & H4).
  split; [exact H1|].
  destruct H4 as (mins & Hm & He);
    [reflexivity|reflexivity|reflexivity|vm_compute; lia|].
  assert (mins = [540; 570]) as -> by (vm_compute in Hm; congruence).
  apply He; discriminate.
Defined.

(** ** Outcomes of the generation endpoint *)

Lemma resolveDates_Return fuel req r :
  resolveDates fuel req = Some (Return r) ->
  r = json (Error "Invalid date format") 400.
Proof.
  unfold resolveDates.
  destruct (dates req) as [[|d ds]|]; try discriminate;
    (destruct (startDate req) as [sd|]; [|discriminate]);
    (destruct (JS.truthy sd); [|discriminate]);
    destruct (parseDateStr sd);
    (destruct (endDate req) as [ed|]; [destruct (JS.truthy ed); [destruct (parseDateStr ed)|]|]);
    try (intros [= <-]; reflexivity);
    by destruct (walkDates _ _ _ _).
Qed.

Lemma expand_Return fuel req r :
  expand fuel req = Some (Return r) ->
  exists msg, r = json (Error msg) 400.
Proof.
  unfold expand. destruct (negb _); [intros [= <-]; eauto|].
  destruct (resolveDates fuel req) as [[[|d ds]|r']|] eqn:E; try discriminate.
  - intros [= <-]. eauto.
  - destruct (expandDates fuel req (d :: ds)) as [[|g gs]|]; try discriminate.
    intros [= <-]. eauto.
  - intros [= <-]. apply resolveDates_Return in E as ->. eauto.
Qed.

Lemma expand_Continue fuel req rows :
  expand fuel req = Some (Continue rows) -> rows ≠ [].
Proof.
  unfold expand. destruct (negb _); [discriminate|].
  destruct (resolveDates fuel req) as [[[|d ds]|r']|]; try discriminate.
  destruct (expandDates fuel req (d :: ds)) as [[|g gs]|]; try discriminate.
  by intros [= <-].
Qed.

(** The insertion answers with the number of rows, or fails as a whole
    request. *)
Lemma insertGenerated_response env rows db :
  exists db' l,
    onRequest (insertGenerated env rows) db
    = (Ok (json (SuccessCount (Z.of_nat (length rows))) 200), db', l)
    \/ onRequest (insertGenerated env rows) db
       = (Ok (json (Error "Server error") 500), db', l).
Proof.
  unfold onRequest, tryCatch, insertGenerated, mbind, M_bind, mret, M_ret.
  destruct (insertBatches _ db) as [[[[]|e] db'] l]; simpl; eauto.
Qed.

(** C4, as the code has it. The endpoint answers 400 when no valid date
    resolves ("No valid dates provided", or "Invalid date format" for a
    recurring start or end date that does not parse). When [timeRanges] is
    absent or empty it does not fail: the walk uses the single window of
    the old fields [startTime] and [endTime], 09:00 to 17:00 by default. A
    request that resolves dates but yields no slot is answered 400 with
    "No slots generated"; a response that carries a count has status 200
    and a count of at least 1. *)
Theorem generate_outcomes fuel env req :
  (timeRanges req = None \/ timeRanges req = Some [] ->
   ranges req = [mkRange (JS.orElse (reqStartTime req) "09:00")
                         (JS.orElse (reqEndTime req) "17:00")])
  /\ (validateString (subjectId req) 1 36 = true ->
      (resolveDates fuel req = Some (Continue []) ->
       postGenerate fuel env req
       = Some (mret (json (Error "No valid dates provided") 400)))
      /\ (forall r, resolveDates fuel req = Some (Return r) ->
           r = json (Error "Invalid date format") 400
           /\ postGenerate fuel env req = Some (mret r))
      /\ (forall d ds, resolveDates fuel req = Some (Continue (d :: ds)) ->
           expandDates fuel req (d :: ds) = Some [] ->
           postGenerate fuel env req
           = Some (mret (json (Error "No slots generated") 400))))
  /\ (forall m db, postGenerate fuel env req = Some m ->
      exists resp db' l, onRequest m db = (Ok resp, db', l)
        /\ forall n, body resp = SuccessCount n -> status resp = 200 /\ 1 <= n).
Proof.
  split; [|split].
  - unfold ranges. by intros [-> | ->].
  - intros Hsub. unfold postGenerate, expand. rewrite Hsub. cbn [negb].
    split; [|split].
    + by intros ->.
    + intros r Hr. split; [by eapply resolveDates_Return|]. by rewrite Hr.
    + intros d ds -> ->. reflexivity.
  - intros m db. unfold postGenerate.
    destruct (expand fuel req) as [[rows|r]|] eqn:E; try discriminate; intros [= <-].
    + destruct (insertGenerated_response env rows db) as (db' & l & [H|H]);
        rewrite H; do 3 eexists; (split; [reflexivity|]); simpl; intros n [= <-].
      split; [reflexivity|]. apply expand_Continue in E. destruct rows; [done|].
      simpl. lia.
    + apply expand_Return in E as [msg ->]. do 3 eexists. split; [reflexivity|].
      simpl. discriminate.
Qed.

Lemma generate_outcomes_witness :
  ranges noWindowsReq = [mkRange "09:00" "17:00"]
  /\ postGenerate 1 sampleEnv shortWindowReq
     = Some (mret (json (Error "No slots generated") 400)).
Proof.
  split.
  - apply (proj1 (generate_outcomes 1 sampleEnv noWindowsReq)). by left.
  - apply (proj2 (proj2 (proj1 (proj2 (generate_outcomes 1 sampleEnv shortWindowReq))
                           eq_refl)) "2024-03-01" []); reflexivity.
Defined.

(** Against C4 as stated: [noWindowsReq] provides no time window and is
    answered 200 with 16 slots, not with a 4xx error; [shortWindowReq] is
    well formed and yields no slot, and is answered with a 400 error, not
    with a count of 0. *)
Lemma generate_outcomes_counterexample :
  timeRanges noWindowsReq = None
  /\ (fun o => o.1.1) <$> answerGenerate 422 sampleEnv noWindowsReq emptyDB
     = Some (Ok (json (SuccessCount 16) 200))
  /\ ¬ isClientError (json (SuccessCount 16) 200)
  /\ answerGenerate 1 sampleEnv shortWindowReq emptyDB
     = Some (Ok (json (Error "No slots generated") 400), emptyDB, [])
  /\ isClientError (json (Error "No slots generated") 400).
Proof.
  split; [reflexivity|]. split; [by vm_compute|].
  split; [unfold isClientError; simpl; lia|].
  split; [by vm_compute|]. unfold isClientError; simpl; lia.
Qed.

(** ** The admission controller, path by path *)

Ltac run_handler :=
  unfold onRequest, tryCatch, mbind, M_bind, mret, M_ret, throw,
    selectBookingOfStudent, selectSlot, updateIncrement, selectCurrentBookings,
    insertBooking, updateDecrement, selectSlotDetails, selectBookingSlot,
    deleteBookingRow, insertSlots, updateSlot, stmt.

Lemma postBookings_invalid env data r db :
  validateBooking data = Some r ->
  postBookings env data db = (Ok r, db, []).
Proof. intros H. unfold postBookings. by rewrite H. Qed.

Lemma postBookings_duplicate env data db :
  validateBooking data = None ->
  bookedBy db (slotId data) (sanitizeString (studentId data)) ≠ [] ->
  postBookings env data db
  = (Ok (json (Error "You have already booked this slot") 400), db,
     [SelectBookingOfStudent (slotId data) (sanitizeString (studentId data))]).
Proof.
  intros Hv Hb. unfold postBookings, bookedBy in *. rewrite Hv. run_handler.
  destruct (filter _ (bookings db)) as [|b bs]; [done|]. reflexivity.
Qed.

Lemma postBookings_missing env data db :
  validateBooking data = None ->
  bookedBy db (slotId data) (sanitizeString (studentId data)) = [] ->
  slots db !! slotId data = None ->
  postBookings env data db
  = (Ok (json (Error "Slot no longer exists") 400), db,
     [SelectBookingOfStudent (slotId data) (sanitizeString (studentId data));
      SelectSlot (slotId data)]).
Proof.
  intros Hv Hb Hs. unfold postBookings, bookedBy in *. rewrite Hv. run_handler.
  rewrite Hb. cbn. rewrite Hs. reflexivity.
Qed.

Lemma postBookings_full env data db slot :
  validateBooking data = None ->
  bookedBy db (slotId data) (sanitizeString (studentId data)) = [] ->
  slots db !! slotId data = Some slot ->
  default 0 (max_capacity slot) <= current_bookings slot ->
  postBookings env data db
  = (Ok (json (Error "Sorry, this slot is fully booked!") 409), db,
     [SelectBookingOfStudent (slotId data) (sanitizeString (studentId data));
      SelectSlot (slotId data)]).
Proof.
  intros Hv Hb Hs Hfull. unfold postBookings, bookedBy in *. rewrite Hv. run_handler.
  rewrite Hb. cbn. rewrite Hs.
  destruct (Z.leb_spec (default 0 (max_capacity slot)) (current_bookings slot)); [|lia].
  reflexivity.
Qed.

(** A slot whose capacity is [NULL] passes the test of the handler when
    its counter is negative, but not the test of the [UPDATE]. *)
Lemma postBookings_null_capacity env data db slot :
  validateBooking data = None ->
  bookedBy db (slotId data) (sanitizeString (studentId data)) = [] ->
  slots db !! slotId data = Some slot ->
  max_capacity slot = None -> current_bookings slot < 0 ->
  postBookings env data db
  = (Ok (json (Error "Sorry, this slot just got fully booked!") 409), db,
     [SelectBookingOfStudent (slotId data) (sanitizeString (studentId data));
      SelectSlot (slotId data);
      UpdateIncrement (slotId data) (current_bookings slot);
      SelectCurrentBookings (slotId data)]).
Proof.
  intros Hv Hb Hs Hcap Hneg. unfold postBookings, bookedBy in *. rewrite Hv.
  run_handler. rewrite Hb. cbn. rewrite Hs, Hcap. cbn.
  destruct (Z.leb_spec 0 (current_bookings slot)); [lia|].
  cbn. rewrite Hs, Hcap, andb_false_r. cbn. rewrite Hs. cbn.
  by rewrite Z.leb_refl.
Qed.

Lemma postBookings_booked env data db slot cap :
  validateBooking data = None ->
  bookedBy db (slotId data) (sanitizeString (studentId data)) = [] ->
  slots db !! slotId data = Some slot ->
  max_capacity slot = Some cap -> current_bookings slot < cap ->
  insertFault env = false ->
  uuid env 0 ∉ booking_id <$> bookings db ->
  postBookings env data db
  = (Ok (json (SuccessBooking (uuid env 0)) 200),
     setBookings (withCurrent db (slotId data) slot (current_bookings slot + 1))
                 (bookings db ++ [bookingRow (uuid env 0) data]),
     (admissionTrace data slot (uuid env 0)
        ++ if emailConfigured env then [SelectSlotDetails (slotId data)] else [])%list).
Proof.
  intros Hv Hb Hs Hcap Hfree Hfault Hid.
  unfold postBookings, bookedBy, withCurrent, admissionTrace in *.
  rewrite Hv. run_handler.
  rewrite Hb. cbn. rewrite Hs, Hcap. cbn.
  destruct (Z.leb_spec cap (current_bookings slot)); [lia|].
  cbn. rewrite Hs, Hcap, Z.eqb_refl.
  destruct (Z.ltb_spec (current_bookings slot) cap); [|lia].
  cbn. rewrite lookup_insert_eq. cbn.
  destruct (Z.leb_spec (current_bookings slot + 1) (current_bookings slot)); [lia|].
  rewrite Hfault. cbn. rewrite bool_decide_eq_false_2 by exact Hid.
  by destruct (emailConfigured env).
Qed.

Lemma postBookings_compensated env data db slot cap :
  validateBooking data = None ->
  bookedBy db (slotId data) (sanitizeString (studentId data)) = [] ->
  slots db !! slotId data = Some slot ->
  max_capacity slot = Some cap -> current_bookings slot < cap ->
  insertRefused env db ->
  exists e,
    postBookings env data db
    = (Throw e,
       withCurrent (withCurrent db (slotId data) slot (current_bookings slot + 1))
         (slotId data) (setCurrent slot (current_bookings slot + 1))
         (Z.max (current_bookings slot + 1 - 1) 0),
       (admissionTrace data slot (uuid env 0) ++ [UpdateDecrement (slotId data)])%list).
Proof.
  intros Hv Hb Hs Hcap Hfree Hrefused.
  unfold postBookings, bookedBy, withCurrent, admissionTrace in *.
  rewrite Hv. run_handler.
  rewrite Hb. cbn. rewrite Hs, Hcap. cbn.
  destruct (Z.leb_spec cap (current_bookings slot)); [lia|].
  cbn. rewrite Hs, Hcap, Z.eqb_refl.
  destruct (Z.ltb_spec (current_bookings slot) cap); [|lia].
  cbn. rewrite lookup_insert_eq. cbn.
  destruct (Z.leb_spec (current_bookings slot + 1) (current_bookings slot)); [lia|].
  destruct (insertFault env) eqn:Hf.
  - cbn. rewrite lookup_insert_eq. eexists. reflexivity.
  - destruct Hrefused as [?|Hin]; [congruence|].
    rewrite bool_decide_eq_true_2 by exact Hin.
    cbn. rewrite lookup_insert_eq. eexists. reflexivity.
Qed.

Lemma onRequest_Ok (m : M Response) db r db' l :
  m db = (Ok r, db', l) -> onRequest m db = (Ok r, db', l).
Proof. intros H. unfold onRequest, tryCatch. by rewrite H. Qed.

Lemma onRequest_Throw (m : M Response) db e db' l :
  m db = (Throw e, db', l) ->
  onRequest m db = (Ok (json (Error "Server error") 500), db', l).
Proof.
  intros H. unfold onRequest, tryCatch. rewrite H. cbn. by rewrite app_nil_r.
Qed.

Lemma setCurrent_setCurrent s a b : setCurrent (setCurrent s a) b = setCurrent s b.
Proof. reflexivity. Qed.

Lemma setCurrent_same s : setCurrent s (current_bookings s) = s.
Proof. by destruct s. Qed.

Lemma withCurrent_back db slotId s a :
  slots db !! slotId = Some s ->
  withCurrent (withCurrent db slotId s a) slotId (setCurrent s a) (current_bookings s)
  = db.
Proof.
  intros Hs. unfold withCurrent, setSlots. cbn.
  rewrite insert_insert_eq, setCurrent_setCurrent, setCurrent_same.
  rewrite insert_id by exact Hs. by destruct db.
Qed.

Lemma bookedBy_app db slotId studentId b :
  bookedBy (setBookings db (bookings db ++ [b])) slotId studentId
  = (bookedBy db slotId studentId
       ++ if decide (slot_id b = slotId /\ student_id b = studentId)
          then [b] else [])%list.
Proof.
  unfold bookedBy, setBookings. cbn. by rewrite filter_app.
Qed.

(** C1. A slot with one seat and no booking, two valid requests for it by
    different requesters (as the handler stores their ids), handled one
    after the other: the first is answered 200 with the id of its booking,
    the second 409 "fully booked", and the counter of the slot is 1
    afterwards. The requesters have no earlier booking of the slot and the
    [INSERT] of the first booking goes through. *)
Theorem last_seat_goes_to_first_request env1 env2 d1 d2 db slot :
  validateBooking d1 = None -> validateBooking d2 = None ->
  slotId d2 = slotId d1 ->
  sanitizeString (studentId d1) ≠ sanitizeString (studentId d2) ->
  slots db !! slotId d1 = Some slot ->
  max_capacity slot = Some 1 -> current_bookings slot = 0 ->
  bookedBy db (slotId d1) (sanitizeString (studentId d1)) = [] ->
  bookedBy db (slotId d1) (sanitizeString (studentId d2)) = [] ->
  insertFault env1 = false ->
  uuid env1 0 ∉ booking_id <$> bookings db ->
  exists db1 l1 db2 l2,
    onRequest (postBookings env1 d1) db
    = (Ok (json (SuccessBooking (uuid env1 0)) 200), db1, l1)
    /\ onRequest (postBookings env2 d2) db1
       = (Ok (json (Error "Sorry, this slot is fully booked!") 409), db2, l2)
    /\ current_bookings <$> slots db2 !! slotId d1 = Some 1
    /\ bookings db2 = (bookings db ++ [bookingRow (uuid env1 0) d1])%list.
Proof.
  intros Hv1 Hv2 Hsame Hne Hs Hmax Hcur Hb1 Hb2 Hfault Hid.
  pose proof (postBookings_booked env1 d1 db slot 1 Hv1 Hb1 Hs Hmax ltac:(lia)
                Hfault Hid) as H1.
  set (db1 := setBookings _ _) in H1.
  assert (Hs1 : slots db1 !! slotId d1 = Some (setCurrent slot (current_bookings slot + 1))).
  { subst db1. unfold withCurrent, setBookings, setSlots. cbn. apply lookup_insert_eq. }
  assert (Hb : bookedBy db1 (slotId d2) (sanitizeString (studentId d2)) = []).
  { subst db1. unfold bookedBy in *. cbn [bookings setBookings].
    rewrite Hsame, filter_app, Hb2.
    rewrite filter_cons_False; [reflexivity|]. cbn. intros [_ ?]. done. }
  exists db1. eexists. exists db1. eexists. split; [by apply onRequest_Ok|].
  split; [|split].
  - apply onRequest_Ok. rewrite <- Hsame in Hs1.
    apply (postBookings_full env2 d2 db1 _ Hv2 Hb Hs1). cbn. rewrite Hmax. cbn. lia.
  - rewrite Hs1. cbn. by rewrite Hcur.
  - reflexivity.
Qed.

Lemma last_seat_goes_to_first_request_witness :
  exists db1 l1 db2 l2,
    onRequest (postBookings sampleEnv annReq) oneSeatDB
    = (Ok (json (SuccessBooking "id-0") 200), db1, l1)
    /\ onRequest (postBookings sampleEnv bobReq) db1
       = (Ok (json (Error "Sorry, this slot is fully booked!") 409), db2, l2)
    /\ current_bookings <$> slots db2 !! "slot-1" = Some 1
    /\ bookings db2 = [bookingRow "id-0" annReq].
Proof.
  apply (last_seat_goes_to_first_request sampleEnv sampleEnv annReq bobReq oneSeatDB
           (mkSlot "subject-1" "2024-03-01 09:00:00" 20 (Some 1) 0 ""));
    try reflexivity; try (by vm_compute).
  cbn. apply not_elem_of_nil.
Defined.

(** ** What a request can do to the database *)

Lemma insertRefused_dec env db : insertRefused env db \/
  (insertFault env = false /\ uuid env 0 ∉ booking_id <$> bookings db).
Proof.
  unfold insertRefused. destruct (insertFault env); [by left; left|].
  destruct (decide (uuid env 0 ∈ booking_id <$> bookings db)); [by left; right|].
  by right.
Qed.

(** An admission leaves the database as it was, or takes a seat of a slot
    that had one free and adds the booking, or takes it and gives it back. *)
Lemma postBookings_effect env data db r db' l :
  onRequest (postBookings env data) db = (r, db', l) ->
  db' = db
  \/ exists slot cap,
       bookedBy db (slotId data) (sanitizeString (studentId data)) = []
       /\ slots db !! slotId data = Some slot
       /\ max_capacity slot = Some cap /\ current_bookings slot < cap
       /\ (db' = setBookings
                   (withCurrent db (slotId data) slot (current_bookings slot + 1))
                   (bookings db ++ [bookingRow (uuid env 0) data])
           \/ db' = withCurrent
                      (withCurrent db (slotId data) slot (current_bookings slot + 1))
                      (slotId data) (setCurrent slot (current_bookings slot + 1))
                      (Z.max (current_bookings slot + 1 - 1) 0)).
Proof.
  intros H.
  destruct (validateBooking data) as [r0|] eqn:Hv.
  { rewrite (onRequest_Ok _ _ _ _ _ (postBookings_invalid env data r0 db Hv)) in H.
    left. congruence. }
  destruct (bookedBy db (slotId data) (sanitizeString (studentId data))) as [|b bs] eqn:Hb.
  2:{ rewrite (onRequest_Ok _ _ _ _ _
                 (postBookings_duplicate env data db Hv ltac:(by rewrite Hb))) in H.
      left. congruence. }
  destruct (slots db !! slotId data) as [slot|] eqn:Hs.
  2:{ rewrite (onRequest_Ok _ _ _ _ _ (postBookings_missing env data db Hv Hb Hs)) in H.
      left. congruence. }
  destruct (Z.le_gt_cases (default 0 (max_capacity slot)) (current_bookings slot))
    as [Hfull|Hfree].
  { rewrite (onRequest_Ok _ _ _ _ _ (postBookings_full env data db slot Hv Hb Hs Hfull)) in H.
    left. congruence. }
  destruct (max_capacity slot) as [cap|] eqn:Hcap; cbn in Hfree.
  2:{ rewrite (onRequest_Ok _ _ _ _ _
                 (postBookings_null_capacity env data db slot Hv Hb Hs Hcap Hfree)) in H.
      left. congruence. }
  right. exists slot, cap. repeat split; try done.
  destruct (insertRefused_dec env db) as [Hr|[Hf Hid]].
  - destruct (postBookings_compensated env data db slot cap Hv Hb Hs Hcap Hfree Hr)
      as [e He].
    rewrite (onRequest_Throw _ _ _ _ _ He) in H. right. congruence.
  - rewrite (onRequest_Ok _ _ _ _ _
               (postBookings_booked env data db slot cap Hv Hb Hs Hcap Hfree Hf Hid)) in H.
    left. congruence.
Qed.

Lemma dbInv_insert db slotId s :
  dbInv db -> slotInv s -> dbInv (setSlots db (<[slotId := s]> (slots db))).
Proof. intros Hdb Hs. unfold dbInv. cbn. by apply map_Forall_insert_2. Qed.

Lemma dbNonNeg_insert db slotId s :
  dbNonNeg db -> 0 <= current_bookings s ->
  dbNonNeg (setSlots db (<[slotId := s]> (slots db))).
Proof. intros Hdb Hs. unfold dbNonNeg. cbn. by apply map_Forall_insert_2. Qed.

(** The guarded increment keeps the invariant. *)
Lemma updateIncrement_inv slotId expected db :
  dbInv db -> dbInv (updateIncrement slotId expected db).1.2.
Proof.
  intros Hdb. unfold updateIncrement, stmt. cbn.
  destruct (slots db !! slotId) as [s|] eqn:Hs; [|exact Hdb].
  destruct (Z.eqb_spec (current_bookings s) expected); cbn; [|exact Hdb].
  destruct (max_capacity s) as [m|] eqn:Hm; cbn; [|exact Hdb].
  destruct (Z.ltb_spec (current_bookings s) m); cbn; [|exact Hdb].
  apply dbInv_insert; [exact Hdb|].
  destruct (Hdb _ _ Hs) as (m' & Hm' & Hi). unfold slotInv. cbn.
  exists m. split; [done|]. lia.
Qed.

(** The decrement with its floor keeps the invariant. *)
Lemma updateDecrement_inv slotId db :
  dbInv db -> dbInv (updateDecrement slotId db).1.2.
Proof.
  intros Hdb. unfold updateDecrement, stmt. cbn.
  destruct (slots db !! slotId) as [s|] eqn:Hs; [|exact Hdb].
  apply dbInv_insert; [exact Hdb|].
  destruct (Hdb _ _ Hs) as (m & Hm & Hi). unfold slotInv. cbn.
  exists m. split; [done|]. lia.
Qed.

Lemma postBookings_inv env data db r db' l :
  dbInv db -> onRequest (postBookings env data) db = (r, db', l) -> dbInv db'.
Proof.
  intros Hdb H.
  apply postBookings_effect in H
    as [->|(slot & cap & _ & Hs & Hcap & Hfree & [->| ->])];
    [exact Hdb| |]; destruct (Hdb _ _ Hs) as (m & Hm & Hi);
    assert (m = cap) as -> by congruence.
  - unfold withCurrent, setBookings, dbInv. cbn.
    apply map_Forall_insert_2; [|exact Hdb]. unfold slotInv. cbn.
    exists cap. split; [done|]. lia.
  - unfold withCurrent. apply dbInv_insert; [apply dbInv_insert; [exact Hdb|]|];
      unfold slotInv; cbn; exists cap; (split; [done|]); lia.
Qed.

Lemma postBookings_nonneg env data db r db' l :
  dbNonNeg db -> onRequest (postBookings env data) db = (r, db', l) -> dbNonNeg db'.
Proof.
  intros Hdb H.
  apply postBookings_effect in H
    as [->|(slot & cap & _ & Hs & Hcap & Hfree & [->| ->])];
    [exact Hdb| |]; pose proof (Hdb _ _ Hs) as Hi; cbn in Hi.
  - unfold withCurrent, setBookings, dbNonNeg. cbn.
    apply map_Forall_insert_2; [|exact Hdb]. cbn. lia.
  - unfold withCurrent. apply dbNonNeg_insert; [apply dbNonNeg_insert; [exact Hdb|]|];
      cbn; lia.
Qed.

Lemma bookedBy_nil_key db slotId studentId :
  bookedBy db slotId studentId = [] ->
  (slotId, studentId) ∉ bookingKey <$> bookings db.
Proof.
  unfold bookedBy. intros Hf Hin.
  apply list_elem_of_fmap in Hin as (b & Hk & Hb).
  assert (b ∈ filter (fun b => slot_id b = slotId /\ student_id b = studentId) (bookings db)).
  { apply list_elem_of_filter. split; [|exact Hb]. unfold bookingKey in Hk.
    by injection Hk as -> ->. }
  rewrite Hf in H. by apply elem_of_nil in H.
Qed.

Lemma postBookings_unique env data db r db' l :
  uniquePairs db -> onRequest (postBookings env data) db = (r, db', l) ->
  uniquePairs db'.
Proof.
  intros Hdb H.
  apply postBookings_effect in H as [->|(slot & cap & Hb & _ & _ & _ & [->| ->])];
    [exact Hdb| |exact Hdb].
  unfold uniquePairs, setBookings. cbn. rewrite fmap_app. cbn.
  apply NoDup_app. split; [exact Hdb|]. split; [|apply NoDup_singleton].
  intros k Hk Hk'. apply list_elem_of_singleton in Hk' as ->.
  by apply bookedBy_nil_key in Hb.
Qed.

Lemma NoDup_fmap_filter {A B : Type} (f : A -> B) (P : A -> Prop)
    `{!forall x, Decision (P x)} (l : list A) :
  NoDup (f <$> l) -> NoDup (f <$> filter P l).
Proof.
  induction l as [|x l IH]; [done|]. rewrite fmap_cons. intros Hnd.
  apply NoDup_cons in Hnd as [Hx Hl]. rewrite filter_cons.
  destruct (decide (P x)); [|by apply IH]. rewrite fmap_cons.
  apply NoDup_cons. split; [|by apply IH].
  intros Hin. apply Hx. apply list_elem_of_fmap in Hin as (y & -> & Hy).
  apply list_elem_of_filter in Hy as [_ Hy]. by apply list_elem_of_fmap_2.
Qed.

(** A cancellation leaves the database as it was or deletes the booking
    and decrements the counter of its slot. *)
Lemma deleteBooking_effect bookingId db r db' l :
  onRequest (deleteBooking bookingId) db = (r, db', l) ->
  db' = db
  \/ exists slotId,
       db' = (updateDecrement slotId
                (setBookings db (filter (fun b => booking_id b ≠ bookingId)
                                        (bookings db)))).1.2.
Proof.
  unfold deleteBooking. destruct (negb _).
  { run_handler. cbn. intros [= _ <- _]. by left. }
  run_handler. cbn.
  destruct (head _) as [b|]; cbn.
  - intros [= _ <- _]. right. exists (slot_id b). reflexivity.
  - intros [= _ <- _]. by left.
Qed.

Section SlotsAll.
Variable P : Slot -> Prop.

Local Abbreviation all := (slotsAll P).

Lemma insertSlots_all rows db :
  all db -> Forall (fun r => P r.2) rows ->
  all (insertSlots rows db).1.2 /\ bookings (insertSlots rows db).1.2 = bookings db.
Proof.
  intros Hdb Hrows. unfold insertSlots, stmt. destruct (bool_decide _); cbn; [|done].
  split; [|reflexivity]. unfold slotsAll in *. cbn.
  revert Hdb. generalize (slots db). induction Hrows as [|r rows Hr _ IH]; intros m Hm; [done|].
  cbn. apply IH. by apply map_Forall_insert_2.
Qed.

Lemma insertBatches_all bs db :
  all db -> Forall (Forall (fun r => P r.2)) bs ->
  all (insertBatches bs db).1.2 /\ bookings (insertBatches bs db).1.2 = bookings db.
Proof.
  intros Hdb Hbs. revert db Hdb. induction Hbs as [|b bs Hb _ IH]; intros db Hdb; [done|].
  cbn [insertBatches]. unfold mbind, M_bind.
  destruct (insertSlots_all b db Hdb Hb) as [H1 H2].
  destruct (insertSlots b db) as [[[[]|e] db1] l1]; cbn in *; [|done].
  destruct (IH db1 H1) as [H3 H4].
  destruct (insertBatches bs db1) as [[o db2] l2]; cbn in *. split; [done|congruence].
Qed.

Lemma batches_Forall {A : Type} (Q : A -> Prop) (l : list A) :
  Forall Q l -> Forall (Forall Q) (batches l).
Proof.
  intros Hl. unfold batches. apply Forall_fmap, Forall_forall. intros k _.
  cbn. by apply Forall_take, Forall_drop.
Qed.

Lemma insertGenerated_all env rows db r db' l :
  all db -> Forall (fun g => P (withId env 0 g).2) rows ->
  onRequest (insertGenerated env rows) db = (r, db', l) ->
  all db' /\ bookings db' = bookings db.
Proof.
  intros Hdb Hrows. unfold onRequest, tryCatch, insertGenerated, mbind, M_bind, mret, M_ret.
  destruct (insertBatches_all (batches (imap (withId env) rows)) db Hdb) as [H1 H2].
  { apply batches_Forall. apply Forall_lookup. intros i x Hx.
    apply list_lookup_imap_Some in Hx as (g & Hg & ->).
    eapply Forall_lookup_1 in Hrows; [|exact Hg]. exact Hrows. }
  destruct (insertBatches _ db) as [[[[]|e] db1] l1]; cbn in *; by intros [= _ <- _].
Qed.

Lemma postSlot_all env data db r db' l :
  all db ->
  (forall t, P (mkSlot (slotSubjectId data) t (orElseNum (slotDuration data) 20)
                  (Some (orElseNum (maxCapacity data) 1)) 0
                  (sanitizeString (JS.orElse (slotLocation data) "")))) ->
  onRequest (postSlot env data) db = (r, db', l) ->
  all db' /\ bookings db' = bookings db.
Proof.
  intros Hdb HP. unfold postSlot.
  destruct (negb _); [run_handler; cbn; by intros [= _ <- _]|].
  destruct (negb _); [run_handler; cbn; by intros [= _ <- _]|].
  destruct (toDbTime env _) as [t|]; [|run_handler; cbn; by intros [= _ <- _]].
  unfold onRequest, tryCatch, mbind, M_bind, mret, M_ret.
  match goal with |- context [insertSlots ?rows db] =>
    destruct (insertSlots_all rows db Hdb) as [H1 H2];
      [constructor; [apply HP|constructor]|];
    destruct (insertSlots rows db) as [[[[]|e] db1] l1]
  end; cbn in *; by intros [= _ <- _].
Qed.

Lemma putSlot_all env slotId data db r db' l :
  all db ->
  (forall s t s', slots db !! slotId = Some s -> applyUpdate data t s = Some s' ->
                  P s') ->
  onRequest (putSlot env slotId data) db = (r, db', l) ->
  all db' /\ bookings db' = bookings db.
Proof.
  intros Hdb HP. unfold putSlot.
  destruct (negb _); [run_handler; cbn; by intros [= _ <- _]|].
  destruct (if JS.truthyOpt _ then _ else _) as [t|];
    [|run_handler; cbn; by intros [= _ <- _]].
  destruct (isNull (newLocation data)); [run_handler; cbn; by intros [= _ <- _]|].
  destruct (hasUpdates data); run_handler; cbn; [|by intros [= _ <- _]].
  destruct (slots db !! slotId) as [s|] eqn:Hs; [|by intros [= _ <- _]].
  destruct (applyUpdate data t s) as [s'|] eqn:Ha; cbn; intros [= _ <- _]; [|done].
  split; [|reflexivity]. unfold slotsAll. cbn.
  apply map_Forall_insert_2; [|exact Hdb]. by apply (HP s t).
Qed.

Lemma applyUpdate_current data t s s' :
  applyUpdate data t s = Some s' -> current_bookings s' = current_bookings s.
Proof.
  unfold applyUpdate. destruct (_ || _); [discriminate|]. by intros [= <-].
Qed.

End SlotsAll.

(** Every generated row has no booking and the capacity of the request. *)
Lemma expand_rows fuel req rows :
  expand fuel req = Some (Continue rows) ->
  Forall (fun g => g_current_bookings g = 0 /\ g_max_capacity g = capacity req) rows.
Proof.
  unfold expand. destruct (negb _); [discriminate|].
  destruct (resolveDates fuel req) as [[[|d ds]|r']|]; try discriminate.
  rewrite expandDates_dayMinutes.
  destruct (dayMinutes fuel req) as [mins|]; [|discriminate].
  cbn [fmap option_fmap option_map].
  destruct (_ ≫= _) as [|g gs] eqn:E; [discriminate|]. intros [= <-].
  rewrite <- E. apply Forall_forall. intros g' Hg.
  apply list_elem_of_bind in Hg as (x & Hg & _).
  apply list_elem_of_fmap in Hg as (c & -> & _). done.
Qed.

Lemma deleteBooking_all (P : Slot -> Prop) bookingId db r db' l :
  (forall s, P s -> P (setCurrent s (Z.max (current_bookings s - 1) 0))) ->
  map_Forall (fun _ => P) (slots db) ->
  onRequest (deleteBooking bookingId) db = (r, db', l) ->
  map_Forall (fun _ => P) (slots db').
Proof.
  intros HP Hdb H. apply deleteBooking_effect in H as [->|[slotId ->]]; [exact Hdb|].
  unfold updateDecrement, stmt. cbn.
  destruct (slots db !! slotId) as [s|] eqn:Hs; cbn; [|exact Hdb].
  apply map_Forall_insert_2; [|exact Hdb]. apply HP. exact (Hdb _ _ Hs).
Qed.

Lemma deleteBooking_unique bookingId db r db' l :
  uniquePairs db -> onRequest (deleteBooking bookingId) db = (r, db', l) ->
  uniquePairs db'.
Proof.
  intros Hdb H. apply deleteBooking_effect in H as [->|[slotId ->]]; [exact Hdb|].
  unfold uniquePairs, updateDecrement, stmt. cbn.
  assert (Hb : forall d : DB, bookings (match slots db !! slotId with
      | Some s =>
          setSlots d (<[slotId:=setCurrent s (Z.max (current_bookings s - 1) 0)]>
                        (slots db))
      | None => d end) = bookings d) by (intros d; by destruct (slots db !! slotId)).
  rewrite Hb. cbn. by apply NoDup_fmap_filter.
Qed.

(** ** What holds in every reachable state *)

Lemma reachable_unique db : reachable db -> uniquePairs db.
Proof.
  induction 1 as [|db fuel env rq m r db' l _ IH Hh Hrun]; [constructor|].
  destruct rq as [data|bookingId|data|slotId data|req]; cbn in Hh.
  - injection Hh as <-. by eapply postBookings_unique.
  - injection Hh as <-. by eapply deleteBooking_unique.
  - injection Hh as <-.
    eapply (postSlot_all (fun _ => True)) in Hrun as [_ Hb]; [|by intros ???|done].
    unfold uniquePairs. by rewrite Hb.
  - injection Hh as <-.
    eapply (putSlot_all (fun _ => True)) in Hrun as [_ Hb]; [|by intros ???|done].
    unfold uniquePairs. by rewrite Hb.
  - unfold postGenerate in Hh.
    destruct (expand fuel req) as [[rows|r0]|]; try discriminate; injection Hh as <-.
    + eapply (insertGenerated_all (fun _ => True)) in Hrun as [_ Hb];
        [|by intros ???|by apply Forall_forall].
      unfold uniquePairs. by rewrite Hb.
    + unfold onRequest, tryCatch, mret, M_ret in Hrun. by injection Hrun as _ <- _.
Qed.

Lemma reachable_nonneg db : reachable db -> dbNonNeg db.
Proof.
  induction 1 as [|db fuel env rq m r db' l _ IH Hh Hrun]; [by intros ???|].
  destruct rq as [data|bookingId|data|slotId data|req]; cbn in Hh.
  - injection Hh as <-. by eapply postBookings_nonneg.
  - injection Hh as <-.
    eapply (deleteBooking_all (fun s => 0 <= current_bookings s)); [|exact IH|exact Hrun].
    intros s _. cbn. lia.
  - injection Hh as <-.
    by eapply (postSlot_all (fun s => 0 <= current_bookings s)) in Hrun as [? _].
  - injection Hh as <-.
    eapply (putSlot_all (fun s => 0 <= current_bookings s)) in Hrun as [? _];
      [done|exact IH|]. intros s t s' Hs Ha. cbn.
    rewrite (applyUpdate_current _ _ _ _ Ha). exact (IH _ _ Hs).
  - unfold postGenerate in Hh.
    destruct (expand fuel req) as [[rows|r0]|] eqn:E; try discriminate; injection Hh as <-.
    + eapply (insertGenerated_all (fun s => 0 <= current_bookings s)) in Hrun as [? _];
        [done|exact IH|].
      eapply Forall_impl; [by eapply expand_rows|]. cbn. intros g [-> _]. done.
    + unfold onRequest, tryCatch, mret, M_ret in Hrun. by injection Hrun as _ <- _.
Qed.

(** ** Duplicate requests *)

Lemma validateBooking_400 data r :
  validateBooking data = Some r -> exists msg, r = json (Error msg) 400.
Proof.
  unfold validateBooking.
  repeat (destruct (negb _ || negb _) || destruct (negb _));
    intros [= <-]; eauto.
Qed.

(** C3, as the code has it. A request for a slot that its requester has
    already booked is answered 400 and changes nothing; when its fields are
    valid the answer is the duplicate error and the only statement sent is
    the [SELECT] on [bookings], so the slot row is neither read nor
    written. Handled one at a time, requests keep at most one booking per
    (slot id, requester id): an admission preserves this, and it holds in
    every database reached from the empty one. Handlers that run at the
    same time are not bound by it. *)
Theorem duplicate_rejected_before_capacity :
  (forall env data db,
     bookedBy db (slotId data) (sanitizeString (studentId data)) ≠ [] ->
     (exists msg l,
        onRequest (postBookings env data) db = (Ok (json (Error msg) 400), db, l)
        /\ l ⊆ [SelectBookingOfStudent (slotId data) (sanitizeString (studentId data))])
     /\ (validateBooking data = None ->
         onRequest (postBookings env data) db
         = (Ok (json (Error "You have already booked this slot") 400), db,
            [SelectBookingOfStudent (slotId data) (sanitizeString (studentId data))])))
  /\ (forall env data db r db' l,
       uniquePairs db ->
       onRequest (postBookings env data) db = (r, db', l) ->
       uniquePairs db')
  /\ (forall db, reachable db -> uniquePairs db).
Proof.
  split; [|split].
  - intros env data db Hb.
    assert (Hdup : validateBooking data = None ->
      onRequest (postBookings env data) db
      = (Ok (json (Error "You have already booked this slot") 400), db,
         [SelectBookingOfStudent (slotId data) (sanitizeString (studentId data))])).
    { intros Hv. by apply onRequest_Ok, postBookings_duplicate. }
    split; [|exact Hdup].
    destruct (validateBooking data) as [r|] eqn:Hv.
    + destruct (validateBooking_400 _ _ Hv) as [msg ->].
      exists msg, []. split; [by apply onRequest_Ok, postBookings_invalid|].
      apply list_subseteq_nil.
    + do 2 eexists. split; [by apply Hdup|]. done.
  - intros env data db r db' l. apply postBookings_unique.
  - apply reachable_unique.
Qed.

Lemma duplicate_rejected_before_capacity_witness :
  onRequest (postBookings sampleEnv annReq) annBookedDB
  = (Ok (json (Error "You have already booked this slot") 400), annBookedDB,
     [SelectBookingOfStudent "slot-1" "s-1001"]).
Proof.
  apply (proj1 duplicate_rejected_before_capacity sampleEnv annReq annBookedDB).
  - by vm_compute.
  - reflexivity.
Defined.

(** ** Handlers that run at the same time *)

Lemma runProg_Await {X} (m : M X) k (k' : X -> M Response) db :
  (forall x db', runProg (k x) db' = k' x db') ->
  runProg (Await m k Raise) db = (m ≫= k') db.
Proof.
  intros Hk. cbn [runProg]. unfold mbind, M_bind.
  destruct (m db) as [[[x|e] db'] l].
  - by rewrite Hk.
  - cbn. by rewrite app_nil_r.
Qed.

(** Run without interruption, the statements of [postBookingsProg] are the
    handler [postBookings]. *)
Lemma postBookingsProg_run env data db :
  runProg (postBookingsProg env data) db = postBookings env data db.
Proof.
  unfold postBookingsProg, postBookings.
  destruct (validateBooking data) as [r|]; [reflexivity|].
  apply runProg_Await. intros existingRows db1.
  destruct (0 <? length existingRows)%nat; [reflexivity|].
  apply runProg_Await. intros [slot|] db2; [|reflexivity].
  destruct (default 0 (max_capacity slot) <=? current_bookings slot); [reflexivity|].
  apply runProg_Await. intros [] db3.
  apply runProg_Await. intros updatedSlot db4.
  destruct (match updatedSlot with Some _ => _ | None => _ end); [reflexivity|].
  cbn [runProg]. unfold mbind, M_bind, tryCatch, insertBooking, stmt.
  destruct (insertFault env); [reflexivity|].
  destruct (bool_decide _); [reflexivity|].
  destruct (emailConfigured env); reflexivity.
Qed.

(** Served statement after statement with nothing in between, a handler
    ends with the outcome and the database of its uninterrupted run. *)
Lemma stepsProg_runProg p db :
  exists n, finalOf (stepsProg n p db).1 = Some (runProg p db).1.1
            /\ (stepsProg n p db).2 = (runProg p db).1.2.
Proof.
  revert db. induction p as [r|e|X m k IHk h IHh]; intros db.
  - by exists 0%nat.
  - by exists 0%nat.
  - cbn [runProg]. destruct (m db) as [[[x|e] db'] l] eqn:Em.
    + destruct (IHk x db') as (n & H1 & H2). exists (S n).
      unfold stepsProg in *. rewrite Nat.iter_succ_r. cbn [stepProg fst snd].
      rewrite Em. destruct (runProg (k x) db') as [[r d] l']. exact (conj H1 H2).
    + destruct (IHh e db') as (n & H1 & H2). exists (S n).
      unfold stepsProg in *. rewrite Nat.iter_succ_r. cbn [stepProg fst snd].
      rewrite Em. destruct (runProg (h e) db') as [[r d] l']. exact (conj H1 H2).
Qed.

(** Two requests of the same requester for the same slot, served at the
    same time. When both pass the duplicate check before either stores its
    row, both are answered 200 and the pair is stored twice; served one
    after the other, the second is refused. *)
Lemma interleaved_requests_store_the_pair_twice :
  uniquePairs twoSeatDB
  /\ interleave bothCheckFirst (postBookingsProg sampleEnv annReq)
       (postBookingsProg secondEnv annReq) twoSeatDB
     = (Answer (json (SuccessBooking "id-0") 200),
        Answer (json (SuccessBooking "id-1") 200), twiceBookedDB)
  /\ bookedBy twiceBookedDB "slot-1" "s-1001"
     = [bookingRow "id-0" annReq; bookingRow "id-1" annReq]
  /\ ¬ uniquePairs twiceBookedDB
  /\ exists db',
       interleave oneAfterTheOther (postBookingsProg sampleEnv annReq)
         (postBookingsProg secondEnv annReq) twoSeatDB
       = (Answer (json (SuccessBooking "id-0") 200),
          Answer (json (Error "You have already booked this slot") 400), db')
       /\ uniquePairs db'.
Proof.
  split; [apply NoDup_nil_2|].
  split; [by vm_compute|].
  split; [by vm_compute|].
  split.
  - unfold uniquePairs. intros H. vm_compute in H.
    apply NoDup_cons_1_1 in H. apply H. left.
  - eexists. split; [by vm_compute|].
    unfold uniquePairs. vm_compute. apply NoDup_singleton.
Qed.

(** ** The capacity invariant *)

(** C7, as the code has it. [0 <= currentBookings <= maxCapacity] is kept
    by the guarded increment and by the decrement with its floor, hence by
    an admission (with or without compensation) and by a cancellation. The
    creation of a slot, single or generated, establishes it when the
    capacity it stores is not negative, and a staff edit keeps it when it
    leaves [maxCapacity] alone ([undefined]) or sets it to a number that
    is at least the current count; a [null] is neither. *)
Theorem capacity_invariant_of_slot_operations :
  (forall slotId expected db,
     dbInv db -> dbInv (updateIncrement slotId expected db).1.2)
  /\ (forall slotId db, dbInv db -> dbInv (updateDecrement slotId db).1.2)
  /\ (forall env data db r db' l,
       dbInv db -> onRequest (postBookings env data) db = (r, db', l) -> dbInv db')
  /\ (forall bookingId db r db' l,
       dbInv db -> onRequest (deleteBooking bookingId) db = (r, db', l) -> dbInv db')
  /\ (forall env data db r db' l,
       dbInv db -> 0 <= orElseNum (maxCapacity data) 1 ->
       onRequest (postSlot env data) db = (r, db', l) -> dbInv db')
  /\ (forall fuel env req m db r db' l,
       dbInv db -> 0 <= capacity req ->
       postGenerate fuel env req = Some m ->
       onRequest m db = (r, db', l) -> dbInv db')
  /\ (forall env slotId data db r db' l,
       dbInv db ->
       newMaxCapacity data <> Null ->
       (forall s n, slots db !! slotId = Some s -> newMaxCapacity data = Given n ->
                    current_bookings s <= n) ->
       onRequest (putSlot env slotId data) db = (r, db', l) -> dbInv db').
Proof.
  split; [|split; [|split; [|split; [|split; [|split]]]]].
  - apply updateIncrement_inv.
  - apply updateDecrement_inv.
  - apply postBookings_inv.
  - intros bookingId db r db' l Hdb. apply (deleteBooking_all slotInv); [|exact Hdb].
    unfold slotInv. intros s (m & Hm & Hs). cbn. exists m. split; [done|]. lia.
  - intros env data db r db' l Hdb Hcap Hrun.
    eapply (postSlot_all slotInv) in Hrun as [? _]; [done|exact Hdb|].
    intros t. unfold slotInv. cbn. eexists. split; [done|]. lia.
  - intros fuel env req m db r db' l Hdb Hcap Hm Hrun. unfold postGenerate in Hm.
    destruct (expand fuel req) as [[rows|r0]|] eqn:E; try discriminate; injection Hm as <-.
    + eapply (insertGenerated_all slotInv) in Hrun as [? _]; [done|exact Hdb|].
      eapply Forall_impl; [by eapply expand_rows|].
      unfold slotInv. cbn. intros g [-> ->]. eexists. split; [done|]. lia.
    + unfold onRequest, tryCatch, mret, M_ret in Hrun. by injection Hrun as _ <- _.
  - intros env slotId data db r db' l Hdb Hnull Hcap Hrun.
    eapply (putSlot_all slotInv) in Hrun as [? _]; [done|exact Hdb|].
    intros s t s' Hs Ha. destruct (Hdb _ _ Hs) as (m & Hm & Hi).
    unfold applyUpdate in Ha. destruct (_ || _); [discriminate|].
    injection Ha as <-. unfold slotInv. cbn.
    destruct (newMaxCapacity data) as [| |n] eqn:En; [by exists m|done|].
    exists n. split; [done|]. specialize (Hcap s n Hs eq_refl). lia.
Qed.

Lemma capacity_invariant_of_slot_operations_witness :
  dbInv (mkDB {[ "slot-1" := mkSlot "subject-1" "2024-03-01 09:00:00" 20 (Some 1) 1 "" ]}
              [bookingRow "id-0" annReq]).
Proof.
  assert (Hinv : dbInv oneSeatDB).
  { apply map_Forall_singleton. unfold slotInv. cbn. eexists. split; [done|]. lia. }
  refine (proj1 (proj2 (proj2 capacity_invariant_of_slot_operations))
            sampleEnv annReq oneSeatDB _ _ _ Hinv _).
  by vm_compute.
Defined.

(** Against C7 as stated: a staff edit that lowers the capacity of a slot
    with two bookings to 1 is accepted and leaves [currentBookings = 2 >
    maxCapacity = 1]; the creation of a slot with capacity -1 is accepted
    and leaves [currentBookings = 0 > maxCapacity = -1]; a staff edit
    with [maxCapacity: null] is accepted and leaves the slot without a
    capacity. *)
Lemma capacity_invariant_counterexample :
  dbInv twoTakenDB
  /\ (let db' := mkDB {[ "slot-2" := mkSlot "subject-1" "2024-03-01 10:00:00" 20 (Some 1) 2 "" ]} [] in
      onRequest (putSlot sampleEnv "slot-2" shrinkUpdate) twoTakenDB
      = (Ok (json Success 200), db', [UpdateSlot "slot-2"])
      /\ ¬ dbInv db')
  /\ dbInv emptyDB
  /\ (let db' := mkDB {[ "id-0" := mkSlot "subject-1" "2024-03-01T10:00:00Z" 20 (Some (-1)) 0 "" ]} [] in
      onRequest (postSlot sampleEnv negativeSlotReq) emptyDB
      = (Ok (json (SuccessId "id-0") 200), db', [InsertSlots ["id-0"]])
      /\ ¬ dbInv db')
  /\ (let db' := mkDB {[ "slot-2" := mkSlot "subject-1" "2024-03-01 10:00:00" 20 None 2 "" ]} [] in
      onRequest (putSlot sampleEnv "slot-2" nullCapacityUpdate) twoTakenDB
      = (Ok (json Success 200), db', [UpdateSlot "slot-2"])
      /\ ¬ dbInv db').
Proof.
  split; [|split; [|split; [|split]]].
  - apply map_Forall_singleton. unfold slotInv. cbn. eexists. split; [done|]. lia.
  - cbv zeta. split; [by vm_compute|].
    intros H. unfold dbInv in H. cbn in H. apply map_Forall_singleton in H.
    destruct H as (m & [= <-] & H). cbn in H. lia.
  - apply map_Forall_empty.
  - cbv zeta. split; [by vm_compute|].
    intros H. unfold dbInv in H. cbn in H. apply map_Forall_singleton in H.
    destruct H as (m & [= <-] & H). cbn in H. lia.
  - cbv zeta. split; [by vm_compute|].
    intros H. unfold dbInv in H. cbn in H. apply map_Forall_singleton in H.
    by destruct H as (m & [=] & H).
Qed.

(** ** Compensation *)

(** C2. When the [INSERT] of the booking is refused after the counter was
    incremented, the handler sends the decrement before the error reaches
    the caller as a 500 response: no booking row is added, the counter of
    the slot is [GREATEST(c + 1 - 1, 0)] for the value [c] read before the
    attempt, and no other slot changes. With [c >= 0], and so in every
    reachable database, the database is the one before the attempt. *)
Theorem refused_insert_is_compensated env data db slot cap :
  validateBooking data = None ->
  bookedBy db (slotId data) (sanitizeString (studentId data)) = [] ->
  slots db !! slotId data = Some slot ->
  max_capacity slot = Some cap -> current_bookings slot < cap ->
  insertRefused env db ->
  exists db',
    onRequest (postBookings env data) db
    = (Ok (json (Error "Server error") 500), db',
       (admissionTrace data slot (uuid env 0) ++ [UpdateDecrement (slotId data)])%list)
    /\ bookings db' = bookings db
    /\ slots db' !! slotId data
       = Some (setCurrent slot (Z.max (current_bookings slot) 0))
    /\ (forall other, other ≠ slotId data -> slots db' !! other = slots db !! other)
    /\ (0 <= current_bookings slot -> db' = db)
    /\ (reachable db -> db' = db).
Proof.
  intros Hv Hb Hs Hcap Hfree Hrefused.
  destruct (postBookings_compensated env data db slot cap Hv Hb Hs Hcap Hfree Hrefused)
    as [e He].
  eexists. split; [by eapply onRequest_Throw|].
  replace (current_bookings slot + 1 - 1) with (current_bookings slot) by lia.
  assert (Hback : 0 <= current_bookings slot ->
    withCurrent (withCurrent db (slotId data) slot (current_bookings slot + 1))
      (slotId data) (setCurrent slot (current_bookings slot + 1))
      (Z.max (current_bookings slot) 0) = db).
  { intros Hpos. rewrite Z.max_l by lia. by apply withCurrent_back. }
  split; [reflexivity|]. split; [|split; [|split]].
  - unfold withCurrent, setSlots. cbn. by rewrite lookup_insert_eq.
  - intros other Hother. unfold withCurrent, setSlots. cbn.
    by rewrite !lookup_insert_ne.
  - exact Hback.
  - intros Hreach. apply Hback. exact (reachable_nonneg db Hreach _ _ Hs).
Qed.

Lemma refused_insert_is_compensated_witness :
  exists db',
    onRequest (postBookings faultyEnv annReq) oneSeatDB
    = (Ok (json (Error "Server error") 500), db',
       [SelectBookingOfStudent "slot-1" "s-1001"; SelectSlot "slot-1";
        UpdateIncrement "slot-1" 0; SelectCurrentBookings "slot-1";
        InsertBooking "id-0"; UpdateDecrement "slot-1"])
    /\ db' = oneSeatDB.
Proof.
  destruct (refused_insert_is_compensated faultyEnv annReq oneSeatDB
              (mkSlot "subject-1" "2024-03-01 09:00:00" 20 (Some 1) 0 "") 1)
    as (db' & H1 & _ & _ & _ & H5 & _);
    [reflexivity|reflexivity|reflexivity|reflexivity|cbn; lia|by left|].
  exists db'. split; [exact H1|]. apply H5. cbn. lia.
Defined.

(** * Further properties of the handler *)

(** ** Validation and sanitising of strings *)

Lemma trimEnd_idem s : JS.trimEnd (JS.trimEnd s) = JS.trimEnd s.
Proof.
  induction s as [|c r IH]; [reflexivity|]. cbn [JS.trimEnd].
  destruct (JS.trimEnd r) as [|c' r'] eqn:E.
  - destruct (JS.isWhiteSpace c) eqn:Ec; [reflexivity|]. cbn. by rewrite Ec.
  - change (JS.trimEnd (String c (String c' r')))
      with (match JS.trimEnd (String c' r') with
            | EmptyString =>
                if JS.isWhiteSpace c then EmptyString else String c EmptyString
            | r0 => String c r0
            end).
    by rewrite IH.
Qed.

Lemma trimStart_head s c r :
  JS.trimStart s = String c r -> JS.isWhiteSpace c = false.
Proof.
  induction s as [|c' r' IH]; [discriminate|]. cbn.
  destruct (JS.isWhiteSpace c') eqn:E; [exact IH|]. by intros [= <- _].
Qed.

Lemma trimStart_fixed s :
  match s with String c _ => JS.isWhiteSpace c = false | EmptyString => True end ->
  JS.trimStart s = s.
Proof. destruct s as [|c r]; [done|]. cbn. by intros ->. Qed.

Lemma trimEnd_head c r :
  JS.isWhiteSpace c = false -> exists r', JS.trimEnd (String c r) = String c r'.
Proof.
  intros Hc. cbn. destruct (JS.trimEnd r); [rewrite Hc|]; eauto.
Qed.

Lemma trim_idem s : JS.trim (JS.trim s) = JS.trim s.
Proof.
  unfold JS.trim. destruct (JS.trimStart s) as [|c r] eqn:E; [reflexivity|].
  pose proof (trimStart_head _ _ _ E) as Hc.
  destruct (trimEnd_head c r Hc) as [r' Hr]. rewrite Hr.
  rewrite trimStart_fixed by exact Hc. rewrite <- Hr. apply trimEnd_idem.
Qed.

Lemma trimStart_length s : (String.length (JS.trimStart s) <= String.length s)%nat.
Proof. induction s as [|c r IH]; cbn; [lia|]. destruct (JS.isWhiteSpace c); cbn; lia. Qed.

Lemma trimEnd_length s : (String.length (JS.trimEnd s) <= String.length s)%nat.
Proof.
  induction s as [|c r IH]; cbn; [lia|].
  destruct (JS.trimEnd r); [destruct (JS.isWhiteSpace c)|]; cbn in *; lia.
Qed.

Lemma trim_length s : (String.length (JS.trim s) <= String.length s)%nat.
Proof.
  unfold JS.trim. pose proof (trimEnd_length (JS.trimStart s)).
  pose proof (trimStart_length s). lia.
Qed.

Lemma slice0_short n s : (String.length s <= n)%nat -> JS.slice0 n s = s.
Proof.
  revert n. induction s as [|c r IH]; intros [|n] H; cbn in *; try reflexivity; [lia|].
  rewrite IH; [reflexivity|lia].
Qed.

(** X1. A field that passes [validateString] with a bound of at most 255
    is stored by [sanitizeString] as its trimmed text: the stored value has
    between [minLen] and [maxLen] characters and sanitising it again
    changes nothing. *)
Theorem validated_field_is_stored_trimmed str minLen maxLen :
  validateString str minLen maxLen = true -> maxLen <= 255 ->
  sanitizeString str = JS.trim str
  /\ minLen <= JS.len (sanitizeString str) <= maxLen
  /\ sanitizeString (sanitizeString str) = sanitizeString str.
Proof.
  unfold validateString, sanitizeString, JS.len. intros Hv Hmax.
  apply andb_true_iff in Hv as [H1 H2]. apply Z.leb_le in H1, H2.
  pose proof (trim_length str) as Hl.
  assert (Hs : JS.slice0 255 (JS.trim str) = JS.trim str) by (apply slice0_short; lia).
  rewrite Hs, trim_idem, Hs. repeat split; lia.
Qed.

Lemma validated_field_is_stored_trimmed_witness :
  sanitizeString "  s-1001 " = "s-1001".
Proof.
  destruct (validated_field_is_stored_trimmed "  s-1001 " 1 100) as (H & _);
    [reflexivity|lia|]. rewrite H. reflexivity.
Defined.

Lemma append_cons c s t : String c s +:+ t = String c (s +:+ t).
Proof. reflexivity. Qed.

Lemma append_nil_r s : s +:+ "" = s.
Proof. induction s as [|c s IH]; [reflexivity|]. by rewrite append_cons, IH. Qed.

Lemma append_assoc s t u : (s +:+ t) +:+ u = s +:+ (t +:+ u).
Proof. induction s as [|c s IH]; [reflexivity|]. by rewrite !append_cons, IH. Qed.

Lemma append_length s t :
  String.length (s +:+ t) = (String.length s + String.length t)%nat.
Proof. induction s as [|c s IH]; [reflexivity|]. rewrite append_cons. cbn. by rewrite IH. Qed.

Lemma allChars_app p s t :
  JS.allChars p (s +:+ t) = JS.allChars p s && JS.allChars p t.
Proof.
  induction s as [|c s IH]; [reflexivity|]. rewrite append_cons. cbn.
  by rewrite IH, andb_assoc.
Qed.

Lemma plainRun_snoc pre c l :
  plainRun ((pre +:+ String c "") +:+ l) = plainRun (pre +:+ String c l).
Proof. by rewrite append_assoc. Qed.

(** [domainMatch] accepts what the pattern [[^\s@]+\.[^\s@]+$] matches. *)
Lemma domainMatch_spec pre s :
  domainMatch pre s = true <->
  exists d t, s = d +:+ "." +:+ t /\ plainRun (pre +:+ d) = true /\ plainRun t = true.
Proof.
  revert pre. induction s as [|c r IH]; intros pre; cbn [domainMatch].
  - split; [discriminate|]. intros (d & t & H & _). by destruct d.
  - rewrite orb_true_iff, IH. split.
    + intros [H|(d & t & -> & Hd & Ht)].
      * apply andb_true_iff in H as [H Hr]. apply andb_true_iff in H as [Hc Hp].
        apply Ascii.eqb_eq in Hc as ->. exists "", r. by rewrite append_nil_r.
      * exists (String c d), t. by rewrite <- plainRun_snoc.
    + intros (d & t & H & Hd & Ht). destruct d as [|c' d].
      * injection H as -> ->. left. rewrite append_nil_r in Hd.
        rewrite Hd. cbn. done.
      * rewrite append_cons in H. injection H as -> ->. right.
        exists d, t. by rewrite plainRun_snoc.
Qed.

Lemma plainRun_no_at s : plainRun s = true -> JS.allChars plainChar s = true.
Proof. unfold plainRun. by intros [_ ?]%andb_true_iff. Qed.

(** [emailMatch] accepts what the whole pattern matches. *)
Lemma emailMatch_spec pre s :
  JS.allChars plainChar pre = true ->
  emailMatch pre s = true <->
  exists l d t, s = l +:+ "@" +:+ d +:+ "." +:+ t
    /\ plainRun (pre +:+ l) = true /\ plainRun d = true /\ plainRun t = true.
Proof.
  revert pre. induction s as [|c r IH]; intros pre Hpre; cbn [emailMatch].
  - split; [discriminate|]. intros (l & d & t & H & _). by destruct l.
  - destruct (Ascii.eqb_spec c "@") as [->|Hc].
    + rewrite andb_true_iff, domainMatch_spec. split.
      * intros (Hp & d & t & -> & Hd & Ht). exists "", d, t.
        by rewrite append_nil_r.
      * intros (l & d & t & H & Hl & Hd & Ht). destruct l as [|c' l].
        -- injection H as ->. rewrite append_nil_r in Hl. split; [done|]. eauto.
        -- rewrite append_cons in H. injection H as <- _.
           apply plainRun_no_at in Hl. rewrite allChars_app in Hl.
           apply andb_true_iff in Hl as [_ Hl]. cbn in Hl. done.
    + assert (Hpre' : plainChar c = true ->
                JS.allChars plainChar (pre +:+ String c "") = true).
      { intros Hp. rewrite allChars_app, Hpre. cbn. by rewrite Hp. }
      split.
      * intros H. destruct (plainChar c) eqn:Hp.
        -- apply IH in H as (l & d & t & -> & Hl & Hd & Ht); [|by apply Hpre'].
           exists (String c l), d, t. by rewrite <- plainRun_snoc.
        -- exfalso. clear IH Hpre'. revert H.
           assert (Hno : forall s' p', JS.allChars plainChar p' = false ->
                     emailMatch p' s' = false).
           { clear. induction s' as [|c' r' IH']; intros p' Hp'; [reflexivity|].
             cbn. destruct (Ascii.eqb c' "@").
             - unfold plainRun. by rewrite Hp', andb_false_r.
             - apply IH'. rewrite allChars_app, Hp'. reflexivity. }
           rewrite Hno; [discriminate|]. rewrite allChars_app. cbn.
           by rewrite Hp, andb_false_r.
      * intros (l & d & t & H & Hl & Hd & Ht). destruct l as [|c' l].
        -- injection H as -> _. by destruct Hc.
        -- rewrite append_cons in H. injection H as <- ->.
           assert (Hp : plainChar c = true).
           { apply plainRun_no_at in Hl. rewrite allChars_app in Hl.
             apply andb_true_iff in Hl as [_ Hl]. cbn in Hl.
             by apply andb_true_iff in Hl as [? _]. }
           apply IH; [by apply Hpre'|]. exists l, d, t. by rewrite plainRun_snoc.
Qed.

(** X2. [validateEmail] accepts exactly the strings of at most 255
    characters of the form [local@domain.tld] whose three parts are not
    empty and contain neither white space nor [@] (the domain part may
    contain further dots). *)
Theorem validateEmail_accepts_local_at_domain email :
  validateEmail email = true <->
  JS.len email <= 255
  /\ exists l d t, email = l +:+ "@" +:+ d +:+ "." +:+ t
       /\ plainRun l = true /\ plainRun d = true /\ plainRun t = true.
Proof.
  unfold validateEmail. rewrite andb_true_iff, Z.leb_le.
  rewrite (emailMatch_spec "" email eq_refl). tauto.
Qed.

Lemma trim_no_space s :
  JS.allChars (fun c => negb (JS.isWhiteSpace c)) s = true -> JS.trim s = s.
Proof.
  intros H. unfold JS.trim.
  assert (Hs : JS.trimStart s = s).
  { destruct s as [|c r]; [reflexivity|]. cbn in *.
    apply andb_true_iff in H as [Hc _]. by destruct (JS.isWhiteSpace c). }
  rewrite Hs. clear Hs. induction s as [|c r IH]; [reflexivity|].
  cbn in *. apply andb_true_iff in H as [Hc Hr]. rewrite (IH Hr).
  destruct r; [|reflexivity]. by destruct (JS.isWhiteSpace c).
Qed.

Lemma plainRun_no_space s :
  plainRun s = true -> JS.allChars (fun c => negb (JS.isWhiteSpace c)) s = true.
Proof.
  intros H%plainRun_no_at. induction s as [|c r IH]; [reflexivity|].
  cbn in *. apply andb_true_iff in H as [Hc Hr]. rewrite (IH Hr).
  unfold plainChar in Hc. apply andb_true_iff in Hc as [-> _]. reflexivity.
Qed.

(** X3. An address that passes [validateEmail] is stored as it was sent:
    [sanitizeString] neither trims nor cuts it. *)
Theorem validated_email_is_stored_verbatim email :
  validateEmail email = true -> sanitizeString email = email.
Proof.
  intros H. apply validateEmail_accepts_local_at_domain in H
    as (Hlen & l & d & t & -> & Hl & Hd & Ht).
  unfold sanitizeString. rewrite trim_no_space.
  - apply slice0_short. unfold JS.len in Hlen. lia.
  - rewrite !allChars_app, (plainRun_no_space _ Hl), (plainRun_no_space _ Hd),
      (plainRun_no_space _ Ht). reflexivity.
Qed.

Lemma validated_email_is_stored_verbatim_witness :
  sanitizeString "ann@example.org" = "ann@example.org".
Proof. apply validated_email_is_stored_verbatim. reflexivity. Defined.

(** ** The rate limiter *)

Lemma isRateLimited_within now key maxRequests windowMs rl n r :
  rl !! key = Some (mkRate n r) -> now <= r ->
  isRateLimited now key maxRequests windowMs rl
  = (maxRequests <? n + 1, <[key := mkRate (n + 1) r]> rl).
Proof.
  intros Hk Hnow. unfold isRateLimited. rewrite Hk. cbn.
  destruct (Z.ltb_spec r now); [lia|reflexivity].
Qed.

Lemma limitAll_within key maxRequests windowMs times rl n r :
  rl !! key = Some (mkRate n r) -> Forall (fun t => t <= r) times ->
  (limitAll ((fun t => mkCall t key maxRequests windowMs) <$> times) rl).1
  = (fun k => maxRequests <? k) <$> seqZ (n + 1) (Z.of_nat (length times))
  /\ (limitAll ((fun t => mkCall t key maxRequests windowMs) <$> times) rl).2 !! key
     = Some (mkRate (n + Z.of_nat (length times)) r).
Proof.
  intros Hk Ht. revert rl n Hk. induction Ht as [|t times Hle _ IH]; intros rl n Hk.
  - cbn. rewrite Z.add_0_r. done.
  - cbn [fmap list_fmap limitAll callNow callKey callMax callWindow].
    rewrite (isRateLimited_within _ _ _ _ _ _ _ Hk Hle).
    destruct (IH (<[key:=mkRate (n + 1) r]> rl) (n + 1)) as [H1 H2];
      [by rewrite lookup_insert_eq|].
    destruct (limitAll _ _) as [bs rl'] eqn:E. cbn in *.
    rewrite H1, H2. cbn [length]. rewrite Nat2Z.inj_succ. split.
    + rewrite (seqZ_cons (n + 1)) by lia. rewrite fmap_cons.
      f_equal. rewrite Z.pred_succ.
      by replace (Z.succ (n + 1)) with (n + 1 + 1) by lia.
    + do 2 f_equal. lia.
Qed.

(** X4. From a key that has no record, or whose window has expired, the
    first request is let through and opens a window that ends [windowMs]
    later; of the requests that follow up to the end of that window, the
    one that brings the count to [k] is blocked exactly when
    [k > maxRequests]. Blocked requests are counted and leave the end of
    the window where it was. *)
Theorem rate_limit_counts_within_window now key maxRequests windowMs times rl :
  match rl !! key with Some record => resetAt record < now | None => True end ->
  Forall (fun t => t <= now + windowMs) times ->
  let calls := (fun t => mkCall t key maxRequests windowMs) <$> (now :: times) in
  (limitAll calls rl).1
  = false :: ((fun k => maxRequests <? k) <$> seqZ 2 (Z.of_nat (length times)))
  /\ (limitAll calls rl).2 !! key
     = Some (mkRate (1 + Z.of_nat (length times)) (now + windowMs)).
Proof.
  intros Hfirst Ht calls. subst calls.
  cbn [fmap list_fmap limitAll callNow callKey callMax callWindow].
  assert (Hstep : isRateLimited now key maxRequests windowMs rl
                  = (false, <[key := mkRate 1 (now + windowMs)]> rl)).
  { unfold isRateLimited. destruct (rl !! key) as [record|]; [|reflexivity].
    destruct (Z.ltb_spec (resetAt record) now); [reflexivity|lia]. }
  rewrite Hstep.
  destruct (limitAll_within key maxRequests windowMs times
              (<[key := mkRate 1 (now + windowMs)]> rl) 1 (now + windowMs))
    as [H1 H2]; [by rewrite lookup_insert_eq|exact Ht|].
  destruct (limitAll _ _) as [bs rl'] eqn:E. cbn in *. by rewrite H1, H2.
Qed.

Lemma rate_limit_counts_within_window_witness :
  (limitAll ((fun t => mkCall t "login:10.0.0.1" 2 60000) <$> [1000; 1500; 2000; 61000]) ∅).1
  = [false; false; true; true].
Proof.
  refine (proj1 (rate_limit_counts_within_window 1000 "login:10.0.0.1" 2 60000
                   [1500; 2000; 61000] ∅ _ _)).
  - exact I.
  - repeat constructor; lia.
Defined.

Lemma isRateLimited_rateStep now key maxRequests windowMs rl :
  isRateLimited now key maxRequests windowMs rl
  = ((rateStep now maxRequests windowMs (rl !! key)).1,
     <[key := (rateStep now maxRequests windowMs (rl !! key)).2]> rl).
Proof.
  unfold isRateLimited, rateStep. destruct (rl !! key) as [record|]; [|reflexivity].
  by destruct (resetAt record <? now).
Qed.

Lemma limitAll_agree key calls rl1 rl2 :
  rl1 !! key = rl2 !! key ->
  answersFor key calls (limitAll calls rl1).1
  = (limitAll (filter (fun c => callKey c = key) calls) rl2).1
  /\ (limitAll calls rl1).2 !! key
     = (limitAll (filter (fun c => callKey c = key) calls) rl2).2 !! key.
Proof.
  revert rl1 rl2. induction calls as [|c rest IH]; intros rl1 rl2 Hk; [done|].
  cbn [limitAll]. rewrite isRateLimited_rateStep. rewrite filter_cons.
  destruct (decide (callKey c = key)) as [Hc|Hc].
  - cbn [limitAll]. rewrite isRateLimited_rateStep. rewrite Hc, Hk.
    set (st := rateStep _ _ _ (rl2 !! key)).
    destruct (IH (<[key:=st.2]> rl1) (<[key:=st.2]> rl2)) as [H1 H2];
      [by rewrite !lookup_insert_eq|].
    destruct (limitAll rest (<[key:=st.2]> rl1)) as [bs1 r1].
    destruct (limitAll (filter _ rest) (<[key:=st.2]> rl2)) as [bs2 r2].
    cbn in *. split; [|exact H2]. unfold answersFor in *.
    rewrite decide_True by exact Hc. rewrite fmap_cons. cbn [snd].
    f_equal. exact H1.
  - destruct (IH (<[callKey c:=(rateStep (callNow c) (callMax c) (callWindow c)
                                   (rl1 !! callKey c)).2]> rl1) rl2) as [H1 H2];
      [by rewrite lookup_insert_ne|].
    destruct (limitAll rest _) as [bs1 r1].
    destruct (limitAll (filter _ rest) rl2) as [bs2 r2].
    cbn in *. split; [|exact H2]. unfold answersFor in *.
    rewrite decide_False by exact Hc. exact H1.
Qed.

(** X5. The keys of the limiter do not interfere: in any sequence of
    calls, the answers given to one key and the record left for it are
    those of the calls of that key alone. *)
Theorem rate_limit_keys_are_independent key calls rl :
  answersFor key calls (limitAll calls rl).1
  = (limitAll (filter (fun c => callKey c = key) calls) rl).1
  /\ (limitAll calls rl).2 !! key
     = (limitAll (filter (fun c => callKey c = key) calls) rl).2 !! key.
Proof. by apply limitAll_agree. Qed.

(** ** The CORS origin *)

Lemma split_head sep s : exists h t, JS.split sep s = h :: t.
Proof.
  induction s as [|c r (h & t & IH)]; cbn; [eauto|].
  destruct (Ascii.eqb c sep); [eauto|]. rewrite IH. eauto.
Qed.

(** X6. With a configured list of origins other than ["*"], the origin
    that the responses carry is always an entry of the list: the origin of
    the request when it is an entry, the first entry otherwise. Without a
    configuration, or with ["*"], it is ["*"]. *)
Theorem cors_origin_is_a_configured_entry originHeader ALLOWED_ORIGIN :
  let allowed := JS.orElse ALLOWED_ORIGIN "*" in
  let origin := JS.orElse originHeader "" in
  (allowed = "*" -> getCorsOrigin originHeader ALLOWED_ORIGIN = "*")
  /\ (allowed ≠ "*" ->
      getCorsOrigin originHeader ALLOWED_ORIGIN ∈ JS.split "," allowed
      /\ (origin ∈ JS.split "," allowed ->
          getCorsOrigin originHeader ALLOWED_ORIGIN = origin)
      /\ (origin ∉ JS.split "," allowed ->
          head (JS.split "," allowed)
          = Some (getCorsOrigin originHeader ALLOWED_ORIGIN))).
Proof.
  intros allowed origin. unfold getCorsOrigin. fold allowed origin. split.
  - intros H. by rewrite H.
  - intros Hne. destruct (String.eqb_spec allowed "*") as [?|_]; [done|].
    destruct (split_head "," allowed) as (h & t & Hs).
    destruct (decide (origin ∈ JS.split "," allowed)) as [Hin|Hout].
    + rewrite bool_decide_eq_true_2 by exact Hin. done.
    + rewrite bool_decide_eq_false_2 by exact Hout. rewrite Hs in *.
      cbn [head default]. split; [apply list_elem_of_here|]. done.
Qed.

Lemma cors_origin_is_a_configured_entry_witness :
  getCorsOrigin (Some "https://evil.example") (Some "https://a.example,https://b.example")
  ∈ ["https://a.example"; "https://b.example"].
Proof.
  apply (proj2 (cors_origin_is_a_configured_entry (Some "https://evil.example")
                  (Some "https://a.example,https://b.example"))).
  discriminate.
Defined.

(** ** Shape of the slots of a window *)





(** ** The slots of a window without a lunch break *)







(** ** The days of the recurring walk *)

Lemma gregorianDays_range y m : 28 <= gregorianDays y m <= 31.
Proof.
  unfold gregorianDays. destruct (m =? 2); [destruct (gregorianLeap y); lia|].
  destruct (_ || _); lia.
Qed.

Lemma nextDay_valid dt : validDate dt -> validDate (nextDay dt).
Proof.
  destruct dt as [y m d]. unfold validDate, nextDay. cbn [year month day].
  intros (Hy & Hm & Hd).
  destruct (Z.ltb_spec d (gregorianDays y m)); cbn [year month day]; [lia|].
  destruct (Z.ltb_spec m 12); cbn [year month day].
  - pose proof (gregorianDays_range y (m + 1)). lia.
  - pose proof (gregorianDays_range (y + 1) 1). lia.
Qed.

Lemma nextDay_ord dt : validDate dt -> dateOrd dt < dateOrd (nextDay dt).
Proof.
  destruct dt as [y m d]. unfold validDate, nextDay, dateOrd. cbn [year month day].
  intros (Hy & Hm & Hd). pose proof (gregorianDays_range y m).
  destruct (Z.ltb_spec d (gregorianDays y m)); cbn [year month day]; [lia|].
  destruct (Z.ltb_spec m 12); cbn [year month day]; lia.
Qed.

Lemma compareDates_year a b : compareDates a b <= 0 -> year a <= year b.
Proof.
  unfold compareDates. destruct (Z.eqb_spec (year a) (year b)); cbn [negb]; lia.
Qed.

Lemma dateWalk_run days end' F k :
  (2 <= F)%nat ->
  forall cur acc f,
  validDate cur ->
  (Z.to_nat (372 * year end' + 404 - dateOrd cur) <= k)%nat -> (k < f)%nat ->
  exists n,
    loop (dateWalk_cond end') (dateWalk_body F days) f (cur, acc)
    = Some (dayAfter n cur,
            (acc ++ (formatDate <$> List.filter (wantedDate days) (daysFrom n cur)))%list)
    /\ Forall (fun d => compareDates d end' <= 0) (daysFrom n cur)
    /\ 0 < compareDates (dayAfter n cur) end'.
Proof.
  intros HF. induction k as [|k IH]; intros cur acc f Hv Hk Hf.
  - destruct f as [|f]; [lia|]. cbn [loop]. unfold dateWalk_cond at 1. cbn [fst].
    destruct (Z.leb_spec (compareDates cur end') 0) as [Hc|Hc].
    + apply compareDates_year in Hc. destruct Hv as (Hy & Hm & Hd).
      pose proof (gregorianDays_range (year cur) (month cur)).
      unfold dateOrd in Hk. lia.
    + exists 0%nat. cbn. rewrite app_nil_r. split; [done|]. split; [constructor|lia].
  - destruct f as [|f]; [lia|]. cbn [loop]. unfold dateWalk_cond at 1. cbn [fst].
    destruct (Z.leb_spec (compareDates cur end') 0) as [Hc|Hc].
    + unfold dateWalk_body at 1. cbn [fst snd].
      rewrite (addDays_nextDay F cur Hv HF).
      pose proof (nextDay_ord cur Hv) as Ho.
      destruct (IH (nextDay cur)
                  (if dayWanted days (getDayOfWeek (year cur) (month cur) (day cur))
                   then (acc ++ [formatDate cur])%list else acc) f)
        as (n & Hrun & Hall & Hend); [by apply nextDay_valid|lia|lia|].
      exists (S n). cbn [dayAfter daysFrom List.filter]. rewrite Hrun.
      split; [|split; [by constructor|exact Hend]].
      do 2 f_equal. unfold wantedDate at 2.
      destruct (dayWanted days _); [|done].
      by rewrite fmap_cons, <- app_assoc.
    + exists 0%nat. cbn. rewrite app_nil_r. split; [done|]. split; [constructor|lia].
Qed.

(** X9. The recurring walk from a valid start date ends, within
    [datesFuel] tests of its condition, and pushes the wanted days among
    the days of the Gregorian calendar from the start on, in order, each
    formatted once: all the days up to the first one that [compareDates]
    places after the end date. *)
Theorem recurring_walk_lists_the_wanted_days fuel days start end' :
  validDate start -> (datesFuel start end' <= fuel)%nat ->
  exists n,
    walkDates fuel days start end'
    = Some (formatDate <$> List.filter (wantedDate days) (daysFrom n start))
    /\ Forall (fun d => compareDates d end' <= 0) (daysFrom n start)
    /\ 0 < compareDates (dayAfter n start) end'.
Proof.
  intros Hv Hf. unfold datesFuel in Hf.
  destruct (dateWalk_run days end' fuel
              (Z.to_nat (372 * (year end' - year start + 1))) ltac:(lia)
              start [] fuel Hv) as (n & Hrun & Hall & Hend).
  - destruct Hv as (Hy & Hm & Hd). unfold dateOrd. lia.
  - lia.
  - exists n. unfold walkDates. rewrite Hrun. cbn. auto.
Qed.

Lemma recurring_walk_lists_the_wanted_days_witness :
  exists n,
    walkDates 400 (Some [1; 3]) (mkDate 2024 2 26) (mkDate 2024 3 1)
    = Some (formatDate <$> List.filter (wantedDate (Some [1; 3]))
                             (daysFrom n (mkDate 2024 2 26)))
    /\ Forall (fun d => compareDates d (mkDate 2024 3 1) <= 0)
              (daysFrom n (mkDate 2024 2 26))
    /\ 0 < compareDates (dayAfter n (mkDate 2024 2 26)) (mkDate 2024 3 1).
Proof.
  apply (recurring_walk_lists_the_wanted_days 400 (Some [1; 3])
           (mkDate 2024 2 26) (mkDate 2024 3 1)).
  - vm_compute. intuition discriminate.
  - vm_compute. lia.
Defined.

(** ** A start date outside the calendar *)

Lemma addDays_month_above_12 F y m d r :
  12 < m -> addDays F y m d 1 = Some r -> r = mkDate y m (d + 1).
Proof.
  intros Hm. unfold addDays. destruct F as [|F]; [discriminate|]. cbn [loop].
  unfold addDays_cond at 1. cbn [a_daysInMonth a_month a_day].
  assert (Hat : forall arr, length arr = 13%nat -> at_ arr m = None).
  { intros arr Hl. unfold at_. destruct (Z.ltb_spec m 0); [done|].
    apply lookup_ge_None_2. lia. }
  rewrite Hat; [by intros [= <-]|]. by destruct (isLeapYear y).
Qed.

Lemma walkDates_month_above_12 fuel days start end' :
  12 < month start -> year start < year end' ->
  walkDates fuel days start end' = None.
Proof.
  intros Hm Hy. unfold walkDates.
  rewrite (loop_diverges (dateWalk_cond end') (dateWalk_body fuel days)
             (fun st => year st.1 = year start /\ month st.1 = month start));
    [done| |done].
  intros [cur acc] [Hcy Hcm]. cbn [fst] in *. split.
  - unfold dateWalk_cond, compareDates. cbn [fst].
    destruct (Z.eqb_spec (year cur) (year end')); cbn [negb]; [lia|].
    apply Z.leb_le. lia.
  - intros s'. unfold dateWalk_body. cbn [fst snd].
    destruct (addDays fuel (year cur) (month cur) (day cur) 1) as [next|] eqn:E;
      [|discriminate].
    apply addDays_month_above_12 in E; [|lia]. subst next. intros [= <-].
    cbn. auto.
Qed.

(** X10. A recurring request whose start date has a month above 12 (the
    pattern of [parseDateStr] accepts any two digits) and whose end date
    lies in a later year is never answered: [addDays] finds no length for
    the month and only counts the day up, so the date stays before the
    end and the walk does not end, whatever the fuel. No check of the
    handler refuses such a start date. *)
Theorem recurring_walk_from_month_above_12_never_ends req sd ed start end' :
  dates req = None \/ dates req = Some [] ->
  startDate req = Some sd -> parseDateStr sd = Some start ->
  endDate req = Some ed -> parseDateStr ed = Some end' ->
  12 < month start -> year start < year end' ->
  forall fuel, resolveDates fuel req = None
               /\ (validateString (subjectId req) 1 36 = true ->
                   expand fuel req = None).
Proof.
  intros Hd Hsd Hs Hed He Hm Hy fuel.
  assert (Hr : resolveDates fuel req = None).
  { unfold resolveDates.
    destruct Hd as [-> | ->]; rewrite Hsd, Hed, (parseDateStr_truthy _ _ Hs),
      (parseDateStr_truthy _ _ He), Hs, He;
      by rewrite walkDates_month_above_12. }
  split; [exact Hr|]. intros Hv. unfold expand. by rewrite Hv, Hr.
Qed.

Lemma recurring_walk_from_month_above_12_never_ends_witness :
  resolveDates 1000 month13Req = None
  /\ (validateString (subjectId month13Req) 1 36 = true ->
      expand 1000 month13Req = None).
Proof.
  apply (recurring_walk_from_month_above_12_never_ends month13Req
           "2024-13-01" "2025-01-01" (mkDate 2024 13 1) (mkDate 2025 1 1));
    [by left|reflexivity|reflexivity|reflexivity|reflexivity|cbn; lia|cbn; lia].
Defined.

(** ** Renderings that are read back *)

Lemma pad2_Number_checked :
  Forall (fun n => twoDigits (JS.pad2 n) = true /\ JS.Number (JS.pad2 n) = Some n)
         (seqZ 0 100).
Proof. apply (bool_decide_unpack _). by vm_compute. Qed.

Lemma isDigit_not_colon a : JS.isDigit a = true -> Ascii.eqb a ":" = false.
Proof.
  destruct (Ascii.eqb_spec a ":") as [->|]; [by vm_compute|done].
Qed.

Lemma clock_string_parts hs ms :
  twoDigits hs = true -> twoDigits ms = true ->
  parseTimeToMinutes (hs +:+ ":" +:+ ms +:+ ":00")
  = match JS.Number hs, JS.Number ms with
    | Some h, Some m => Some (h * 60 + m)
    | _, _ => None
    end
  /\ String.length (hs +:+ ":" +:+ ms +:+ ":00") = 8%nat
  /\ JS.allChars dateChar (hs +:+ ":" +:+ ms +:+ ":00") = true.
Proof.
  destruct hs as [|a [|b [|? ?]]]; try discriminate.
  destruct ms as [|c [|d [|? ?]]]; try discriminate.
  cbn [twoDigits forallb]. intros Hh Hm.
  apply andb_prop in Hh as [Ha Hb]. apply andb_prop in Hb as [Hb _].
  apply andb_prop in Hm as [Hc Hd]. apply andb_prop in Hd as [Hd _].
  cbv [String.app]. split; [|split; [reflexivity|]].
  - unfold parseTimeToMinutes. cbn [JS.split].
    rewrite (isDigit_not_colon a Ha), (isDigit_not_colon b Hb),
      (isDigit_not_colon c Hc), (isDigit_not_colon d Hd).
    change (Ascii.eqb ":" ":") with true. cbn iota.
    change (Ascii.eqb "0" ":") with false. cbn iota.
    cbn [fmap list_fmap].
    by destruct (JS.Number (String a (String b EmptyString))),
                (JS.Number (String c (String d EmptyString))).
  - cbn [JS.allChars]. unfold dateChar. rewrite Ha, Hb, Hc, Hd. reflexivity.
Qed.

Lemma minutesToTimeStr_checked :
  Forall (fun m => parseTimeToMinutes (minutesToTimeStr m) = Some m
                   /\ String.length (minutesToTimeStr m) = 8%nat)
         (seqZ 0 6000).
Proof.
  apply Forall_forall. intros m Hm. apply elem_of_seqZ in Hm.
  assert (Hh := proj1 (Forall_forall _ _) pad2_Number_checked (m / 60)
                  ltac:(apply elem_of_seqZ; Z.to_euclidean_division_equations; lia)).
  assert (Hr := proj1 (Forall_forall _ _) pad2_Number_checked (Z.rem m 60)
                  ltac:(apply elem_of_seqZ; Z.to_euclidean_division_equations; lia)).
  cbv beta in Hh, Hr. destruct Hh as [Hh2 Hhv], Hr as [Hr2 Hrv].
  unfold minutesToTimeStr.
  destruct (clock_string_parts _ _ Hh2 Hr2) as (Hp & Hl & _).
  rewrite Hp, Hhv, Hrv. split; [|exact Hl]. f_equal.
  Z.to_euclidean_division_equations; lia.
Qed.

(** X11. The clock string of a slot is read back by [parseTimeToMinutes]
    as the minute it was made from, for every minute below 100 hours; it
    has eight characters; so different start minutes never give the same
    clock string. *)
Theorem clock_string_round_trip m :
  0 <= m < 6000 ->
  parseTimeToMinutes (minutesToTimeStr m) = Some m
  /\ String.length (minutesToTimeStr m) = 8%nat
  /\ forall m', 0 <= m' < 6000 ->
       minutesToTimeStr m = minutesToTimeStr m' -> m = m'.
Proof.
  intros Hm.
  assert (H : forall x, 0 <= x < 6000 ->
            parseTimeToMinutes (minutesToTimeStr x) = Some x
            /\ String.length (minutesToTimeStr x) = 8%nat).
  { intros x Hx. apply (proj1 (Forall_forall _ _) minutesToTimeStr_checked).
    apply elem_of_seqZ. lia. }
  destruct (H m Hm) as [Hp Hl]. split; [exact Hp|]. split; [exact Hl|].
  intros m' Hm' E. destruct (H m' Hm') as [Hp' _]. rewrite E in Hp. congruence.
Qed.

Lemma clock_string_round_trip_witness :
  parseTimeToMinutes (minutesToTimeStr 545) = Some 545
  /\ String.length (minutesToTimeStr 545) = 8%nat
  /\ forall m', 0 <= m' < 6000 ->
       minutesToTimeStr 545 = minutesToTimeStr m' -> 545 = m'.
Proof. apply (clock_string_round_trip 545). lia. Defined.

Lemma ofZ_year_checked :
  Forall (fun y => fourDigits (JS.ofZ y) = true /\ JS.parseIntDigits (JS.ofZ y) = y)
         (seqZ 1000 9000).
Proof. apply (bool_decide_unpack _). by vm_compute. Qed.

Lemma ofZ_short_checked :
  Forall (fun y => atMostThree (JS.ofZ y) = true) (seqZ 0 1000).
Proof. apply (bool_decide_unpack _). by vm_compute. Qed.

Lemma pad2_checked :
  Forall (fun n => twoDigits (JS.pad2 n) = true /\ JS.parseIntDigits (JS.pad2 n) = n)
         (seqZ 0 100).
Proof. apply (bool_decide_unpack _). by vm_compute. Qed.

Lemma parseDateStr_digits ys ms ds :
  fourDigits ys = true -> twoDigits ms = true -> twoDigits ds = true ->
  parseDateStr (ys +:+ "-" +:+ ms +:+ "-" +:+ ds)
  = Some (mkDate (JS.parseIntDigits ys) (JS.parseIntDigits ms) (JS.parseIntDigits ds)).
Proof.
  destruct ys as [|y1 [|y2 [|y3 [|y4 [|? ?]]]]]; try discriminate.
  destruct ms as [|m1 [|m2 [|? ?]]]; try discriminate.
  destruct ds as [|d1 [|d2 [|? ?]]]; try discriminate.
  cbn [fourDigits twoDigits forallb]. intros Hy Hm Hd.
  cbv [String.app]. cbn [parseDateStr forallb].
  repeat match goal with
  | H : _ && _ = true |- _ => apply andb_prop in H as [? H]
  end.
  repeat match goal with H : JS.isDigit _ = true |- _ => rewrite H; clear H end.
  reflexivity.
Qed.

Lemma parseDateStr_short ys ms ds :
  atMostThree ys = true -> twoDigits ms = true -> twoDigits ds = true ->
  parseDateStr (ys +:+ "-" +:+ ms +:+ "-" +:+ ds) = None.
Proof.
  destruct ms as [|m1 [|m2 [|? ?]]]; try discriminate.
  destruct ds as [|d1 [|d2 [|? ?]]]; try discriminate.
  cbn [twoDigits forallb]. intros Hy Hm Hd.
  apply andb_prop in Hm as [Hm1 Hm2]. apply andb_prop in Hm2 as [Hm2 _].
  apply andb_prop in Hd as [Hd1 _].
  destruct ys as [|y1 [|y2 [|y3 [|? ?]]]]; try discriminate; cbv [String.app].
  - destruct d1 as [[] [] [] [] [] [] [] []]; try (by vm_compute in Hd1);
      reflexivity.
  - reflexivity.
  - destruct m2 as [[] [] [] [] [] [] [] []]; try (by vm_compute in Hm2);
      reflexivity.
  - destruct m1 as [[] [] [] [] [] [] [] []]; try (by vm_compute in Hm1);
      reflexivity.
Qed.

(** X12. The date string that the recurring walk pushes is read back by
    [parseDateStr] as the date it was made from when the year has four
    digits (month and day below 100). The year is written without leading
    zeros: for a year below 1000 the string pushed is not a date for
    [parseDateStr]. *)
Theorem date_string_round_trip d :
  0 <= month d < 100 -> 0 <= day d < 100 ->
  (1000 <= year d < 10000 -> parseDateStr (formatDate d) = Some d)
  /\ (0 <= year d < 1000 -> parseDateStr (formatDate d) = None).
Proof.
  destruct d as [y m dd]. cbn [year month day]. intros Hm Hd.
  unfold formatDate. cbn [year month day]. split; intros Hy.
  - assert (Hyc := proj1 (Forall_forall _ _) ofZ_year_checked y
                     ltac:(apply elem_of_seqZ; lia)).
    assert (Hmc := proj1 (Forall_forall _ _) pad2_checked m
                     ltac:(apply elem_of_seqZ; lia)).
    assert (Hdc := proj1 (Forall_forall _ _) pad2_checked dd
                     ltac:(apply elem_of_seqZ; lia)).
    cbv beta in Hyc, Hmc, Hdc.
    destruct Hyc as [Hy4 Hyv], Hmc as [Hm2 Hmv], Hdc as [Hd2 Hdv].
    rewrite parseDateStr_digits by done. by rewrite Hyv, Hmv, Hdv.
  - assert (Hyc := proj1 (Forall_forall _ _) ofZ_short_checked y
                     ltac:(apply elem_of_seqZ; lia)).
    assert (Hmc := proj1 (Forall_forall _ _) pad2_checked m
                     ltac:(apply elem_of_seqZ; lia)).
    assert (Hdc := proj1 (Forall_forall _ _) pad2_checked dd
                     ltac:(apply elem_of_seqZ; lia)).
    cbv beta in Hyc, Hmc, Hdc.
    apply parseDateStr_short; [exact Hyc|apply Hmc|apply Hdc].
Qed.

Lemma date_string_round_trip_witness :
  parseDateStr (formatDate (mkDate 2024 2 29)) = Some (mkDate 2024 2 29)
  /\ parseDateStr (formatDate (mkDate 999 2 29)) = None.
Proof.
  split.
  - apply (date_string_round_trip (mkDate 2024 2 29)); cbn; lia.
  - apply (date_string_round_trip (mkDate 999 2 29)); cbn; lia.
Defined.

(** ** The batches of the generated rows *)

Lemma batches_nil {A} : batches (@nil A) = [].
Proof. reflexivity. Qed.

Lemma batches_cons {A} (l : list A) :
  l <> [] -> batches l = take BATCH_SIZE l :: batches (drop BATCH_SIZE l).
Proof.
  intros Hne. unfold batches. rewrite length_drop.
  assert (Hl : (0 < length l)%nat) by (destruct l; [done|cbn; lia]).
  assert (E : ((length l + BATCH_SIZE - 1) / BATCH_SIZE
               = S ((length l - BATCH_SIZE + BATCH_SIZE - 1) / BATCH_SIZE))%nat).
  { unfold BATCH_SIZE.
    pose proof (Nat.div_mod_eq (length l + 50 - 1) 50).
    pose proof (Nat.mod_upper_bound (length l + 50 - 1) 50 ltac:(lia)).
    pose proof (Nat.div_mod_eq (length l - 50 + 50 - 1) 50).
    pose proof (Nat.mod_upper_bound (length l - 50 + 50 - 1) 50 ltac:(lia)).
    lia. }
  rewrite E. cbn [seq fmap list_fmap]. f_equal.
  rewrite <- fmap_S_seq, <- list_fmap_compose.
  apply list_fmap_ext. intros _ k _. cbn [compose]. rewrite drop_drop.
  first [reflexivity | do 2 f_equal; lia].
Qed.

Lemma batches_spec {A} n : forall l : list A,
  (length l <= n)%nat ->
  concat (batches l) = l
  /\ Forall (fun b => (0 < length b <= BATCH_SIZE)%nat) (batches l)
  /\ (forall i b, batches l !! i = Some b -> (S i < length (batches l))%nat ->
        length b = BATCH_SIZE).
Proof.
  induction n as [|n IH]; intros l Hl.
  - destruct l; [|cbn in Hl; lia]. rewrite batches_nil. split; [done|].
    split; [constructor|]. intros i b H. done.
  - destruct l as [|a l]; [rewrite batches_nil; split; [done|]; split;
      [constructor|by intros i b H]|].
    rewrite batches_cons by done.
    destruct (IH (drop BATCH_SIZE (a :: l))) as (Hc & Hf & Hfull).
    { rewrite length_drop. cbn [length] in *. unfold BATCH_SIZE. lia. }
    split; [|split].
    + cbn [concat]. rewrite Hc. apply take_drop.
    + constructor; [|exact Hf]. rewrite length_take. cbn [length].
      unfold BATCH_SIZE. lia.
    + intros [|i] b; cbn [lookup list_lookup length].
      * intros [= <-] Hi.
        destruct (drop BATCH_SIZE (a :: l)) as [|x xs] eqn:Ed;
          [rewrite batches_nil in Hi; cbn in Hi; lia|].
        assert (Hd : (0 < length (drop BATCH_SIZE (a :: l)))%nat)
          by (rewrite Ed; cbn; lia).
        rewrite length_drop in Hd. cbn [length] in Hd |- *.
        rewrite length_take. unfold BATCH_SIZE in *. lia.
      * intros Hb Hi. apply (Hfull i b Hb). lia.
Qed.

(** X13. The batches of the multi-row [INSERT]s split the generated rows
    without losing, repeating or reordering any: their concatenation is
    the list of rows; no batch is empty or has more than 50 rows, and
    every batch but the last has exactly 50. *)
Theorem batches_partition_the_rows {A} (rows : list A) :
  concat (batches rows) = rows
  /\ Forall (fun b => (0 < length b <= BATCH_SIZE)%nat) (batches rows)
  /\ (forall i b, batches rows !! i = Some b ->
        (S i < length (batches rows))%nat -> length b = BATCH_SIZE).
Proof. by apply (batches_spec (length rows)). Qed.

(** ** The rows that the batches leave in the table *)

Lemma addRows_app m rows rows' :
  addRows m (rows ++ rows')%list = addRows (addRows m rows) rows'.
Proof. unfold addRows. apply foldl_app. Qed.

Lemma addRows_other m rows k :
  k ∉ rows.*1 -> addRows m rows !! k = m !! k.
Proof.
  revert m. induction rows as [|[i s] rows IH]; intros m Hk; [done|].
  cbn in Hk. apply not_elem_of_cons in Hk as [Hne Hk].
  change (addRows m ((i, s) :: rows)) with (addRows (<[i := s]> m) rows).
  rewrite IH by done. by rewrite lookup_insert_ne.
Qed.

Lemma addRows_lookup m rows n i s :
  NoDup rows.*1 -> rows !! n = Some (i, s) -> addRows m rows !! i = Some s.
Proof.
  revert m n. induction rows as [|[j t] rows IH]; intros m n Hnd Hn; [done|].
  cbn in Hnd. apply NoDup_cons in Hnd as [Hj Hnd].
  change (addRows m ((j, t) :: rows)) with (addRows (<[j := t]> m) rows).
  destruct n as [|n]; cbn in Hn.
  - injection Hn as -> ->. rewrite addRows_other by done. apply lookup_insert_eq.
  - by apply (IH _ n).
Qed.

Lemma insertSlots_accepts rows db :
  NoDup rows.*1 -> Forall (fun i => slots db !! i = None) rows.*1 ->
  insertSlots rows db
  = (Ok (), setSlots db (addRows (slots db) rows), [InsertSlots rows.*1]).
Proof.
  intros Hnd Hf. unfold insertSlots, stmt.
  by rewrite bool_decide_eq_true_2.
Qed.

Lemma insertSlots_refuses rows db :
  ~ (NoDup rows.*1 /\ Forall (fun i => slots db !! i = None) rows.*1) ->
  exists e, insertSlots rows db = (Throw e, db, [InsertSlots rows.*1]).
Proof.
  intros Hn. unfold insertSlots, stmt. rewrite bool_decide_eq_false_2 by done.
  eauto.
Qed.

Lemma setSlots_setSlots db m m' : setSlots (setSlots db m) m' = setSlots db m'.
Proof. reflexivity. Qed.

Lemma setSlots_same db : setSlots db (slots db) = db.
Proof. by destruct db. Qed.

Lemma insertBatches_accepts bs : forall db,
  NoDup (concat bs).*1 -> Forall (fun i => slots db !! i = None) (concat bs).*1 ->
  insertBatches bs db
  = (Ok (), setSlots db (addRows (slots db) (concat bs)),
     (fun b : list (string * Slot) => InsertSlots b.*1) <$> bs).
Proof.
  induction bs as [|b bs IH]; intros db Hnd Hf.
  - cbn. by rewrite setSlots_same.
  - cbn [concat] in Hnd, Hf. rewrite fmap_app in Hnd, Hf.
    apply NoDup_app in Hnd as (Hb & Hdis & Hbs).
    apply Forall_app in Hf as [Hfb Hfbs].
    cbn [insertBatches]. unfold mbind, M_bind.
    rewrite insertSlots_accepts by done.
    rewrite IH; [|done|].
    + cbn [concat fmap list_fmap app]. rewrite addRows_app. reflexivity.
    + apply Forall_forall. intros i Hi. cbn [slots setSlots].
      rewrite addRows_other; [by apply (proj1 (Forall_forall _ _) Hfbs)|].
      intros Hin. by apply (Hdis i).
Qed.

Lemma imap_withId_ids env rows k :
  (imap (fun n => withId env (k + n)) rows).*1 = uuid env <$> seq k (length rows).
Proof.
  revert k. induction rows as [|g rows IH]; intros k; [done|].
  cbn [imap fmap list_fmap length seq]. f_equal; [by rewrite Nat.add_0_r|].
  rewrite <- (IH (S k)). f_equal. apply imap_ext. intros n x _. cbn.
  by rewrite Nat.add_succ_r.
Qed.

Lemma generated_ids env rows :
  (concat (generatedBatches env rows)).*1 = drawnIds env (length rows).
Proof.
  unfold generatedBatches, drawnIds.
  rewrite (proj1 (batches_spec _ _ (Nat.le_refl _))).
  exact (imap_withId_ids env rows 0).
Qed.

(** X14. When the ids drawn for the rows of a generate request are
    pairwise different and none is in the table, every batch is accepted:
    the answer is the number of rows with status 200, each row is found
    under the id drawn for it, every other id of the table keeps its row,
    and no booking is touched. *)
Theorem generated_rows_are_stored_under_their_ids env rows db :
  NoDup (drawnIds env (length rows)) ->
  Forall (fun i => slots db !! i = None) (drawnIds env (length rows)) ->
  exists db',
    onRequest (insertGenerated env rows) db
    = (Ok (json (SuccessCount (Z.of_nat (length rows))) 200), db',
       (fun b : list (string * Slot) => InsertSlots b.*1)
         <$> generatedBatches env rows)
    /\ bookings db' = bookings db
    /\ (forall n g, rows !! n = Some g ->
          slots db' !! uuid env n = Some (withId env n g).2)
    /\ (forall i, i ∉ drawnIds env (length rows) ->
          slots db' !! i = slots db !! i).
Proof.
  intros Hnd Hf. rewrite <- generated_ids in Hnd, Hf.
  exists (setSlots db (addRows (slots db) (concat (generatedBatches env rows)))).
  split; [|split; [|split]].
  - apply onRequest_Ok. unfold insertGenerated, mbind, M_bind.
    fold (generatedBatches env rows).
    rewrite insertBatches_accepts by done. cbn. by rewrite app_nil_r.
  - reflexivity.
  - intros n g Hg. cbn [slots setSlots].
    apply (addRows_lookup _ _ n); [exact Hnd|].
    unfold generatedBatches.
    rewrite (proj1 (batches_spec _ _ (Nat.le_refl _))).
    rewrite list_lookup_imap, Hg. reflexivity.
  - intros i Hi. cbn [slots setSlots]. apply addRows_other.
    by rewrite generated_ids.
Qed.

Lemma generated_rows_are_stored_under_their_ids_witness :
  exists db',
    onRequest (insertGenerated sampleEnv leapDayRows) emptyDB
    = (Ok (json (SuccessCount (Z.of_nat (length leapDayRows))) 200), db',
       (fun b : list (string * Slot) => InsertSlots b.*1)
         <$> generatedBatches sampleEnv leapDayRows)
    /\ bookings db' = bookings emptyDB
    /\ (forall n g, leapDayRows !! n = Some g ->
          slots db' !! uuid sampleEnv n = Some (withId sampleEnv n g).2)
    /\ (forall i, i ∉ drawnIds sampleEnv (length leapDayRows) ->
          slots db' !! i = slots emptyDB !! i).
Proof.
  apply (generated_rows_are_stored_under_their_ids sampleEnv leapDayRows emptyDB).
  - apply (bool_decide_unpack _). by vm_compute.
  - apply (bool_decide_unpack _). by vm_compute.
Defined.

Lemma insertBatches_prefix bs : forall db,
  exists k, (k <= length bs)%nat
    /\ (insertBatches bs db).1.2
       = setSlots db (addRows (slots db) (concat (take k bs)))
    /\ (insertBatches bs db).2
       = (fun b : list (string * Slot) => InsertSlots b.*1)
           <$> take (S k) bs
    /\ ((insertBatches bs db).1.1 = Ok () /\ k = length bs
        \/ (exists e, (insertBatches bs db).1.1 = Throw e) /\ (k < length bs)%nat).
Proof.
  induction bs as [|b bs IH]; intros db.
  - exists 0%nat. cbn. rewrite setSlots_same.
    split; [lia|]. split; [done|]. split; [done|]. by left.
  - cbn [insertBatches]. unfold mbind, M_bind.
    destruct (decide (NoDup b.*1 /\ Forall (fun i => slots db !! i = None) b.*1))
      as [[Hnd Hf]|Hn].
    + rewrite insertSlots_accepts by done.
      destruct (IH (setSlots db (addRows (slots db) b))) as (k & Hk & Hdb & Hl & Hr).
      destruct (insertBatches bs _) as [[r db''] l'] eqn:E. cbn in Hdb, Hl, Hr |- *.
      exists (S k). cbn [take concat length fmap list_fmap].
      split; [lia|]. split; [by rewrite addRows_app, Hdb|].
      split; [by rewrite Hl|]. destruct Hr as [[-> ->]|[[e ->] Hlt]]; [by left|].
      right. split; [eauto|lia].
    + destruct (insertSlots_refuses b db Hn) as (e & ->). exists 0%nat. cbn.
      rewrite setSlots_same. split; [lia|]. split; [done|]. split; [done|].
      right. split; [eauto|lia].
Qed.

(** X15. The batches of a generate request are inserted one statement at
    a time and nothing undoes them: whatever the answer, the table then
    holds the rows of the first [k] batches on top of what it had, and
    nothing of a later batch. The answer has status 200 exactly when [k]
    is the number of batches; otherwise it is the 500 of the top-level
    handler, and the batches before the refused one stay in the table. *)
Theorem generate_leaves_leading_batches env rows db :
  exists k, (k <= length (generatedBatches env rows))%nat
    /\ (onRequest (insertGenerated env rows) db).1.2
       = setSlots db (addRows (slots db)
                        (concat (take k (generatedBatches env rows))))
    /\ (onRequest (insertGenerated env rows) db).2
       = (fun b : list (string * Slot) => InsertSlots b.*1)
           <$> take (S k) (generatedBatches env rows)
    /\ ((onRequest (insertGenerated env rows) db).1.1
        = Ok (json (SuccessCount (Z.of_nat (length rows))) 200)
        /\ k = length (generatedBatches env rows)
        \/ (onRequest (insertGenerated env rows) db).1.1
           = Ok (json (Error "Server error") 500)
           /\ (k < length (generatedBatches env rows))%nat).
Proof.
  destruct (insertBatches_prefix (generatedBatches env rows) db)
    as (k & Hk & Hdb & Hl & Hr).
  exists k. split; [exact Hk|].
  unfold insertGenerated, onRequest, tryCatch, mbind, M_bind, mret, M_ret.
  fold (generatedBatches env rows).
  destruct (insertBatches (generatedBatches env rows) db) as [[r db''] l'] eqn:E.
  cbn in Hdb, Hl, Hr.
  destruct Hr as [[-> ->]|[[e ->] Hlt]]; cbn; rewrite app_nil_r.
  - split; [exact Hdb|]. split; [exact Hl|]. by left.
  - split; [exact Hdb|]. split; [exact Hl|]. by right.
Qed.

(** ** The outcomes of an admission and of a cancellation *)

Lemma validateBooking_status data r :
  validateBooking data = Some r -> status r = 400.
Proof.
  unfold validateBooking.
  repeat (destruct (negb _ || negb _) || destruct (negb _)); try discriminate;
    by intros [= <-].
Qed.

Lemma compensated_back db slotId slot :
  slots db !! slotId = Some slot -> 0 <= current_bookings slot ->
  withCurrent (withCurrent db slotId slot (current_bookings slot + 1))
    slotId (setCurrent slot (current_bookings slot + 1))
    (Z.max (current_bookings slot + 1 - 1) 0) = db.
Proof.
  intros Hs Hc.
  replace (Z.max (current_bookings slot + 1 - 1) 0) with (current_bookings slot)
    by lia.
  by apply withCurrent_back.
Qed.

(** The ways in which an admission ends. *)
Lemma postBookings_cases env data db r db' l :
  onRequest (postBookings env data) db = (r, db', l) ->
  (exists resp, r = Ok resp /\ (status resp = 400 \/ status resp = 409) /\ db' = db)
  \/ exists slot cap,
       validateBooking data = None
       /\ bookedBy db (slotId data) (sanitizeString (studentId data)) = []
       /\ slots db !! slotId data = Some slot
       /\ max_capacity slot = Some cap /\ current_bookings slot < cap
       /\ (insertRefused env db
           /\ r = Ok (json (Error "Server error") 500)
           /\ db' = withCurrent
                      (withCurrent db (slotId data) slot (current_bookings slot + 1))
                      (slotId data) (setCurrent slot (current_bookings slot + 1))
                      (Z.max (current_bookings slot + 1 - 1) 0)
           \/ insertFault env = false
              /\ (uuid env 0 ∉ booking_id <$> bookings db)
              /\ r = Ok (json (SuccessBooking (uuid env 0)) 200)
              /\ db' = bookedDB env data slot db).
Proof.
  intros H.
  destruct (validateBooking data) as [r0|] eqn:Hv.
  { rewrite (onRequest_Ok _ _ _ _ _ (postBookings_invalid env data r0 db Hv)) in H.
    left. exists r0. injection H as <- <- _.
    split; [done|]. split; [left; by apply (validateBooking_status data)|done]. }
  destruct (bookedBy db (slotId data) (sanitizeString (studentId data))) as [|b bs] eqn:Hb.
  2:{ rewrite (onRequest_Ok _ _ _ _ _
                 (postBookings_duplicate env data db Hv ltac:(by rewrite Hb))) in H.
      left. eexists. injection H as <- <- _. split; [done|]. split; [by left|done]. }
  destruct (slots db !! slotId data) as [slot|] eqn:Hs.
  2:{ rewrite (onRequest_Ok _ _ _ _ _ (postBookings_missing env data db Hv Hb Hs)) in H.
      left. eexists. injection H as <- <- _. split; [done|]. split; [by left|done]. }
  destruct (Z.le_gt_cases (default 0 (max_capacity slot)) (current_bookings slot))
    as [Hfull|Hfree].
  { rewrite (onRequest_Ok _ _ _ _ _ (postBookings_full env data db slot Hv Hb Hs Hfull)) in H.
    left. eexists. injection H as <- <- _. split; [done|]. split; [by right|done]. }
  destruct (max_capacity slot) as [cap|] eqn:Hcap; cbn in Hfree.
  2:{ rewrite (onRequest_Ok _ _ _ _ _
                 (postBookings_null_capacity env data db slot Hv Hb Hs Hcap Hfree)) in H.
      left. eexists. injection H as <- <- _. split; [done|]. split; [by right|done]. }
  right. exists slot, cap. do 5 (split; [done|]).
  destruct (insertRefused_dec env db) as [Hr|[Hf Hid]].
  - destruct (postBookings_compensated env data db slot cap Hv Hb Hs Hcap Hfree Hr)
      as [e He].
    rewrite (onRequest_Throw _ _ _ _ _ He) in H. left. injection H as <- <- _. done.
  - rewrite (onRequest_Ok _ _ _ _ _
               (postBookings_booked env data db slot cap Hv Hb Hs Hcap Hfree Hf Hid)) in H.
    right. injection H as <- <- _. done.
Qed.



Lemma filter_other_id bookingId (bs : list Booking) :
  bookingId ∉ (booking_id <$> bs) ->
  filter (fun b => booking_id b ≠ bookingId) bs = bs
  /\ filter (fun b => booking_id b = bookingId) bs = [].
Proof.
  induction bs as [|b bs IH]; [done|]. rewrite fmap_cons. intros Hn.
  apply not_elem_of_cons in Hn as [Hne Hn]. destruct (IH Hn) as [E1 E2].
  rewrite !filter_cons, E1, E2.
  rewrite decide_True by done. by rewrite decide_False by done.
Qed.

(** The two ways in which a cancellation ends. *)
Lemma deleteBooking_cases bookingId db r db' l :
  onRequest (deleteBooking bookingId) db = (r, db', l) ->
  (exists resp, r = Ok resp /\ (status resp = 400 \/ status resp = 404) /\ db' = db)
  \/ exists b,
       validateString bookingId 1 36 = true
       /\ head (filter (fun b => booking_id b = bookingId) (bookings db)) = Some b
       /\ r = Ok (json Success 200)
       /\ db' = (updateDecrement (slot_id b)
                   (setBookings db (filter (fun b => booking_id b ≠ bookingId)
                                           (bookings db)))).1.2.
Proof.
  unfold deleteBooking. destruct (validateString bookingId 1 36) eqn:Hv; cbn [negb].
  2:{ run_handler. cbn. intros [= <- <- _]. left. eexists. split; [done|].
      split; [by left|done]. }
  run_handler. cbn.
  destruct (head _) as [b|] eqn:Hh; cbn.
  - intros [= <- <- _]. right. exists b. done.
  - intros [= <- <- _]. left. eexists. split; [done|]. split; [by right|done].
Qed.

(** X17. Cancelling the booking that an admission has just granted puts
    the database back exactly as it was before the admission: the row is
    deleted and the counter of the slot is what it was. *)
Theorem cancellation_undoes_an_admission env data db bookingId db1 l1 :
  dbNonNeg db ->
  onRequest (postBookings env data) db
  = (Ok (json (SuccessBooking bookingId) 200), db1, l1) ->
  validateString bookingId 1 36 = true ->
  exists l2,
    onRequest (deleteBooking bookingId) db1 = (Ok (json Success 200), db, l2).
Proof.
  intros Hnn H Hid.
  apply postBookings_cases in H
    as [(resp & [= <-] & [Hst|Hst] & _)
       |(slot & cap & Hv & Hb & Hs & Hcap & Hfree
         & [(_ & [=] & _)|(Hf & Hfresh & [= ->] & ->)])];
    [done|done|].
  destruct (filter_other_id (uuid env 0) (bookings db) Hfresh) as [E1 E2].
  eexists. apply onRequest_Ok. unfold deleteBooking. rewrite Hid. cbn [negb].
  run_handler. unfold bookedDB, withCurrent. cbn.
  rewrite filter_app, E2, filter_cons, filter_nil.
  rewrite decide_True by done. cbn. rewrite lookup_insert_eq. cbn.
  rewrite filter_app, E1, filter_cons, filter_nil.
  rewrite decide_False by (intros Hne; by apply Hne).
  rewrite app_nil_r. f_equal. f_equal.
  unfold setSlots, setBookings. cbn. rewrite insert_insert_eq.
  replace (Z.max (current_bookings slot + 1 - 1) 0) with (current_bookings slot)
    by (pose proof (Hnn _ _ Hs); cbn in *; lia).
  rewrite setCurrent_setCurrent, setCurrent_same, insert_id by done.
  by destruct db.
Qed.

Lemma cancellation_undoes_an_admission_witness :
  exists l2,
    onRequest (deleteBooking "id-0") annBookedDB = (Ok (json Success 200), oneSeatDB, l2).
Proof.
  apply (cancellation_undoes_an_admission sampleEnv annReq oneSeatDB "id-0"
           annBookedDB
           (admissionTrace annReq
              (mkSlot "subject-1" "2024-03-01 09:00:00" 20 (Some 1) 0 "") "id-0")).
  - unfold dbNonNeg, oneSeatDB. cbn. apply map_Forall_singleton. cbn. lia.
  - by vm_compute.
  - reflexivity.
Defined.

(** ** Consistency of the counters with the bookings *)

Lemma keepsCounters_refl db : keepsCounters db db.
Proof.
  split; [done|]. split; [done|]. intros i s' Hs. by rewrite Hs.
Qed.

Lemma keepsCounters_trans db db1 db2 :
  keepsCounters db db1 -> keepsCounters db1 db2 -> keepsCounters db db2.
Proof.
  intros (Hb1 & Hd1 & Hc1) (Hb2 & Hd2 & Hc2).
  split; [congruence|]. split; [auto|].
  intros i s2 Hs2. specialize (Hc2 i s2 Hs2).
  destruct (slots db1 !! i) as [s1|] eqn:E1.
  - specialize (Hc1 i s1 E1). destruct (slots db !! i); congruence.
  - destruct (slots db !! i) as [s|] eqn:E; [|done].
    destruct (Hd1 i ltac:(by rewrite E)) as [? ?]. congruence.
Qed.

Lemma bookingsOf_absent db i :
  Forall (fun b => is_Some (slots db !! slot_id b)) (bookings db) ->
  slots db !! i = None -> bookingsOf db i = [].
Proof.
  intros Hr Hi. unfold bookingsOf.
  induction (bookings db) as [|b bs IH]; [done|].
  apply Forall_cons in Hr as [Hb Hr]. rewrite filter_cons.
  rewrite decide_False; [by apply IH|]. intros E. rewrite E, Hi in Hb.
  by destruct Hb.
Qed.

Lemma consistent_keepsCounters db db' :
  consistent db -> keepsCounters db db' -> consistent db'.
Proof.
  intros (Hnd & Hr & Hc) (Hb & Hd & Hk). split; [by rewrite Hb|]. split.
  - rewrite Hb. eapply Forall_impl; [exact Hr|]. intros b. apply Hd.
  - intros i s' Hs'. specialize (Hk i s' Hs'). unfold bookingsOf. rewrite Hb.
    fold (bookingsOf db i).
    destruct (slots db !! i) as [s|] eqn:E.
    + rewrite Hk. by apply (Hc i s).
    + rewrite Hk, (bookingsOf_absent db i Hr E). reflexivity.
Qed.

Lemma addRows_member m rows i s :
  addRows m rows !! i = Some s ->
  m !! i = Some s \/ (i, s) ∈ rows.
Proof.
  revert m. induction rows as [|[j t] rows IH]; intros m; [by left|].
  change (addRows m ((j, t) :: rows)) with (addRows (<[j := t]> m) rows).
  intros H. apply IH in H as [H|H]; [|right; by right].
  destruct (decide (i = j)) as [->|Hne].
  - rewrite lookup_insert_eq in H. injection H as ->. right. left.
  - rewrite lookup_insert_ne in H by done. by left.
Qed.

Lemma addRows_keeps m rows i :
  is_Some (m !! i) -> is_Some (addRows m rows !! i).
Proof.
  revert m. induction rows as [|[j t] rows IH]; intros m Hi; [done|].
  change (addRows m ((j, t) :: rows)) with (addRows (<[j := t]> m) rows).
  apply IH. destruct (decide (i = j)) as [->|Hne].
  - by rewrite lookup_insert_eq.
  - by rewrite lookup_insert_ne.
Qed.

Lemma insertSlots_keeps rows db :
  Forall (fun r : string * Slot => current_bookings r.2 = 0) rows ->
  keepsCounters db (insertSlots rows db).1.2.
Proof.
  intros Hz.
  destruct (decide (NoDup rows.*1 /\ Forall (fun i => slots db !! i = None) rows.*1))
    as [[Hnd Hf]|Hn].
  - rewrite insertSlots_accepts by done. cbn [fst snd].
    split; [done|]. split; [intros i; cbn [slots setSlots]; apply addRows_keeps|].
    intros i s' Hs'. cbn [slots setSlots] in Hs'.
    destruct (slots db !! i) as [s|] eqn:E.
    + rewrite addRows_other in Hs'; [congruence|].
      intros Hin. apply (proj1 (Forall_forall _ _) Hf) in Hin. congruence.
    + apply addRows_member in Hs' as [?|Hin]; [congruence|].
      by apply (proj1 (Forall_forall _ _) Hz) in Hin.
  - destruct (insertSlots_refuses rows db Hn) as [e ->]. apply keepsCounters_refl.
Qed.

Lemma insertBatches_keeps bs : forall db,
  Forall (Forall (fun r : string * Slot => current_bookings r.2 = 0)) bs ->
  keepsCounters db (insertBatches bs db).1.2.
Proof.
  induction bs as [|b bs IH]; intros db Hz; [apply keepsCounters_refl|].
  apply Forall_cons in Hz as [Hb Hbs].
  cbn [insertBatches]. unfold mbind, M_bind.
  pose proof (insertSlots_keeps b db Hb) as H1.
  destruct (insertSlots b db) as [[[[]|e] db1] l1]; cbn in H1 |- *; [|exact H1].
  pose proof (IH db1 Hbs) as H2.
  destruct (insertBatches bs db1) as [[r2 db2] l2]. cbn in H2 |- *.
  by apply (keepsCounters_trans db db1 db2).
Qed.

Lemma insertGenerated_keeps env rows db r db' l :
  Forall (fun g => g_current_bookings g = 0) rows ->
  onRequest (insertGenerated env rows) db = (r, db', l) ->
  keepsCounters db db'.
Proof.
  intros Hz. unfold insertGenerated, onRequest, tryCatch, mbind, M_bind, mret, M_ret.
  pose proof (insertBatches_keeps (batches (imap (withId env) rows)) db) as H.
  destruct (insertBatches _ db) as [[[[]|e] db1] l1]; cbn in H |- *;
    intros [= _ <- _]; apply H; apply batches_Forall;
    apply Forall_forall; intros [i s] Hin;
    apply elem_of_lookup_imap_1 in Hin as (n & g & [= -> ->] & Hg);
    cbn; apply (proj1 (Forall_forall _ _) Hz g); by eapply list_elem_of_lookup_2.
Qed.

Lemma postSlot_keeps env data db r db' l :
  onRequest (postSlot env data) db = (r, db', l) -> keepsCounters db db'.
Proof.
  unfold postSlot.
  destruct (negb _);
    [run_handler; cbn; intros [= _ <- _]; apply keepsCounters_refl|].
  destruct (negb _);
    [run_handler; cbn; intros [= _ <- _]; apply keepsCounters_refl|].
  destruct (toDbTime env _) as [t|];
    [|run_handler; cbn; intros [= _ <- _]; apply keepsCounters_refl].
  unfold onRequest, tryCatch, mbind, M_bind, mret, M_ret.
  match goal with |- context [insertSlots ?rows db] =>
    pose proof (insertSlots_keeps rows db ltac:(by repeat constructor)) as H;
    destruct (insertSlots rows db) as [[[[]|e] db1] l1]
  end; cbn in *; by intros [= _ <- _].
Qed.

Lemma putSlot_keeps env slotId data db r db' l :
  onRequest (putSlot env slotId data) db = (r, db', l) -> keepsCounters db db'.
Proof.
  unfold putSlot.
  destruct (negb _);
    [run_handler; cbn; intros [= _ <- _]; apply keepsCounters_refl|].
  destruct (if JS.truthyOpt _ then _ else _) as [t|];
    [|run_handler; cbn; intros [= _ <- _]; apply keepsCounters_refl].
  destruct (isNull (newLocation data));
    [run_handler; cbn; intros [= _ <- _]; apply keepsCounters_refl|].
  destruct (hasUpdates data); run_handler; cbn;
    [|intros [= _ <- _]; apply keepsCounters_refl].
  destruct (slots db !! slotId) as [s|] eqn:Hs;
    [|intros [= _ <- _]; apply keepsCounters_refl].
  destruct (applyUpdate data t s) as [s1|] eqn:Ha; cbn; intros [= _ <- _];
    [|apply keepsCounters_refl].
  apply applyUpdate_current in Ha.
  split; [done|]. cbn. split.
  - intros i Hi. destruct (decide (i = slotId)) as [->|Hne].
    + by rewrite lookup_insert_eq.
    + by rewrite lookup_insert_ne.
  - intros i s'. destruct (decide (i = slotId)) as [->|Hne].
    + rewrite lookup_insert_eq, Hs. by intros [= <-].
    + rewrite lookup_insert_ne by done. intros E. by rewrite E.
Qed.

Lemma length_bookingsOf_snoc db bs b i :
  bookings db = (bs ++ [b])%list ->
  length (bookingsOf db i)
  = (length (filter (fun b => slot_id b = i) bs)
     + if decide (slot_id b = i) then 1 else 0)%nat.
Proof.
  intros E. unfold bookingsOf. rewrite E, filter_app, length_app, filter_cons, filter_nil.
  by destruct (decide (slot_id b = i)).
Qed.

Lemma consistent_booked env data slot db :
  consistent db -> slots db !! slotId data = Some slot ->
  uuid env 0 ∉ (booking_id <$> bookings db) ->
  consistent (bookedDB env data slot db).
Proof.
  intros (Hnd & Hr & Hc) Hs Hfresh. unfold bookedDB, withCurrent. split; [|split].
  - cbn. rewrite fmap_app. apply NoDup_app. split; [done|]. split.
    + intros x Hx. cbn. intros Hin. apply list_elem_of_singleton in Hin. by subst x.
    + apply NoDup_singleton.
  - cbn. apply Forall_app. split.
    + eapply Forall_impl; [exact Hr|]. intros b Hb.
      destruct (decide (slot_id b = slotId data)) as [->|Hne].
      * by rewrite lookup_insert_eq.
      * by rewrite lookup_insert_ne.
    + constructor; [|constructor]. cbn. by rewrite lookup_insert_eq.
  - intros i s. cbn [slots setSlots setBookings].
    rewrite (length_bookingsOf_snoc _ (bookings db) (bookingRow (uuid env 0) data))
      by done.
    fold (bookingsOf db i). cbn [slot_id bookingRow].
    destruct (decide (i = slotId data)) as [->|Hne].
    + rewrite lookup_insert_eq. intros [= <-]. cbn.
      rewrite decide_True by done. rewrite (Hc _ _ Hs). lia.
    + rewrite lookup_insert_ne by done. intros Hi.
      rewrite decide_False by done. rewrite (Hc _ _ Hi). lia.
Qed.

Lemma consistent_nonneg db : consistent db -> dbNonNeg db.
Proof. intros (_ & _ & Hc) i s Hs. cbn. rewrite (Hc i s Hs). lia. Qed.

Lemma consistent_postBookings env data db r db' l :
  consistent db -> onRequest (postBookings env data) db = (r, db', l) ->
  consistent db'.
Proof.
  intros Hdb H.
  apply postBookings_cases in H
    as [(resp & -> & Hst & ->)
       |(slot & cap & Hv & Hb & Hs & Hcap & Hfree
         & [(Hr & -> & ->)|(Hf & Hid & -> & ->)])].
  - exact Hdb.
  - rewrite compensated_back; [exact Hdb|exact Hs|].
    by apply (consistent_nonneg db Hdb _ _ Hs).
  - by apply consistent_booked.
Qed.

(** Deleting the one booking with an id lowers the count of its slot by
    one and no other count. *)
Lemma length_filter_without bookingId b (bs : list Booking) i :
  NoDup (booking_id <$> bs) ->
  head (filter (fun b => booking_id b = bookingId) bs) = Some b ->
  length (filter (fun b => slot_id b = i) bs)
  = (length (filter (fun b => slot_id b = i)
               (filter (fun b => booking_id b ≠ bookingId) bs))
     + if decide (slot_id b = i) then 1 else 0)%nat.
Proof.
  induction bs as [|x bs IH]; [done|]. rewrite fmap_cons. intros Hnd.
  apply NoDup_cons in Hnd as [Hx Hnd].
  rewrite (filter_cons (fun b => booking_id b = bookingId)).
  rewrite (filter_cons (fun b => booking_id b ≠ bookingId)).
  destruct (decide (booking_id x = bookingId)) as [E|Hne].
  - cbn [head]. intros [= ->]. rewrite decide_False by (intros Hn; by apply Hn).
    subst bookingId. destruct (filter_other_id (booking_id b) bs Hx) as [-> _].
    rewrite filter_cons. destruct (decide (slot_id b = i)); cbn [length]; lia.
  - intros Hh. rewrite decide_True by done. rewrite !filter_cons.
    specialize (IH Hnd Hh).
    destruct (decide (slot_id x = i)); cbn [length]; lia.
Qed.

Lemma head_filter_elem {A} (P : A -> Prop) `{!forall x, Decision (P x)} l x :
  head (filter P l) = Some x -> x ∈ l /\ P x.
Proof.
  intros Hh. assert (Hin : x ∈ filter P l).
  { destruct (filter P l); [done|]. injection Hh as ->. left. }
  by apply list_elem_of_filter in Hin as [? ?].
Qed.

Lemma consistent_deleteBooking bookingId db r db' l :
  consistent db -> onRequest (deleteBooking bookingId) db = (r, db', l) ->
  consistent db'.
Proof.
  intros (Hnd & Hr & Hc) H.
  apply deleteBooking_cases in H
    as [(resp & -> & Hst & ->)|(b & Hv & Hh & -> & ->)]; [done|].
  destruct (head_filter_elem _ _ _ Hh) as [Hin Hid].
  destruct (proj1 (Forall_forall _ _) Hr b Hin) as [s Hs].
  unfold updateDecrement, stmt. cbn. rewrite Hs. split; [|split].
  - cbn. by apply NoDup_fmap_filter.
  - cbn. apply Forall_forall. intros x Hx.
    apply list_elem_of_filter in Hx as [_ Hx].
    destruct (proj1 (Forall_forall _ _) Hr x Hx) as [sx Hsx].
    destruct (decide (slot_id x = slot_id b)) as [->|Hne].
    + by rewrite lookup_insert_eq.
    + by rewrite lookup_insert_ne.
  - intros i si. cbn [slots bookings setSlots setBookings]. unfold bookingsOf.
    cbn [bookings setSlots setBookings].
    pose proof (length_filter_without bookingId b (bookings db) i Hnd Hh) as Hlen.
    destruct (decide (i = slot_id b)) as [->|Hne].
    + rewrite lookup_insert_eq. intros [= <-]. cbn.
      rewrite decide_True in Hlen by done.
      pose proof (Hc _ _ Hs) as Hcs. unfold bookingsOf in Hcs. cbn in Hcs. lia.
    + rewrite lookup_insert_ne by done. intros Hi.
      rewrite decide_False in Hlen by done.
      pose proof (Hc _ _ Hi) as Hcs. unfold bookingsOf in Hcs. cbn in Hcs. lia.
Qed.

Lemma consistent_handle fuel env rq m db r db' l :
  consistent db -> handle fuel env rq = Some m ->
  onRequest m db = (r, db', l) -> consistent db'.
Proof.
  intros Hdb Hm H. destruct rq as [data|bookingId|data|slotId data|req]; cbn in Hm.
  - injection Hm as <-. by eapply consistent_postBookings.
  - injection Hm as <-. by eapply consistent_deleteBooking.
  - injection Hm as <-. eapply consistent_keepsCounters; [exact Hdb|].
    by eapply postSlot_keeps.
  - injection Hm as <-. eapply consistent_keepsCounters; [exact Hdb|].
    by eapply putSlot_keeps.
  - unfold postGenerate in Hm.
    destruct (expand fuel req) as [[rows|r0]|] eqn:E; [| |discriminate];
      injection Hm as <-.
    + eapply consistent_keepsCounters; [exact Hdb|].
      eapply insertGenerated_keeps; [|exact H].
      eapply Forall_impl; [exact (expand_rows _ _ _ E)|]. by intros g [? _].
    + unfold onRequest, tryCatch, mret, M_ret in H. by injection H as _ <- _.
Qed.

Lemma consistent_deleteSlotRows slotId db :
  consistent db -> consistent (deleteSlotRows slotId db).
Proof.
  intros (Hnd & Hr & Hc). unfold deleteSlotRows. split; [|split]; cbn.
  - by apply NoDup_fmap_filter.
  - apply Forall_forall. intros b Hb. apply list_elem_of_filter in Hb as [Hne Hb].
    rewrite lookup_delete_ne by done. by apply (proj1 (Forall_forall _ _) Hr).
  - intros i s Hi. apply lookup_delete_Some in Hi as [Hne Hi].
    rewrite (Hc i s Hi). unfold bookingsOf. cbn. do 2 f_equal.
    rewrite list_filter_filter. apply list_filter_iff. intros b.
    split; [intros ?; split; [done|congruence]|by intros [? _]].
Qed.

Lemma consistent_putBooking bookingId st db :
  consistent db -> consistent (putBooking bookingId st db).2.
Proof.
  intros Hdb. unfold putBooking. destruct (negb _); [done|].
  destruct st as [st|]; [|done]. destruct (negb _); [done|]. cbn.
  destruct Hdb as (Hnd & Hr & Hc).
  set (g := fun b => if decide (booking_id b = bookingId)
                     then setStatus b (sanitizeString st) else b).
  assert (Hid : forall b, booking_id (g b) = booking_id b)
    by (intros b; unfold g; by destruct (decide _)).
  assert (Hsl : forall b, slot_id (g b) = slot_id b)
    by (intros b; unfold g; by destruct (decide _)).
  fold g. split; [|split]; cbn.
  - rewrite <- list_fmap_compose.
    by rewrite (list_fmap_ext (booking_id ∘ g) booking_id (bookings db))
      by (intros _ b _; apply Hid).
  - apply Forall_fmap. eapply Forall_impl; [exact Hr|]. intros b Hb. cbn.
    by rewrite Hsl.
  - intros i s Hi. rewrite (Hc i s Hi). unfold bookingsOf. cbn. f_equal.
    clear - Hsl. induction (bookings db) as [|b bs IH]; [done|].
    rewrite fmap_cons, !filter_cons, Hsl.
    destruct (decide (slot_id b = i)); cbn [length]; by rewrite IH.
Qed.

Lemma consistent_staffOp op db : consistent db -> consistent (staffOp op db).2.
Proof.
  intros Hdb. destruct op as [slotId|[ids|]|bookingId st|]; cbn [staffOp].
  - unfold deleteSlot. destruct (negb _); [done|]. by apply consistent_deleteSlotRows.
  - cbn. revert db Hdb. induction ids as [|i ids IH]; intros db Hdb; [done|].
    cbn [foldl]. apply IH. destruct (negb _); [done|].
    by apply consistent_deleteSlotRows.
  - done.
  - by apply consistent_putBooking.
  - cbn. split; [constructor|]. split; [constructor|].
    intros i s Hi. cbn in Hi. rewrite lookup_fmap in Hi.
    destruct (slots db !! i); [|done]. by injection Hi as <-.
Qed.

(** X18. After any sequence of admissions, cancellations, slot creations,
    slot edits, slot generations, slot deletions (single and bulk), booking
    status edits and [clear-bookings], each handled to its end before the
    next, the counter of every slot is the number of the booking rows of
    that slot, every booking is for a slot of the table, and no two
    bookings have the same id. ([DELETE /staff/subjects/:id] and
    [clear-past-slots] are not among these operations.) *)
Theorem counters_count_the_bookings db :
  reachableStaff db -> consistent db.
Proof.
  induction 1 as [|db fuel env rq m r db' l _ IH Hm H|db op _ IH].
  - split; [constructor|]. split; [constructor|]. intros i s Hi. done.
  - by eapply consistent_handle.
  - by apply consistent_staffOp.
Qed.

Lemma counters_count_the_bookings_witness : consistent annBookedDB.
Proof.
  apply counters_count_the_bookings.
  apply (staff_request oneSeatDB 0 sampleEnv (PostBookings annReq)
           (postBookings sampleEnv annReq) (Ok (json (SuccessBooking "id-0") 200))
           annBookedDB
           (admissionTrace annReq
              (mkSlot "subject-1" "2024-03-01 09:00:00" 20 (Some 1) 0 "") "id-0"));
    [|reflexivity|by vm_compute].
  apply (staff_request emptyDB 0
           {| uuid := fun _ => "slot-1"; insertFault := false;
              emailConfigured := false; toDbTime := fun s => Some s |}
           (PostSlot (mkSlotReq "subject-1" (Some "2024-03-01 09:00:00")
                        (Some 20) (Some 1) (Some "")))
           (postSlot
              {| uuid := fun _ => "slot-1"; insertFault := false;
                 emailConfigured := false; toDbTime := fun s => Some s |}
              (mkSlotReq "subject-1" (Some "2024-03-01 09:00:00")
                 (Some 20) (Some 1) (Some "")))
           (Ok (json (SuccessId "slot-1") 200)) oneSeatDB [InsertSlots ["slot-1"]]);
    [apply staff_empty|reflexivity|by vm_compute].
Defined.

(** ** Timestamps on the way to the client *)

Lemma endsWith_snoc c s : endsWith c (s +:+ String c EmptyString) = true.
Proof.
  induction s as [|a s IH]; [cbv [String.app]; cbn; apply Ascii.eqb_refl|].
  rewrite append_cons. destruct (s +:+ String c EmptyString) as [|b t] eqn:E.
  - destruct s; [cbv [String.app] in E|rewrite append_cons in E]; discriminate.
  - change (endsWith c (String a (String b t))) with (endsWith c (String b t)).
    exact IH.
Qed.

Lemma includes_app c s t : includes c (s +:+ t) = includes c s || includes c t.
Proof.
  induction s as [|a s IH]; [done|]. rewrite append_cons. cbn [includes].
  by rewrite IH, orb_assoc.
Qed.

Lemma includes_dateChars c s :
  dateChar c = false -> JS.allChars dateChar s = true -> includes c s = false.
Proof.
  intros Hc. induction s as [|a s IH]; [done|]. cbn [JS.allChars includes].
  intros H. apply andb_prop in H as [Ha Hs]. rewrite (IH Hs), orb_false_r.
  destruct (Ascii.eqb_spec a c) as [->|]; [congruence|done].
Qed.

Lemma replaceFirst_app a b s t :
  includes a s = false ->
  replaceFirst a b (s +:+ String a t) = s +:+ String b t.
Proof.
  induction s as [|c s IH]; [intros _; cbv [String.app]; cbn; by rewrite Ascii.eqb_refl|].
  cbn [includes]. intros H. apply orb_false_elim in H as [Hc Hs].
  rewrite !append_cons. cbn [replaceFirst]. by rewrite Hc, IH.
Qed.

Lemma split_app_sep c s t :
  includes c s = false -> head (JS.split c (s +:+ String c t)) = Some s.
Proof.
  induction s as [|a s IH]; [intros _; cbv [String.app]; cbn; by rewrite Ascii.eqb_refl|].
  cbn [includes]. intros H. apply orb_false_elim in H as [Ha Hs].
  rewrite append_cons. cbn [JS.split]. rewrite Ha. specialize (IH Hs).
  destruct (JS.split c (s +:+ String c t)) as [|h tl]; [done|].
  cbn in IH |- *. by injection IH as ->.
Qed.

Lemma minutesToTimeStr_chars :
  Forall (fun m => JS.allChars dateChar (minutesToTimeStr m) = true) (seqZ 0 6000).
Proof.
  apply Forall_forall. intros m Hm. apply elem_of_seqZ in Hm.
  assert (Hh := proj1 (Forall_forall _ _) pad2_Number_checked (m / 60)
                  ltac:(apply elem_of_seqZ; Z.to_euclidean_division_equations; lia)).
  assert (Hr := proj1 (Forall_forall _ _) pad2_Number_checked (Z.rem m 60)
                  ltac:(apply elem_of_seqZ; Z.to_euclidean_division_equations; lia)).
  cbv beta in Hh, Hr. destruct Hh as [Hh2 _], Hr as [Hr2 _].
  unfold minutesToTimeStr. by destruct (clock_string_parts _ _ Hh2 Hr2) as (_ & _ & ?).
Qed.

(** X19. The three copies of [toUTCISOString] give the same result on
    every column value. The result is [null] exactly for [null] and the
    empty string, and otherwise ends with [Z]. For a slot that the
    generator has written as [date], a space and the clock string, with a
    date of digits and hyphens, the result is the date, [T], the clock
    string and [Z], so that the booking page groups the slot under that
    very date. *)
Theorem timestamps_reach_the_client_by_date :
  (forall dbTime, toUTCISOString_data dbTime = toUTCISOString dbTime)
  /\ (forall dbTime,
        toUTCISOString dbTime = None <-> dbTime = None \/ dbTime = Some EmptyString)
  /\ (forall dbTime r, toUTCISOString dbTime = Some r -> endsWith "Z" r = true)
  /\ (forall req dateStr currMin,
        JS.allChars dateChar dateStr = true -> 0 <= currMin < 6000 ->
        toUTCISOString (Some (g_start_time (slotRow req dateStr currMin)))
        = Some (dateStr +:+ "T" +:+ minutesToTimeStr currMin +:+ "Z")
        /\ dateKey (dateStr +:+ "T" +:+ minutesToTimeStr currMin +:+ "Z")
           = Some dateStr).
Proof.
  split; [|split; [|split]].
  - intros [s|]; [|done]. unfold toUTCISOString_data, toUTCISOString.
    destruct (negb (JS.truthy s)); [done|].
    by destruct (includes "T" s), (endsWith "Z" s).
  - intros [s|]; [|by split; [left|]]. unfold toUTCISOString. split.
    + destruct s as [|a s]; [by right|]. cbn [JS.truthy negb].
      repeat case_match; done.
    + intros [?|[= ->]]; done.
  - intros [s|] r; [|done]. unfold toUTCISOString.
    destruct (negb (JS.truthy s)); [done|].
    destruct (includes "T" s) eqn:Ei, (endsWith "Z" s) eqn:Ee; cbn [andb];
      intros [= <-]; try done; apply endsWith_snoc.
  - intros req dateStr currMin Hd Hc.
    assert (Ht : JS.allChars dateChar (minutesToTimeStr currMin) = true).
    { apply (proj1 (Forall_forall _ _) minutesToTimeStr_chars).
      apply elem_of_seqZ. lia. }
    assert (HdT : includes "T" dateStr = false) by by apply includes_dateChars.
    assert (HdS : includes " " dateStr = false) by by apply includes_dateChars.
    assert (HtT : includes "T" (minutesToTimeStr currMin) = false)
      by by apply includes_dateChars.
    split.
    + unfold toUTCISOString, slotRow. cbn [g_start_time].
      assert (Hn : JS.truthy (dateStr +:+ " " +:+ minutesToTimeStr currMin) = true)
        by (destruct dateStr; [|done]; by rewrite append_cons).
      rewrite Hn. cbn [negb]. rewrite !includes_app, HdT, HtT. cbn [includes orb andb].
      change (Ascii.eqb " " "T") with false. cbn [orb].
      change (" " +:+ minutesToTimeStr currMin)
        with (String " " (minutesToTimeStr currMin)).
      rewrite replaceFirst_app by done.
      cbn [andb]. by rewrite append_assoc, append_cons.
    + unfold dateKey.
      change ("T" +:+ minutesToTimeStr currMin +:+ "Z")
        with (String "T" (minutesToTimeStr currMin +:+ "Z")).
      by apply split_app_sep.
Qed.

Lemma timestamps_reach_the_client_by_date_witness :
  toUTCISOString (Some (g_start_time (slotRow leapWeekReq "2024-02-29" 540)))
  = Some ("2024-02-29" +:+ "T" +:+ minutesToTimeStr 540 +:+ "Z")
  /\ dateKey ("2024-02-29" +:+ "T" +:+ minutesToTimeStr 540 +:+ "Z")
     = Some "2024-02-29".
Proof.
  apply (proj2 (proj2 (proj2 timestamps_reach_the_client_by_date))
           leapWeekReq "2024-02-29" 540); [reflexivity|lia].
Defined.

(** ** The dispatch of a request *)

Lemma stripPrefix_app p s r : stripPrefix p s = Some r <-> s = p +:+ r.
Proof.
  revert s. induction p as [|a p IH]; intros s.
  - cbn. cbv [String.app]. split; congruence.
  - rewrite append_cons. destruct s as [|b s]; cbn; [done|].
    destruct (Ascii.eqb_spec a b) as [->|Hne].
    + rewrite IH. split; congruence.
    + split; [done|]. congruence.
Qed.

Lemma startsWith_app p s : startsWith p s = true <-> exists r, s = p +:+ r.
Proof.
  unfold startsWith. rewrite bool_decide_eq_true. split.
  - intros [r Hr]. exists r. by apply stripPrefix_app.
  - intros [r Hr]. exists r. by apply stripPrefix_app.
Qed.

Lemma startsWith_trans q p s :
  startsWith q p = true -> startsWith p s = true -> startsWith q s = true.
Proof.
  rewrite !startsWith_app. intros [r1 ->] [r2 ->]. exists (r1 +:+ r2).
  apply append_assoc.
Qed.

Lemma startsWith_refl p : startsWith p p = true.
Proof. apply startsWith_app. exists EmptyString. by rewrite append_nil_r. Qed.

Lemma matchId_startsWith p s : matchId p s = true -> startsWith p s = true.
Proof.
  unfold matchId, startsWith. destruct (stripPrefix p s); [|done]. intros _.
  by apply bool_decide_eq_true.
Qed.

Lemma staff_path_eq q (method path m p : string) :
  String.eqb method m && String.eqb path p = true ->
  startsWith q p = true -> startsWith q path = true.
Proof.
  intros H Hq. apply andb_prop in H as [_ H]. apply String.eqb_eq in H.
  by subst path.
Qed.

Lemma staff_path_starts q (method path m p : string) :
  String.eqb method m && startsWith p path = true ->
  startsWith q p = true -> startsWith q path = true.
Proof.
  intros H Hq. apply andb_prop in H as [_ H]. by apply (startsWith_trans q p).
Qed.

Lemma staff_path_match q (method path m p : string) :
  String.eqb method m && matchId p path = true ->
  startsWith q p = true -> startsWith q path = true.
Proof.
  intros H Hq. apply andb_prop in H as [_ H]. apply matchId_startsWith in H.
  by apply (startsWith_trans q p).
Qed.

Lemma split_no_sep c s : includes c s = false -> JS.split c s = [s].
Proof.
  induction s as [|a s IH]; [done|]. cbn [includes JS.split]. intros H.
  apply orb_false_elim in H as [Ha Hs]. by rewrite Ha, (IH Hs).
Qed.

Lemma split_cons_other c a s :
  Ascii.eqb a c = false ->
  JS.split c (String a s)
  = match JS.split c s with h :: t => String a h :: t | [] => [String a EmptyString] end.
Proof. intros H. cbn [JS.split]. by rewrite H. Qed.

Lemma matchId_segment p path i :
  (p = "/staff/subjects/" \/ p = "/staff/slots/" \/ p = "/staff/users/"
   \/ p = "/staff/bookings/") ->
  stripPrefix p path = Some i -> includes "/" i = false ->
  segment 3 path = Some i.
Proof.
  intros Hp Hs Hi. apply stripPrefix_app in Hs. subst path. unfold segment.
  destruct Hp as [-> | [-> | [-> | ->]]]; cbv [String.app]; cbn [JS.split Ascii.eqb Bool.eqb];
    by rewrite (split_no_sep "/" i Hi).
Qed.

Lemma route_pattern (method path m p : string) :
  String.eqb method m && matchId p path = true ->
  (p = "/staff/subjects/" \/ p = "/staff/slots/" \/ p = "/staff/users/"
   \/ p = "/staff/bookings/") ->
  exists i, segment 3 path = Some i /\ path = p +:+ i
            /\ i <> EmptyString /\ includes "/" i = false.
Proof.
  intros H Hp. apply andb_prop in H as [_ H]. unfold matchId in H.
  destruct (stripPrefix p path) as [i|] eqn:E; [|done].
  apply andb_prop in H as [Ht Hn]. apply negb_true_iff in Hn.
  exists i. split; [by apply (matchId_segment p)|].
  split; [by apply stripPrefix_app|]. split; [by destruct i|done].
Qed.

(** X20. No branch of the handler that reads or writes staff data is
    reached without a token that [verifyJWT] accepts: the test that
    answers 401 stands before all of them and every one of their paths
    starts with [/staff]. The branches chosen by a pattern with an id get
    as id the whole rest of the path after the literal prefix, which is
    not empty and has no slash. *)
Theorem staff_routes_need_a_verified_token now clientIP method path secretOk
    user rateLimits r :
  (dispatch now clientIP method path secretOk user rateLimits).1 = r ->
  staffRoute r = true ->
  user = true /\ secretOk = true /\ startsWith "/staff" path = true
  /\ forall p id, patternId r = Some (p, id) ->
       exists i, id = Some i /\ path = p +:+ i
                 /\ i <> EmptyString /\ includes "/" i = false.
Proof.
  unfold dispatch. destruct (String.eqb method "OPTIONS");
    [by intros <-|].
  destruct (if String.eqb path "/login" then _ else _) as [[] rl1];
    [by intros <-|].
  destruct (if String.eqb path "/bookings" && _ then _ else _) as [[] rl2];
    [by intros <-|].
  cbn [fst]. unfold route.
  destruct secretOk; cbn [negb]; [|by intros <-].
  repeat match goal with
  | |- (if ?c then _ else _) = _ -> _ => destruct c eqn:?
  end; intros <-; try discriminate; intros _;
  (assert (Hst : startsWith "/staff" path = true);
   [first [by eapply staff_path_eq | by eapply staff_path_starts
          | by eapply staff_path_match]|]);
  (split; [destruct user; [done|]; cbn [negb andb] in *; congruence|]);
  (split; [done|]); (split; [done|]);
  intros p id; cbn [patternId]; try discriminate; intros [= <- <-];
  match goal with
  | H : String.eqb method _ && matchId _ path = true |- _ =>
      destruct (route_pattern method path _ _ H)
        as (i & Hseg & Hp & Hne & Hno); [tauto|]; exists i; by rewrite Hseg
  end.
Qed.

Lemma staff_routes_need_a_verified_token_witness :
  true = true /\ true = true /\ startsWith "/staff" "/staff/slots/slot-1" = true
  /\ forall p id, patternId (DeleteStaffSlot (Some "slot-1")) = Some (p, id) ->
       exists i, id = Some i /\ "/staff/slots/slot-1" = p +:+ i
                 /\ i <> EmptyString /\ includes "/" i = false.
Proof.
  apply (staff_routes_need_a_verified_token 0 "10.0.0.1" "DELETE"
           "/staff/slots/slot-1" true true ∅ (DeleteStaffSlot (Some "slot-1")));
    reflexivity.
Defined.

(** ** Deletion of a subject *)

Lemma length_filter_and_lt {A} (P Q : A -> Prop) `{!forall x, Decision (P x)}
    `{!forall x, Decision (Q x)} (l : list A) x :
  x ∈ l -> P x -> ~ Q x ->
  (length (filter (fun a => P a /\ Q a) l) < length (filter P l))%nat.
Proof.
  assert (Hle : forall l', (length (filter (fun a => P a /\ Q a) l')
                            <= length (filter P l'))%nat).
  { induction l' as [|y l' IH]; [done|]. rewrite !filter_cons.
    destruct (decide (P y /\ Q y)) as [[HP HQ]|Hn].
    - rewrite decide_True by done. cbn [length]. lia.
    - destruct (decide (P y)); cbn [length]; lia. }
  induction l as [|y l IH]; intros Hin HP HQ; [by apply elem_of_nil in Hin|].
  rewrite !filter_cons. apply elem_of_cons in Hin as [<-|Hin].
  - rewrite decide_False by (by intros [_ ?]). rewrite decide_True by done.
    cbn [length]. specialize (Hle l). lia.
  - specialize (IH Hin HP HQ).
    destruct (decide (P y /\ Q y)) as [[HP' HQ']|Hn].
    + rewrite decide_True by done. cbn [length]. lia.
    + destruct (decide (P y)); cbn [length]; lia.
Qed.

Lemma filter_iff_in {A} (P Q : A -> Prop) `{!forall x, Decision (P x)}
    `{!forall x, Decision (Q x)} (l : list A) :
  (forall x, x ∈ l -> P x <-> Q x) -> filter P l = filter Q l.
Proof.
  induction l as [|y l IH]; [done|]. intros Hl. rewrite !filter_cons.
  rewrite IH by (intros x Hx; apply Hl; by right).
  destruct (decide (P y)) as [HP|HP].
  - rewrite decide_True; [done|]. apply Hl; [left|done].
  - rewrite decide_False; [done|]. intros HQ. apply HP, Hl; [left|done].
Qed.

(** X21. Deleting a subject deletes the bookings that name the subject
    and the slots of the subject, each by its own column. When every
    booking names the subject of its slot, the counters still count the
    bookings afterwards. A booking that names the deleted subject for a
    slot of another subject is deleted while its slot stays with its
    counter: the counter is then above the number of bookings of the
    slot. *)
Theorem subject_deletion_and_the_counters subjectId db :
  consistent db -> validateString subjectId 1 36 = true ->
  (subjectsAgree db -> consistent (deleteSubject subjectId db).2)
  /\ (forall b s,
        b ∈ bookings db -> booking_subject_id b = subjectId ->
        slots db !! slot_id b = Some s -> subject_id s ≠ subjectId ->
        slots (deleteSubject subjectId db).2 !! slot_id b = Some s
        /\ Z.of_nat (length (bookingsOf (deleteSubject subjectId db).2 (slot_id b)))
           < current_bookings s).
Proof.
  intros (Hnd & Hr & Hc) Hv. unfold deleteSubject. rewrite Hv. cbn [negb snd].
  split.
  - intros Hag. split; [|split]; cbn [slots bookings].
    + by apply NoDup_fmap_filter.
    + apply Forall_forall. intros b Hb. apply list_elem_of_filter in Hb as [Hne Hb].
      destruct (proj1 (Forall_forall _ _) Hr b Hb) as [s Hs].
      exists s. apply map_lookup_filter_Some. split; [done|]. cbn.
      by rewrite <- (proj1 (Forall_forall _ _) Hag b Hb s Hs).
    + intros i s Hi. apply map_lookup_filter_Some in Hi as [Hi Hne]. cbn in Hne.
      rewrite (Hc i s Hi). unfold bookingsOf. cbn [bookings]. do 2 f_equal.
      rewrite list_filter_filter. apply filter_iff_in.
      intros b Hb. split; [|by intros [? _]]. intros Hbi. split; [done|].
      subst i. by rewrite (proj1 (Forall_forall _ _) Hag b Hb s Hi).
  - intros b s Hb Hsub Hs Hne. split.
    + cbn [slots]. apply map_lookup_filter_Some. by split.
    + rewrite (Hc _ _ Hs). unfold bookingsOf. cbn [bookings].
      rewrite list_filter_filter. apply inj_lt.
      apply (length_filter_and_lt _ _ _ b); [done|done|]. intros Hn. by apply Hn.
Qed.

Lemma subject_deletion_and_the_counters_witness :
  slots (deleteSubject "subject-2" strayDB).2 !! slot_id (bookingRow "id-0" strayReq)
  = Some (mkSlot "subject-1" "2024-03-01 09:00:00" 20 (Some 1) 1 "")
  /\ Z.of_nat (length (bookingsOf (deleteSubject "subject-2" strayDB).2
                         (slot_id (bookingRow "id-0" strayReq))))
     < current_bookings (mkSlot "subject-1" "2024-03-01 09:00:00" 20 (Some 1) 1 "").
Proof.
  assert (Hdb : consistent strayDB).
  { split; [|split].
    - apply (bool_decide_unpack _). by vm_compute.
    - apply (bool_decide_unpack _). by vm_compute.
    - apply map_Forall_singleton. by vm_compute. }
  apply (proj2 (subject_deletion_and_the_counters "subject-2" strayDB Hdb
                  ltac:(reflexivity))
           (bookingRow "id-0" strayReq)
           (mkSlot "subject-1" "2024-03-01 09:00:00" 20 (Some 1) 1 ""));
    [left|reflexivity|reflexivity|by vm_compute].
Defined.

(** ** Slots and the lunch break *)



(** ** Repeated cancellation *)




